(** * supergrep: the search aggregation engine

    A shallow embedding of the TypeScript sources
      - [src/core/types.ts]   (query normalisation, provider-error guard)
      - [src/core/engine.ts]  (cache key, fan-out, aggregation)
      - [src/cache/sqlite.ts] (the cache table)
      - [src/core/metrics.ts] (the metrics table, percentiles)
    followed by the properties proved about them.

    JavaScript numbers that carry measurements or scores are IEEE-754
    doubles and are modelled by Rocq's primitive [float]; numbers that
    the program only uses as integers (epoch times, counts, limits) are
    modelled by [Z].  Objects whose key order is observable are
    association lists; the cache table, keyed by its primary key, is a
    [gmap]; the [Set] used for de-duplication is a [gset]. *)

From Stdlib Require Import ZArith List String Ascii Bool Lia Floats.
From Stdlib Require Import Permutation Sorted DecimalString.
From stdpp Require Import base option gmap strings.
Import ListNotations.

Local Open Scope string_scope.
Local Open Scope list_scope.
Local Open Scope Z_scope.

(** ** The JavaScript runtime the sources rely on *)

Module JS.

(** [Math.log] is implementation-approximated in ECMAScript: the host
    supplies it.  Everything else below is fixed by the language. *)
Class Host := { Math_log : float -> float }.

(** [v > 0], [v < 0] on numbers; both are [false] on [NaN]. *)
Definition is_pos (v : float) : bool := PrimFloat.ltb 0%float v.
Definition is_neg (v : float) : bool := PrimFloat.ltb v 0%float.
Definition isNaN (v : float) : bool := negb (PrimFloat.eqb v v).

Section ArraySort.
Context {A : Type}.
(** [after a b] holds when [comparefn(a, b) > 0], that is when the
    comparator asks for [a] to be placed after [b].  A comparator
    result of [0] or [NaN] leaves the pair as it is. *)
Variable after : A -> A -> bool.

Fixpoint sort_insert (x : A) (sorted : list A) : list A :=
  match sorted with
  | [] => [x]
  | y :: rest => if after x y then y :: sort_insert x rest
                 else x :: y :: rest
  end.

(** [Array.prototype.sort]: a stable sort (ECMAScript 2019).  For a
    consistent comparator the result does not depend on the
    algorithm; insertion from the right is the simplest stable one. *)
Fixpoint Array_sort (l : list A) : list A :=
  match l with
  | [] => []
  | x :: rest => sort_insert x (Array_sort rest)
  end.
End ArraySort.

(** The numbers [Math.ceil] can return: an integer, or one of the
    three values that are not. *)
Inductive Integral := NaN | NegInfinity | PosInfinity | Int (z : Z).

(** [Math.ceil], read off the binary representation [m * 2^e]. *)
Definition Math_ceil (x : float) : Integral :=
  match Prim2SF x with
  | S754_nan => NaN
  | S754_infinity s => if s then NegInfinity else PosInfinity
  | S754_zero _ => Int 0
  | S754_finite s m e =>
      let v := if s then Z.neg m else Z.pos m in
      Int (if 0 <=? e then v * 2 ^ e else - ((- v) / 2 ^ (- e)))
  end.

Definition minus (a : Integral) (k : Z) : Integral :=
  match a with Int z => Int (z - k) | _ => a end.

(** [Math.min] and [Math.max]: [NaN] if an argument is [NaN]. *)
Definition Math_min (a b : Integral) : Integral :=
  match a, b with
  | NaN, _ | _, NaN => NaN
  | NegInfinity, _ | _, NegInfinity => NegInfinity
  | PosInfinity, c | c, PosInfinity => c
  | Int x, Int y => Int (Z.min x y)
  end.

Definition Math_max (a b : Integral) : Integral :=
  match a, b with
  | NaN, _ | _, NaN => NaN
  | PosInfinity, _ | _, PosInfinity => PosInfinity
  | NegInfinity, c | c, NegInfinity => c
  | Int x, Int y => Int (Z.max x y)
  end.

(** [arr[i]]: [undefined] unless [i] is an index of the array. *)
Definition Array_get {A : Type} (l : list A) (i : Integral) : option A :=
  match i with
  | Int z => if z <? 0 then None else nth_error l (Z.to_nat z)
  | _ => None
  end.

(** The number [n] of an array length, as a double. *)
Definition of_length (n : nat) : float :=
  PrimFloat.of_uint63 (Uint63.of_Z (Z.of_nat n)).

(** [arr.slice(0, end)] for an integer [end]: a negative [end] counts
    from the back of the array. *)
Definition Array_slice0 {A : Type} (l : list A) (end_ : Z) : list A :=
  if end_ <? 0 then firstn (Z.to_nat (Z.max (Z.of_nat (length l) + end_) 0)) l
  else firstn (Z.to_nat end_) l.

(** A [Date] is its time value in milliseconds, or invalid when the
    value is outside the range TimeClip leaves. *)
Inductive Date := InvalidDate | DateOf (ms : Z).

Definition new_Date (ms : Z) : Date :=
  if Z.abs ms <=? 8640000000000000 then DateOf ms else InvalidDate.

(** [s.split(sep)] for a separator of one character: the pieces
    between the separators, at least one. *)
Fixpoint String_split (sep : ascii) (s : string) : list string :=
  match s with
  | EmptyString => [EmptyString]
  | String c rest =>
      if Ascii.eqb c sep then EmptyString :: String_split sep rest
      else match String_split sep rest with
           | piece :: pieces => String c piece :: pieces
           | [] => [String c EmptyString]
           end
  end.

(** [arr.join(sep)] on strings, and [arr.pop()] as an expression. *)
Definition Array_join (sep : string) (l : list string) : string :=
  String.concat sep l.

Definition Array_pop {A : Type} (l : list A) : option A := last l.

(** [s.replace(/^prefix/, '')] for a literal prefix. *)
Fixpoint strip_prefix (prefix s : string) : option string :=
  match prefix, s with
  | EmptyString, _ => Some s
  | String a prefix', String b s' =>
      if Ascii.eqb a b then strip_prefix prefix' s' else None
  | String _ _, EmptyString => None
  end.

Definition String_replace_prefix (prefix s : string) : string :=
  match strip_prefix prefix s with Some rest => rest | None => s end.

(** [name + ': ' + message] of [Error.prototype.toString]. *)
Definition Error_toString (name message : string) : string :=
  if String.eqb message "" then name
  else String.append name (String.append ": " message).

(** [s.indexOf(c)] for a character [c]: [-1] when it does not occur.
    Positions count bytes; up to the first occurrence of an ASCII
    character that cuts a string where the code units do. *)
Fixpoint String_indexOf (c : ascii) (s : string) : Z :=
  match s with
  | EmptyString => -1
  | String a rest =>
      if Ascii.eqb a c then 0
      else let i := String_indexOf c rest in
           if i <? 0 then -1 else i + 1
  end.

(** The values of [new Set(l)] in iteration order: each string once,
    where it occurs first. *)
Fixpoint Set_values_from (seen : gset string) (l : list string) : list string :=
  match l with
  | [] => []
  | x :: rest =>
      if decide (x ∈ seen) then Set_values_from seen rest
      else x :: Set_values_from ({[ x ]} ∪ seen) rest
  end.

Definition Set_values (l : list string) : list string := Set_values_from ∅ l.

End JS.

(** ** node:crypto

    [createHash('sha256')] is FIPS 180-4 SHA-256 over the UTF-8 bytes of
    the input; 32-bit words are integers reduced modulo [2^32]. *)

Module Sha256.
Definition w32 (x : Z) : Z := x mod 2 ^ 32.
Definition add32 (x y : Z) : Z := w32 (x + y).
Definition rotr (n x : Z) : Z := Z.lor (Z.shiftr x n) (w32 (Z.shiftl x (32 - n))).
Definition not32 (x : Z) : Z := Z.lxor x 0xffffffff.

Definition Ch (x y z : Z) := Z.lxor (Z.land x y) (Z.land (not32 x) z).
Definition Maj (x y z : Z) :=
  Z.lxor (Z.lxor (Z.land x y) (Z.land x z)) (Z.land y z).
Definition Sigma0 x := Z.lxor (Z.lxor (rotr 2 x) (rotr 13 x)) (rotr 22 x).
Definition Sigma1 x := Z.lxor (Z.lxor (rotr 6 x) (rotr 11 x)) (rotr 25 x).
Definition sigma0 x := Z.lxor (Z.lxor (rotr 7 x) (rotr 18 x)) (Z.shiftr x 3).
Definition sigma1 x := Z.lxor (Z.lxor (rotr 17 x) (rotr 19 x)) (Z.shiftr x 10).

(** The round constants are the first 32 bits of the fractional parts
    of the cube roots of the first 64 primes, the initial hash value
    those of the square roots of the first 8. *)
Definition is_prime (n : nat) : bool :=
  forallb (fun d => negb (Nat.eqb (n mod d) 0)) (seq 2 (n - 2)).

Definition primes : list Z :=
  map Z.of_nat (List.filter is_prime (seq 2 310)).

Fixpoint cube_root (fuel : nat) (n lo hi : Z) : Z :=
  match fuel with
  | O => lo
  | S fuel' =>
      let mid := (lo + hi + 1) / 2 in
      if mid * mid * mid <=? n then cube_root fuel' n mid hi
      else cube_root fuel' n lo (mid - 1)
  end.

Definition K : list Z :=
  Eval vm_compute in
    map (fun p => w32 (cube_root 48 (p * 2 ^ 96) 0 (2 ^ 36))) primes.

Definition H0 : list Z :=
  Eval vm_compute in
    map (fun p => w32 (Z.sqrt (p * 2 ^ 64))) (firstn 8 primes).

(** Padding: one [0x80] byte, zeros up to 56 mod 64, then the bit
    length as a 64-bit big-endian integer. *)
Definition be_bytes (n : nat) (x : Z) : list Z :=
  map (fun i => Z.shiftr x (8 * Z.of_nat i) mod 256) (rev (seq 0 n)).

Definition pad (msg : list Z) : list Z :=
  let len := Z.of_nat (List.length msg) in
  let zeros := Z.to_nat ((55 - len) mod 64) in
  msg ++ [0x80] ++ repeat 0 zeros ++ be_bytes 8 (8 * len).

Fixpoint words (fuel : nat) (bytes : list Z) : list Z :=
  match fuel, bytes with
  | S fuel', b0 :: b1 :: b2 :: b3 :: rest =>
      (((b0 * 256 + b1) * 256 + b2) * 256 + b3) :: words fuel' rest
  | _, _ => []
  end.

(** The message schedule, most recent word first. *)
Fixpoint schedule (n : nat) (W : list Z) : list Z :=
  match n with
  | O => W
  | S n' =>
      let w := add32 (add32 (sigma1 (nth 1 W 0)) (nth 6 W 0))
                     (add32 (sigma0 (nth 14 W 0)) (nth 15 W 0)) in
      schedule n' (w :: W)
  end.

Definition round (st : list Z) (kw : Z * Z) : list Z :=
  match st with
  | [a; b; c; d; e; f; g; h] =>
      let T1 := add32 (add32 (add32 h (Sigma1 e)) (add32 (Ch e f g) (fst kw)))
                      (snd kw) in
      let T2 := add32 (Sigma0 a) (Maj a b c) in
      [add32 T1 T2; a; b; c; add32 d T1; e; f; g]
  | _ => st
  end.

Definition compress (H : list Z) (block : list Z) : list Z :=
  let W := rev (schedule 48 (rev block)) in
  let st := fold_left round (combine K W) H in
  map (fun p => add32 (fst p) (snd p)) (combine H st).

Fixpoint blocks (fuel : nat) (ws : list Z) (H : list Z) : list Z :=
  match fuel, ws with
  | S fuel', _ :: _ => blocks fuel' (skipn 16 ws) (compress H (firstn 16 ws))
  | _, _ => H
  end.

Definition hex_digit (d : Z) : ascii :=
  nth (Z.to_nat d) (list_ascii_of_string "0123456789abcdef") "0"%char.

Definition hex_byte (b : Z) : list ascii := [hex_digit (b / 16); hex_digit (b mod 16)].

Definition bytes_of_string (s : string) : list Z :=
  map (fun c => Z.of_N (N_of_ascii c)) (list_ascii_of_string s).

Definition digest (msg : list Z) : list Z :=
  let p := pad msg in
  let ws := words (List.length p) p in
  blocks (List.length ws) ws H0.

(** [createHash('sha256').update(s).digest('hex')] *)
Definition sha256_hex (s : string) : string :=
  string_of_list_ascii
    (flat_map hex_byte (flat_map (be_bytes 4) (digest (bytes_of_string s)))).
End Sha256.

(** ** src/core/types.ts *)

Inductive ProviderName := github | sourcegraph.

#[global] Instance ProviderName_eq_dec : EqDecision ProviderName.
Proof. solve_decision. Defined.

Definition ProviderName_string (p : ProviderName) : string :=
  match p with github => "github" | sourcegraph => "sourcegraph" end.

Module SearchResult.
Record t := {
  url : string;
  rawUrl : string;
  repo : string;
  path : string;
  lines : Z * Z;
  snippet : string;
  language : string;
  stars : float;
  provider : ProviderName;
  score : float
}.
End SearchResult.


Inductive FilterValue := FString (s : string) | FBoolean (b : bool).

(** [SearchFilters]: the own keys of the object in insertion order, which
    is the order [Object.entries] and [JSON.stringify] visit them in.  A
    key bound to [None] is present with the value [undefined]. *)
Definition SearchFilters := list (string * option FilterValue).

Module SearchQuery.
Record t := {
  q : string;
  providers : list ProviderName;
  filters : SearchFilters;
  limit : Z;
  cacheTTL : option Z
}.
End SearchQuery.

Inductive ErrorCode := RATE_LIMIT | AUTH | TIMEOUT | UNKNOWN.

Module ProviderError.
Record t := {
  provider : ProviderName;
  message : string;
  code : ErrorCode
}.
End ProviderError.

Module SearchResponse.
Record t := {
  query : SearchQuery.t;
  results : list SearchResult.t;
  total : Z;
  cached : bool;
  elapsed_ms : Z;
  search_elapsed_ms : option Z;
  errors : list ProviderError.t
}.
End SearchResponse.

(** A value of type [unknown], as far as [isProviderError] and
    [String(err)] look at it: either an object, with the three fields it
    may or may not have, or anything else. *)
Inductive Unknown :=
| UObject (provider : option ProviderName) (message : option string)
          (code : option ErrorCode) (str : string)
| UOther (str : string).

Definition String_ (v : Unknown) : string :=
  match v with UObject _ _ _ s => s | UOther s => s end.

Module Types.
Import JS.

(** [filters[k] = v] on an object. *)
Fixpoint obj_set {V : Type} (k : string) (v : V) (o : list (string * V))
  : list (string * V) :=
  match o with
  | [] => [(k, v)]
  | (k', v') :: rest =>
      if String.eqb k k' then (k', v) :: rest
      else (k', v') :: obj_set k v rest
  end.

(** The loop over [Object.entries(query.filters)]. *)
Definition copy_defined (acc : SearchFilters) (kv : string * option FilterValue)
  : SearchFilters :=
  match snd kv with
  | Some v => obj_set (fst kv) (Some v) acc
  | None => acc
  end.

(** The comparator of [sort()] without an argument: by string value. *)
Definition default_after (a b : ProviderName) : bool :=
  String.ltb (ProviderName_string b) (ProviderName_string a).

Definition normalizeQuery (query : SearchQuery.t) : SearchQuery.t :=
  let filters := fold_left copy_defined (SearchQuery.filters query) [] in
  {| SearchQuery.q := SearchQuery.q query;
     SearchQuery.providers := Array_sort default_after (SearchQuery.providers query);
     SearchQuery.filters := filters;
     SearchQuery.limit := SearchQuery.limit query;
     SearchQuery.cacheTTL := SearchQuery.cacheTTL query |}.

Definition isProviderError (value : Unknown) : bool :=
  match value with
  | UObject (Some _) (Some _) (Some _) _ => true
  | _ => false
  end.

(** [o[k]]: [undefined] when the key is absent or bound to it. *)
Fixpoint obj_get {V : Type} (k : string) (o : list (string * option V)) : option V :=
  match o with
  | [] => None
  | (k', v) :: rest => if String.eqb k k' then v else obj_get k rest
  end.

(** A filter value in a condition and in a template literal. *)
Definition truthy (v : option FilterValue) : bool :=
  match v with
  | Some (FString s) => negb (String.eqb s "")
  | Some (FBoolean b) => b
  | None => false
  end.

Definition template (v : option FilterValue) : string :=
  match v with
  | Some (FString s) => s
  | Some (FBoolean true) => "true"
  | Some (FBoolean false) => "false"
  | None => "undefined"
  end.
End Types.

(** ** JSON.stringify on queries *)

Module JSON.
Definition dquote : string := String "034"%char EmptyString.
Definition backslash : string := String "092"%char EmptyString.

Definition hex4 (n : N) : string :=
  String.append "00"
    (String (Sha256.hex_digit (Z.of_N (n / 16)))
       (String (Sha256.hex_digit (Z.of_N (n mod 16))) EmptyString)).

(** QuoteJSONString, on the bytes of the string. *)
Definition escape_char (c : ascii) : string :=
  let n := N_of_ascii c in
  if (n =? 8)%N then String.append backslash "b"
  else if (n =? 9)%N then String.append backslash "t"
  else if (n =? 10)%N then String.append backslash "n"
  else if (n =? 12)%N then String.append backslash "f"
  else if (n =? 13)%N then String.append backslash "r"
  else if (n =? 34)%N then String.append backslash dquote
  else if (n =? 92)%N then String.append backslash backslash
  else if (n <? 32)%N then String.append backslash (String.append "u" (hex4 n))
  else String c EmptyString.

Definition quote (s : string) : string :=
  String.append dquote
    (String.append (String.concat "" (map escape_char (list_ascii_of_string s)))
                   dquote).

Definition number (z : Z) : string := NilZero.string_of_int (Z.to_int z).

Definition filter_value (v : FilterValue) : string :=
  match v with
  | FString s => quote s
  | FBoolean true => "true"
  | FBoolean false => "false"
  end.

(** Members whose value is [undefined] are left out. *)
Definition filter_members (fs : SearchFilters) : list string :=
  flat_map (fun kv => match snd kv with
                      | Some v => [String.append (quote (fst kv))
                                     (String.append ":" (filter_value v))]
                      | None => []
                      end) fs.

Definition object (members : list string) : string :=
  String.append "{" (String.append (String.concat "," members) "}").

Definition array (elements : list string) : string :=
  String.append "[" (String.append (String.concat "," elements) "]").

Definition member (k v : string) : string :=
  String.append (quote k) (String.append ":" v).

(** [JSON.stringify(query)]: the keys in the order a [SearchQuery]
    literal lists them, [cacheTTL] only when it is defined. *)
Definition stringify (query : SearchQuery.t) : string :=
  object
    ([ member "q" (quote (SearchQuery.q query));
       member "providers"
         (array (map (fun p => quote (ProviderName_string p))
                     (SearchQuery.providers query)));
       member "filters" (object (filter_members (SearchQuery.filters query)));
       member "limit" (number (SearchQuery.limit query)) ]
     ++ match SearchQuery.cacheTTL query with
        | Some ttl => [ member "cacheTTL" (number ttl) ]
        | None => []
        end).
End JSON.

(** ** src/core/engine.ts: aggregate *)

Module Aggregate.
Import JS.

(** The [seen] set threaded through [results.filter]. *)
Fixpoint unique_from (seen : gset string) (results : list SearchResult.t)
  : list SearchResult.t :=
  match results with
  | [] => []
  | r :: rest =>
      if decide (SearchResult.url r ∈ seen) then unique_from seen rest
      else r :: unique_from ({[ SearchResult.url r ]} ∪ seen) rest
  end.

Definition unique (results : list SearchResult.t) : list SearchResult.t :=
  unique_from ∅ results.

Section Ranked.
Context `{Host}.

(** [r.score * Math.log(r.stars + 1)] *)
Definition rank (r : SearchResult.t) : float :=
  PrimFloat.mul (SearchResult.score r)
                (Math_log (PrimFloat.add (SearchResult.stars r) 1%float)).

(** [{ ...r, _rank }] *)
Definition with_rank (r : SearchResult.t) : SearchResult.t * float :=
  (r, rank r).

(** The comparator [(a, b) => b._rank - a._rank] is positive. *)
Definition rank_after (a b : SearchResult.t * float) : bool :=
  is_pos (PrimFloat.sub (snd b) (snd a)).

Definition ranked (results : list SearchResult.t)
  : list (SearchResult.t * float) :=
  Array_sort rank_after (map with_rank (unique results)).

Definition aggregate (results : list SearchResult.t) (limit : Z)
  : list SearchResult.t :=
  map fst (Array_slice0 (ranked results) limit).
End Ranked.
End Aggregate.

(** ** Promises, the clock and the two SQLite tables

    An [async] function is a state transformer over the [World] that
    settles: it is fulfilled with a value or rejected with a reason. *)

Inductive Settled (A : Type) :=
| fulfilled (value : A)
| rejected (reason : Unknown).
Arguments fulfilled {A} value.
Arguments rejected {A} reason.

Module CacheRow.
(** The [value] column holds [JSON.stringify] of the response and is
    read back with [JSON.parse]; the row keeps the response itself. *)
Record t := {
  value : SearchResponse.t;
  created_at : Z;
  expires_at : Z
}.
End CacheRow.

Module MetricRow.
Record t := {
  ts : Z;
  provider : ProviderName;
  query : option string;
  cache_hit : Z;
  results : option Z;
  elapsed_ms : option Z;
  error : option string
}.
End MetricRow.

Module World.
Record t := {
  (** [clock n] is what the [n]-th call of [Date.now()] returns;
      [ticks] counts the calls made so far. *)
  clock : nat -> Z;
  ticks : nat;
  (** The [cache] table by primary key, the [metrics] table in
      insertion order. *)
  cache : gmap string CacheRow.t;
  metrics : list MetricRow.t;
  (** [faults n]: the SQL statement run right after the [n]-th clock
      reading throws (database closed, disk error, ...). *)
  faults : nat -> bool;
  (** The provider adapters invoked so far. *)
  calls : list (ProviderName * SearchQuery.t)
}.

Definition tick (w : t) : t :=
  {| clock := clock w; ticks := S (ticks w); cache := cache w;
     metrics := metrics w; faults := faults w; calls := calls w |}.

Definition set_cache (c : gmap string CacheRow.t) (w : t) : t :=
  {| clock := clock w; ticks := ticks w; cache := c;
     metrics := metrics w; faults := faults w; calls := calls w |}.

Definition set_metrics (m : list MetricRow.t) (w : t) : t :=
  {| clock := clock w; ticks := ticks w; cache := cache w;
     metrics := m; faults := faults w; calls := calls w |}.

Definition set_calls (c : list (ProviderName * SearchQuery.t)) (w : t) : t :=
  {| clock := clock w; ticks := ticks w; cache := cache w;
     metrics := metrics w; faults := faults w; calls := c |}.
End World.

Module Async.
Definition M (A : Type) : Type := World.t -> Settled A * World.t.

Definition ret {A} (a : A) : M A := fun w => (fulfilled a, w).
Definition throw {A} (e : Unknown) : M A := fun w => (rejected e, w).

(** [await] of a promise that rejects leaves the function. *)
Definition bind {A B} (c : M A) (k : A -> M B) : M B :=
  fun w => match c w with
           | (fulfilled a, w') => k a w'
           | (rejected e, w') => (rejected e, w')
           end.

(** [promise.catch(handler)] *)
Definition catch {A} (c : M A) (handler : Unknown -> M A) : M A :=
  fun w => match c w with
           | (fulfilled a, w') => (fulfilled a, w')
           | (rejected e, w') => handler e w'
           end.

(** [Date.now()] *)
Definition Date_now : M Z :=
  fun w => (fulfilled (World.clock w (World.ticks w)), World.tick w).

(** [Math.floor(Date.now() / 1000)] *)
Definition now_seconds : M Z :=
  fun w => (fulfilled (World.clock w (World.ticks w) / 1000), World.tick w).

(** A statement on the database: it throws when the world says so. *)
Definition SqliteError : Unknown :=
  UObject None (Some "SqliteError") None "SqliteError".

Definition statement {A} (n : nat) (run : World.t -> A * World.t) : M A :=
  fun w => if World.faults w n then (rejected SqliteError, w)
           else let (a, w') := run w in (fulfilled a, w').
End Async.

(** [let* x := c in k] reads [const x = await c; k]. *)
Notation "'let*' x ':=' c 'in' k" := (Async.bind c (fun x => k))
  (at level 10, x name, c at level 100, k at level 200).

(** ** src/cache/sqlite.ts *)

Module CacheStats.
Record t := {
  entries : Z;
  sizeBytes : Z;
  oldestEntry : option JS.Date
}.
End CacheStats.

(** What SQLite decides and the program does not: which keys a [LIKE]
    pattern matches, and the number and size of the pages of the
    database file. *)
Class Sqlite := {
  like : string -> string -> bool;
  page_count : World.t -> Z;
  page_size : World.t -> Z
}.

Module SqliteCacheRepository.
Import Async.

(** [SELECT value FROM cache WHERE key = ? AND expires_at > ?] *)
Definition select (key : string) (now : Z) (w : World.t)
  : option SearchResponse.t :=
  match World.cache w !! key with
  | Some row => if CacheRow.expires_at row >? now
                then Some (CacheRow.value row) else None
  | None => None
  end.

Definition get (key : string) : M (option SearchResponse.t) :=
  fun w => (let* now := now_seconds in
            statement (World.ticks w) (fun w' => (select key now w', w'))) w.

(** [INSERT OR REPLACE INTO cache ...] *)
Definition set (key : string) (value : SearchResponse.t) (ttlSec : Z) : M unit :=
  fun w => (let* now := now_seconds in
            statement (World.ticks w)
              (fun w' => (tt, World.set_cache
                                (<[ key := {| CacheRow.value := value;
                                              CacheRow.created_at := now;
                                              CacheRow.expires_at := now + ttlSec |} ]>
                                   (World.cache w')) w'))) w.

(** [DELETE FROM cache WHERE ...]: the rows the condition holds for
    go, [changes] is their number. *)
Definition delete_where (condition : string -> bool) (w : World.t) : Z * World.t :=
  (Z.of_nat (size (filter (fun kv => condition (fst kv) = true) (World.cache w))),
   World.set_cache (filter (fun kv => condition (fst kv) = false) (World.cache w)) w).

(** [clear(pattern?)]: an absent pattern and the empty pattern are
    both falsy and delete every row. *)
Definition clear `{Sqlite} (pattern : option string) : M Z :=
  fun w => statement (World.ticks w)
             (match pattern with
              | Some p => if String.eqb p "" then delete_where (fun _ => true)
                          else delete_where (fun key => like key p)
              | None => delete_where (fun _ => true)
              end) w.

(** The rows [WHERE expires_at > ?] keeps. *)
Definition live (now : Z) (w : World.t) : list CacheRow.t :=
  List.filter (fun row => CacheRow.expires_at row >? now)
              (map snd (map_to_list (World.cache w))).

(** [MIN(...)]: [NULL] over no rows. *)
Definition minimum (l : list Z) : option Z :=
  match l with
  | [] => None
  | x :: rest => Some (fold_left Z.min rest x)
  end.

Definition stats `{Sqlite} : M CacheStats.t :=
  fun w => (let* now := now_seconds in
            let* row := statement (World.ticks w)
                          (fun w' => ((Z.of_nat (List.length (live now w')),
                                       minimum (map CacheRow.created_at (live now w'))),
                                      w')) in
            let* size := statement (S (World.ticks w))
                           (fun w' => (page_count w' * page_size w', w')) in
            ret {| CacheStats.entries := fst row;
                   CacheStats.sizeBytes := size;
                   CacheStats.oldestEntry :=
                     match snd row with
                     | Some oldest => Some (JS.new_Date (oldest * 1000))
                     | None => None
                     end |}) w.
End SqliteCacheRepository.

(** ** src/core/metrics.ts *)

Module MetricRecord.
Record t := {
  provider : ProviderName;
  query : option string;
  cacheHit : bool;
  results : option Z;
  elapsedMs : option Z;
  error : option string
}.
End MetricRecord.

Module SqliteMetrics.
Import Async.

Definition record (m : MetricRecord.t) : M unit :=
  fun w => (let* now := now_seconds in
            statement (World.ticks w)
              (fun w' => (tt, World.set_metrics
                                (World.metrics w' ++
                                 [ {| MetricRow.ts := now;
                                      MetricRow.provider := MetricRecord.provider m;
                                      MetricRow.query := MetricRecord.query m;
                                      MetricRow.cache_hit :=
                                        if MetricRecord.cacheHit m then 1 else 0;
                                      MetricRow.results := MetricRecord.results m;
                                      MetricRow.elapsed_ms := MetricRecord.elapsedMs m;
                                      MetricRow.error := MetricRecord.error m |} ])
                                w'))) w.
End SqliteMetrics.

Module ProviderStats.
Record t := {
  provider : ProviderName;
  requests : Z;
  errors : Z;
  p50 : Z;
  p95 : Z;
  p99 : Z;
  cacheHitRate : float
}.
End ProviderStats.

Module Metrics.
Import JS.

Definition percentile (sorted : list Z) (p : float) : Z :=
  if (List.length sorted =? 0)%nat then 0
  else
    let idx := minus (Math_ceil (PrimFloat.mul (of_length (List.length sorted)) p)) 1 in
    let last := Int (Z.of_nat (List.length sorted) - 1) in
    match Array_get sorted (Math_max (Int 0) (Math_min idx last)) with
    | Some v => v
    | None => 0
    end.

(** The three probabilities [stats] asks for, as the doubles the
    literals [0.5], [0.95] and [0.99] denote. *)
Definition P50 : float := 0x1p-1%float.
Definition P95 : float := 0x1.e666666666666p-1%float.
Definition P99 : float := 0x1.fae147ae147aep-1%float.

(** The comparator [(a, b) => a - b] is positive. *)
Definition numeric_after (a b : Z) : bool := 0 <? a - b.

(** The rows of one [GROUP BY provider] group, [ts >= since]. *)
Definition group (since : Z) (provider : ProviderName)
           (rows : list MetricRow.t) : list MetricRow.t :=
  List.filter (fun r => (since <=? MetricRow.ts r) &&
                        bool_decide (MetricRow.provider r = provider)) rows.

(** [GROUP_CONCAT(elapsed_ms)] skips the rows where it is [NULL]. *)
Definition latencies (rows : list MetricRow.t) : list Z :=
  flat_map (fun r => match MetricRow.elapsed_ms r with
                     | Some ms => [ms] | None => [] end) rows.

Definition sum (l : list Z) : Z := fold_right Z.add 0 l.

(** One element of the array [stats] returns: [None] when the
    provider has no row in the window, so no group. *)
Definition provider_stats (since : Z) (provider : ProviderName)
           (rows : list MetricRow.t) : option ProviderStats.t :=
  match group since provider rows with
  | [] => None
  | g =>
      let requests := Z.of_nat (List.length g) in
      let hits := sum (map MetricRow.cache_hit g) in
      let lats := Array_sort numeric_after (latencies g) in
      Some {| ProviderStats.provider := provider;
              ProviderStats.requests := requests;
              ProviderStats.errors :=
                sum (map (fun r => match MetricRow.error r with
                                   | Some _ => 1 | None => 0 end) g);
              ProviderStats.p50 := percentile lats P50;
              ProviderStats.p95 := percentile lats P95;
              ProviderStats.p99 := percentile lats P99;
              ProviderStats.cacheHitRate :=
                if 0 <? requests
                then PrimFloat.div (PrimFloat.of_uint63 (Uint63.of_Z hits))
                                   (PrimFloat.of_uint63 (Uint63.of_Z requests))
                else 0%float |}
  end.

(** [stats(sinceSec = 86400)]: one element per provider that has a row
    in the window.  [GROUP BY provider] hands the groups over in the
    order of the provider names. *)
Definition stats (sinceSec : option Z) : Async.M (list ProviderStats.t) :=
  fun w => (let* now := Async.now_seconds in
            let since := now - match sinceSec with Some s => s | None => 86400 end in
            Async.statement (World.ticks w)
              (fun w' => (flat_map (fun provider =>
                                      match provider_stats since provider (World.metrics w') with
                                      | Some st => [st]
                                      | None => []
                                      end) [github; sourcegraph],
                          w'))) w.
End Metrics.

(** ** src/providers/base.ts and src/core/engine.ts *)

Module Provider.
(** An adapter: its [name] and what the promise returned by
    [search(query)] settles to.  The second argument of [search] is the
    number of adapter invocations made before this one, so an adapter
    need not answer twice alike. *)
Record t := {
  name : ProviderName;
  search : SearchQuery.t -> nat -> Settled (list SearchResult.t)
}.
End Provider.

Module SearchEngine.
Record t := {
  providers : ProviderName -> option Provider.t;
  defaultTTL : Z
}.
End SearchEngine.

Module Engine.
Import JS Async.
Export Aggregate.

(** [hashQuery] *)
Definition hashQuery (query : SearchQuery.t) : string :=
  Sha256.sha256_hex (JSON.stringify query).

(** [p.search(normalized)]: the call is made, the promise is kept for
    [Promise.allSettled]. *)
Definition invoke (normalized : SearchQuery.t) (p : Provider.t)
  : M (Settled (list SearchResult.t)) :=
  fun w =>
    (fulfilled (Provider.search p normalized (List.length (World.calls w))),
     World.set_calls (World.calls w ++ [(Provider.name p, normalized)]) w).

(** [Promise.allSettled(activeProviders.map(...))] never rejects. *)
Fixpoint allSettled (normalized : SearchQuery.t) (ps : list Provider.t)
  : M (list (Settled (list SearchResult.t))) :=
  match ps with
  | [] => ret []
  | p :: rest =>
      let* s := invoke normalized p in
      let* ss := allSettled normalized rest in
      ret (s :: ss)
  end.

(** The branch [isProviderError(err) ? err : { ..., code: 'UNKNOWN' }]. *)
Definition toProviderError (provider : Provider.t) (err : Unknown)
  : ProviderError.t :=
  match err with
  | UObject (Some p) (Some m) (Some c) _ =>
      {| ProviderError.provider := p;
         ProviderError.message := m;
         ProviderError.code := c |}
  | _ =>
      {| ProviderError.provider := Provider.name provider;
         ProviderError.message := String_ err;
         ProviderError.code := UNKNOWN |}
  end.

Definition swallow : Unknown -> M unit := fun _ => ret tt.

(** The loop over [settlements], one iteration per active provider. *)
Fixpoint collect (q : string) (t0 : Z)
         (settlements : list (Settled (list SearchResult.t) * Provider.t))
         (results : list SearchResult.t) (errors : list ProviderError.t)
  : M (list SearchResult.t * list ProviderError.t) :=
  match settlements with
  | [] => ret (results, errors)
  | (s, provider) :: rest =>
      let* now := Date_now in
      let elapsed := now - t0 in
      match s with
      | fulfilled value =>
          let* _ := catch
            (SqliteMetrics.record
               {| MetricRecord.provider := Provider.name provider;
                  MetricRecord.query := Some q;
                  MetricRecord.cacheHit := false;
                  MetricRecord.results := Some (Z.of_nat (List.length value));
                  MetricRecord.elapsedMs := Some elapsed;
                  MetricRecord.error := None |}) swallow in
          collect q t0 rest (results ++ value) errors
      | rejected err =>
          let provErr := toProviderError provider err in
          let* _ := catch
            (SqliteMetrics.record
               {| MetricRecord.provider := Provider.name provider;
                  MetricRecord.query := Some q;
                  MetricRecord.cacheHit := false;
                  MetricRecord.results := None;
                  MetricRecord.elapsedMs := None;
                  MetricRecord.error := Some (ProviderError.message provErr) |})
            swallow in
          collect q t0 rest results (errors ++ [provErr])
      end
  end.

Section Search.
Context `{Host}.
Variable this : SearchEngine.t.

(** [normalized.providers.map(...).filter(p => p !== undefined)] *)
Definition activeProviders (normalized : SearchQuery.t) : list Provider.t :=
  flat_map (fun name => match SearchEngine.providers this name with
                        | Some p => [p] | None => [] end)
           (SearchQuery.providers normalized).

Definition search (query : SearchQuery.t) : M SearchResponse.t :=
  let normalized := Types.normalizeQuery query in
  let key := hashQuery normalized in
  let* t0 := Date_now in
  let* cached := catch (SqliteCacheRepository.get key) (fun _ => ret None) in
  match cached with
  | Some cached =>
      let* _ :=
        match SearchQuery.providers normalized with
        | firstProvider :: _ =>
            catch
              (SqliteMetrics.record
                 {| MetricRecord.provider := firstProvider;
                    MetricRecord.query := Some (SearchQuery.q normalized);
                    MetricRecord.cacheHit := true;
                    MetricRecord.results :=
                      Some (Z.of_nat (List.length (SearchResponse.results cached)));
                    MetricRecord.elapsedMs := Some 0;
                    MetricRecord.error := None |}) swallow
        | [] => ret tt
        end in
      let* now := Date_now in
      ret {| SearchResponse.query := SearchResponse.query cached;
             SearchResponse.results := SearchResponse.results cached;
             SearchResponse.total := SearchResponse.total cached;
             SearchResponse.cached := true;
             SearchResponse.elapsed_ms := now - t0;
             SearchResponse.search_elapsed_ms :=
               Some (SearchResponse.elapsed_ms cached);
             SearchResponse.errors := SearchResponse.errors cached |}
  | None =>
      let active := activeProviders normalized in
      let* settlements := allSettled normalized active in
      let* collected :=
        collect (SearchQuery.q normalized) t0 (combine settlements active) [] [] in
      let merged := aggregate (fst collected) (SearchQuery.limit normalized) in
      let* now := Date_now in
      let response :=
        {| SearchResponse.query := normalized;
           SearchResponse.results := merged;
           SearchResponse.total := Z.of_nat (List.length merged);
           SearchResponse.cached := false;
           SearchResponse.elapsed_ms := now - t0;
           SearchResponse.search_elapsed_ms := None;
           SearchResponse.errors := snd collected |} in
      let* _ :=
        catch (SqliteCacheRepository.set key response
                 (match SearchQuery.cacheTTL query with
                  | Some ttl => ttl
                  | None => SearchEngine.defaultTTL this
                  end)) swallow in
      ret response
  end.
End Search.
End Engine.

(** ** src/providers/github.ts and src/providers/sourcegraph.ts

    What a [catch] clause of an adapter receives, as far as
    [toProviderError] looks at it: whether it is [null] or [undefined],
    whether it is an object and which own fields it has, whether it is a
    number and which, and what [String(err)] gives. *)

Inductive Value :=
| VUndefined
| VNull
| VNumber (x : float) (str : string)
| VObject (fields : list (string * Value)) (str : string)
| VOther (str : string).

Module Value.
Definition String_ (v : Value) : string :=
  match v with
  | VUndefined => "undefined"
  | VNull => "null"
  | VNumber _ s => s
  | VObject _ s => s
  | VOther s => s
  end.

(** [obj[k]] and [k in obj] on the fields of an object. *)
Fixpoint get (k : string) (fields : list (string * Value)) : Value :=
  match fields with
  | [] => VUndefined
  | (k', v) :: rest => if String.eqb k k' then v else get k rest
  end.

Fixpoint has (k : string) (fields : list (string * Value)) : bool :=
  match fields with
  | [] => false
  | (k', _) :: rest => String.eqb k k' || has k rest
  end.

(** [v === n] for a number literal [n]. *)
Definition is_number (n : float) (v : Value) : bool :=
  match v with VNumber x _ => PrimFloat.eqb x n | _ => false end.
End Value.

(** [Object.assign(new Error(message), { code, provider })] *)
Definition provider_error (provider : ProviderName) (code : ErrorCode) (message : string)
  : Unknown :=
  UObject (Some provider) (Some message) (Some code) (JS.Error_toString "Error" message).

(** [parts.push(`prefix${v}suffix`)] under [if (v)]. *)
Definition qualifier (prefix : string) (v : option FilterValue) (suffix : string)
  : list string :=
  if Types.truthy v
  then [String.append prefix (String.append (Types.template v) suffix)]
  else [].

Module GitHub.
Import Types.

Definition buildQuery (query : SearchQuery.t) : string :=
  let f := SearchQuery.filters query in
  JS.Array_join " "
    ([SearchQuery.q query]
       ++ qualifier "language:" (obj_get "language" f) ""
       ++ qualifier "repo:" (obj_get "repo" f) ""
       ++ qualifier "org:" (obj_get "org" f) ""
       ++ qualifier "path:" (obj_get "path" f) ""
       ++ qualifier "filename:" (obj_get "filename" f) ""
       ++ qualifier "extension:" (obj_get "extension" f) "").

Definition toProviderError (err : Value) : Unknown :=
  let unknown := provider_error github UNKNOWN (Value.String_ err) in
  match err with
  | VObject obj _ =>
      match Value.get "response" obj with
      | VObject response _ =>
          let status := Value.get "statusCode" response in
          if Value.is_number 401 status || Value.is_number 403 status
          then provider_error github AUTH "Auth failed"
          else if Value.is_number 429 status
          then provider_error github RATE_LIMIT "Rate limited"
          else unknown
      | _ => unknown
      end
  | _ => unknown
  end.

Record TextMatch := {
  fragment : string;
  matches : list (Z * Z)
}.

Record CodeItem := {
  name : string;
  path : string;
  html_url : string;
  repository_full_name : string;
  text_matches : option (list TextMatch)
}.

(** The request [search] makes, and what the [try] block comes to up
    to the star counts: something thrown, by the request or by reading
    a body of another shape, or the items of the body. *)
Record Request := {
  q : string;
  per_page : Z;
  authorization : string
}.

Inductive Outcome :=
| Threw (err : Value)
| Responded (items : list CodeItem).

Section Adapter.
(** [s.slice(0, -1)]: [s] without its last code unit (of an ASCII
    string, without its last byte). *)
Variable String_slice_0_minus_1 : string -> string.

Definition normalize (item : CodeItem) (starMap : gmap string float) : SearchResult.t :=
  let firstMatch := match text_matches item with
                    | Some (m :: _) => Some m
                    | _ => None
                    end in
  let fragment := match firstMatch with Some m => fragment m | None => "" end in
  let hasMatch := match firstMatch with
                  | Some m => 0 <? Z.of_nat (List.length (matches m))
                  | None => false
                  end in
  let lineCount :=
    Z.of_nat (List.length (JS.String_split "010"%char fragment)) in
  let full_name := repository_full_name item in
  let slash := JS.String_indexOf "/" full_name in
  let owner := if slash <? 0 then String_slice_0_minus_1 full_name
               else substring 0 (Z.to_nat slash) full_name in
  let repoName :=
    substring (Z.to_nat (slash + 1))
              (String.length full_name - Z.to_nat (slash + 1)) full_name in
  let rawUrl :=
    String.append "https://raw.githubusercontent.com/"
      (String.append owner
         (String.append "/" (String.append repoName
            (String.append "/HEAD/" (path item))))) in
  {| SearchResult.url := html_url item;
     SearchResult.rawUrl := rawUrl;
     SearchResult.repo := full_name;
     SearchResult.path := path item;
     SearchResult.lines := (1, Z.max 1 lineCount);
     SearchResult.snippet := if String.eqb fragment "" then name item else fragment;
     SearchResult.language :=
       match JS.Array_pop (JS.String_split "." (path item)) with
       | Some ext => ext
       | None => "unknown"
       end;
     SearchResult.stars :=
       match starMap !! full_name with Some stars => stars | None => 0%float end;
     SearchResult.provider := github;
     SearchResult.score := if hasMatch then 1%float else 0x1p-1%float |}.

Variable token : string.
(** [get_code request n]: the outcome of the code search of the
    [n]-th adapter invocation; [get_stars repo n]: the star count the
    request for [repo] of that invocation brings, if it succeeds. *)
Variable get_code : Request -> nat -> Outcome.
Variable get_stars : string -> nat -> option float.

(** [fetchStarCounts]: the repositories whose request failed are left
    out of the map. *)
Definition fetchStarCounts (n : nat) (repos : list string) : gmap string float :=
  fold_left (fun starMap repo =>
               match get_stars repo n with
               | Some stars => <[ repo := stars ]> starMap
               | None => starMap
               end) repos ∅.

Definition search (query : SearchQuery.t) (n : nat) : Settled (list SearchResult.t) :=
  match get_code {| q := buildQuery query;
                    per_page := Z.min (SearchQuery.limit query) 100;
                    authorization := String.append "Bearer " token |} n with
  | Responded items =>
      let repoNames := JS.Set_values (map repository_full_name items) in
      let starMap := fetchStarCounts n repoNames in
      fulfilled (map (fun item => normalize item starMap) items)
  | Threw err => rejected (toProviderError err)
  end.

Definition GitHubProvider : Provider.t :=
  {| Provider.name := github; Provider.search := search |}.
End Adapter.
End GitHub.

Module Sourcegraph.
Import Types.

Record LineMatch := {
  lineNumber : Z;
  preview : string
}.

Record FileMatch := {
  repository_name : string;
  repository_stars : float;
  file_path : string;
  file_url : string;
  file_canonicalURL : string;
  lineMatches : list LineMatch
}.

(** An element of [results.results]: a file match with the fields the
    GraphQL fragment selects, or a result of another type. *)
Inductive Result :=
| IsFileMatch (r : FileMatch)
| NotFileMatch (typename : string).

Definition buildQuery (query : SearchQuery.t) : string :=
  let f := SearchQuery.filters query in
  JS.Array_join " "
    ([SearchQuery.q query]
       ++ qualifier "lang:" (obj_get "language" f) ""
       ++ qualifier "repo:" (obj_get "repo" f) ""
       ++ qualifier "repo:" (obj_get "org" f) "/"
       ++ qualifier "file:" (obj_get "path" f) ""
       ++ qualifier "file:" (obj_get "filename" f) "").

(** The score every Sourcegraph result gets: the double of [0.8]. *)
Definition score : float := 0x1.999999999999ap-1%float.

Definition normalize (r : FileMatch) (baseUrl : string) : SearchResult.t :=
  let firstMatch := head (lineMatches r) in
  let lastMatch := match last (lineMatches r) with
                   | Some m => Some m
                   | None => firstMatch
                   end in
  let snippet := JS.Array_join (String "010"%char EmptyString)
                               (map preview (lineMatches r)) in
  let repo := JS.String_replace_prefix "github.com/" (repository_name r) in
  let rawUrl := String.append "https://raw.githubusercontent.com/"
                  (String.append repo (String.append "/HEAD/" (file_path r))) in
  {| SearchResult.url := String.append baseUrl (file_canonicalURL r);
     SearchResult.rawUrl := rawUrl;
     SearchResult.repo := repo;
     SearchResult.path := file_path r;
     SearchResult.lines :=
       (match firstMatch with Some m => lineNumber m | None => 1 end,
        match lastMatch with Some m => lineNumber m | None => 1 end);
     SearchResult.snippet := snippet;
     SearchResult.language :=
       match JS.Array_pop (JS.String_split "." (file_path r)) with
       | Some ext => ext
       | None => "unknown"
       end;
     SearchResult.stars := repository_stars r;
     SearchResult.provider := sourcegraph;
     SearchResult.score := score |}.

Section Adapter.
(** The message of the [TypeError] the runtime throws when a property
    is read off [null] or [undefined]. *)
Variable TypeError_message : Value -> string -> string.

Definition TypeError (target : Value) (property : string) : Unknown :=
  UObject None (Some (TypeError_message target property)) None
          (JS.Error_toString "TypeError" (TypeError_message target property)).

(** [toProviderError] returns an error to throw, or throws itself:
    [err.response.statusCode] is read whenever [err] has a field
    [response], whatever that field holds. *)
Definition toProviderError (err : Value) : Settled Unknown :=
  let unknown := fulfilled (provider_error sourcegraph UNKNOWN (Value.String_ err)) in
  match err with
  | VObject obj _ =>
      if Value.has "response" obj then
        match Value.get "response" obj with
        | VUndefined => rejected (TypeError VUndefined "statusCode")
        | VNull => rejected (TypeError VNull "statusCode")
        | response =>
            let status := match response with
                          | VObject fields _ => Value.get "statusCode" fields
                          | _ => VUndefined
                          end in
            if Value.is_number 401 status || Value.is_number 403 status
            then fulfilled (provider_error sourcegraph AUTH "Auth failed")
            else if Value.is_number 429 status
            then fulfilled (provider_error sourcegraph RATE_LIMIT "Rate limited")
            else unknown
        end
      else unknown
  | _ => unknown
  end.

(** The request [search] posts, and what the [try] block around the
    request comes to: something thrown, or the results of the body. *)
Record Request := {
  url : string;
  authorization : option string;
  query : string;
  patternType : string
}.

Inductive Outcome :=
| Threw (err : Value)
| Responded (results : list Result).

Variable baseUrl : string.
Variable token : option string.
(** [post request n]: the outcome of the [n]-th adapter invocation. *)
Variable post : Request -> nat -> Outcome.

Definition file_matches (results : list Result) : list FileMatch :=
  flat_map (fun r => match r with IsFileMatch m => [m] | NotFileMatch _ => [] end) results.

Definition search (query : SearchQuery.t) (n : nat) : Settled (list SearchResult.t) :=
  let sgQuery := buildQuery query in
  let patternType :=
    if truthy (obj_get "regex" (SearchQuery.filters query)) then "regexp" else "literal" in
  let authorization :=
    match token with
    | Some t => if String.eqb t "" then None else Some (String.append "token " t)
    | None => None
    end in
  match post {| url := String.append baseUrl "/.api/graphql";
                authorization := authorization;
                query := sgQuery;
                patternType := patternType |} n with
  | Responded results =>
      fulfilled (map (fun r => normalize r baseUrl)
                     (JS.Array_slice0 (file_matches results) (SearchQuery.limit query)))
  | Threw err =>
      match toProviderError err with
      | fulfilled e => rejected e
      | rejected e => rejected e
      end
  end.

Definition SourcegraphProvider : Provider.t :=
  {| Provider.name := sourcegraph; Provider.search := search |}.
End Adapter.
End Sourcegraph.

(** ** src/core/config.ts and src/core/engine-factory.ts *)

Module Config.
Record t := {
  githubToken : option string;
  sourcegraphToken : option string;
  sourcegraphUrl : string;
  cachePath : string;
  defaultCacheTTL : Z;
  defaultLimit : Z;
  logLevel : string;
  logFile : option string;
  otelEndpoint : option string
}.
End Config.

Module EngineFactory.
Section Build.
(** The runtime, and what the requests of the two adapters come to. *)
Variable TypeError_message : Value -> string -> string.
Variable String_slice_0_minus_1 : string -> string.
Variable get_code : GitHub.Request -> nat -> GitHub.Outcome.
Variable get_stars : string -> nat -> option float.
Variable post : Sourcegraph.Request -> nat -> Sourcegraph.Outcome.

(** [buildEngine], on the configuration [loadConfig] returns. *)
Definition buildEngine (cfg : Config.t) : SearchEngine.t :=
  {| SearchEngine.providers := fun name =>
       match name with
       | github =>
           match Config.githubToken cfg with
           | Some t => if String.eqb t "" then None
                       else Some (GitHub.GitHubProvider String_slice_0_minus_1 t
                                    get_code get_stars)
           | None => None
           end
       | sourcegraph =>
           Some (Sourcegraph.SourcegraphProvider TypeError_message
                   (Config.sourcegraphUrl cfg) (Config.sourcegraphToken cfg) post)
       end;
     SearchEngine.defaultTTL := Config.defaultCacheTTL cfg |}.
End Build.
End EngineFactory.

(** * Properties

    ** Doubles: rounding never changes a sign

    [SpecFloat] specifies the primitive operations on the binary
    representation.  What the comparators of the sources need from it
    is that the sign of [x - y] is the order of [x] and [y], and that a
    product of two numbers is a number. *)

Module FloatFacts.

Definition emin64 : Z := SpecFloat.emin prec emax.
Definition fexp64 : Z -> Z := SpecFloat.fexp prec emax.

Lemma digits2_pos_bounds (m : positive) :
  2 ^ (Z.pos (digits2_pos m) - 1) <= Z.pos m < 2 ^ Z.pos (digits2_pos m).
Proof.
  induction m as [m IH | m IH | ]; simpl digits2_pos.
  - rewrite Pos2Z.inj_succ.
    replace (Z.succ (Z.pos (digits2_pos m)) - 1) with (Z.succ (Z.pos (digits2_pos m) - 1)) by lia.
    rewrite !Z.pow_succ_r by lia. lia.
  - rewrite Pos2Z.inj_succ.
    replace (Z.succ (Z.pos (digits2_pos m)) - 1) with (Z.succ (Z.pos (digits2_pos m) - 1)) by lia.
    rewrite !Z.pow_succ_r by lia. lia.
  - simpl. lia.
Qed.

Lemma shr_1_m (r : shr_record) :
  0 <= shr_m r -> shr_m (shr_1 r) = shr_m r / 2.
Proof.
  destruct r as [m r s]; simpl. intros Hm.
  destruct m as [ | p | p ]; try lia.
  - reflexivity.
  - destruct p as [p | p | ]; simpl.
    + rewrite Pos2Z.inj_xI. apply Z.div_unique with 1; lia.
    + rewrite Pos2Z.inj_xO. apply Z.div_unique with 0; lia.
    + reflexivity.
Qed.

Lemma iter_shr_1_m (p : positive) : forall r : shr_record,
  0 <= shr_m r -> shr_m (SpecFloat.iter_pos shr_1 p r) = shr_m r / 2 ^ Z.pos p.
Proof.
  assert (Hnn : forall r, 0 <= shr_m r -> 0 <= shr_m (shr_1 r)).
  { intros r Hr. rewrite shr_1_m by assumption. apply Z.div_pos; lia. }
  induction p as [p IH | p IH | ]; intros r Hr; simpl SpecFloat.iter_pos.
  - assert (H1 := Hnn r Hr).
    assert (H2 : 0 <= shr_m (SpecFloat.iter_pos shr_1 p (shr_1 r))).
    { rewrite IH by assumption. apply Z.div_pos; [assumption | apply Z.pow_pos_nonneg; lia]. }
    rewrite IH, IH, shr_1_m by assumption.
    rewrite !Z.div_div by (try apply Z.pow_pos_nonneg; lia).
    f_equal. change (Z.pos p~1) with (2 * Z.pos p + 1).
    replace (2 * Z.pos p + 1) with (1 + Z.pos p + Z.pos p) by lia.
    rewrite !Z.pow_add_r by lia. rewrite Z.pow_1_r. lia.
  - assert (H2 : 0 <= shr_m (SpecFloat.iter_pos shr_1 p r)).
    { rewrite IH by assumption. apply Z.div_pos; [assumption | apply Z.pow_pos_nonneg; lia]. }
    rewrite IH, IH by assumption.
    rewrite !Z.div_div by (try apply Z.pow_pos_nonneg; lia).
    f_equal. change (Z.pos p~0) with (2 * Z.pos p).
    replace (2 * Z.pos p) with (Z.pos p + Z.pos p) by lia.
    rewrite Z.pow_add_r by lia. reflexivity.
  - rewrite shr_1_m by assumption. reflexivity.
Qed.

Lemma shr_record_of_loc_m m l : shr_m (shr_record_of_loc m l) = m.
Proof. destruct l as [ | [ | | ]]; reflexivity. Qed.

(** Shifting keeps a mantissa non-negative... *)
Lemma shr_fexp_nonneg m e l :
  0 <= m -> 0 <= shr_m (fst (shr_fexp prec emax m e l)).
Proof.
  intros Hm. unfold shr_fexp, shr.
  destruct (fexp prec emax (Zdigits2 m + e) - e) as [ | p | p ]; simpl;
    rewrite ?shr_record_of_loc_m; try assumption.
  rewrite iter_shr_1_m by (rewrite shr_record_of_loc_m; assumption).
  rewrite shr_record_of_loc_m. apply Z.div_pos; [assumption | apply Z.pow_pos_nonneg; lia].
Qed.

(** ... and, above the smallest exponent, positive. *)
Lemma shr_fexp_pos m e l :
  0 < m -> emin64 <= e ->
  0 < shr_m (fst (shr_fexp prec emax m e l)) /\ e <= snd (shr_fexp prec emax m e l).
Proof.
  intros Hm He. unfold shr_fexp, shr.
  destruct (fexp prec emax (Zdigits2 m + e) - e) as [ | p | p ] eqn:Hn; simpl;
    rewrite ?shr_record_of_loc_m; try (split; lia).
  rewrite iter_shr_1_m by (rewrite shr_record_of_loc_m; lia).
  rewrite shr_record_of_loc_m. split; [ | lia].
  destruct m as [ | m | m ]; try lia. simpl Zdigits2 in Hn.
  pose proof (digits2_pos_bounds m) as [Hlo _].
  assert (Hp : Z.pos p <= Z.pos (digits2_pos m) - 1).
  { unfold SpecFloat.fexp, emin64, SpecFloat.emin, prec, emax in *. lia. }
  assert (2 ^ Z.pos p <= 2 ^ (Z.pos (digits2_pos m) - 1)) by (apply Z.pow_le_mono_r; lia).
  assert (0 < 2 ^ Z.pos p) by (apply Z.pow_pos_nonneg; lia).
  apply Z.div_str_pos. lia.
Qed.

Lemma round_nearest_even_ge m l : m <= round_nearest_even m l.
Proof.
  destruct l as [ | [ | | ]]; simpl; try lia. destruct (Z.even m); lia.
Qed.

Definition is_nan_sf (x : spec_float) : bool :=
  match x with S754_nan => true | _ => false end.

Lemma binary_round_aux_not_nan sx m e l :
  0 <= m -> is_nan_sf (binary_round_aux prec emax sx m e l) = false.
Proof.
  intros Hm. unfold binary_round_aux.
  pose proof (shr_fexp_nonneg m e l Hm) as H1.
  destruct (shr_fexp prec emax m e l) as [mrs' e'] eqn:E1. simpl in H1.
  pose proof (round_nearest_even_ge (shr_m mrs') (loc_of_shr_record mrs')) as H2.
  pose proof (shr_fexp_nonneg (round_nearest_even (shr_m mrs') (loc_of_shr_record mrs')) e' loc_Exact ltac:(lia)) as H3.
  destruct (shr_fexp prec emax _ e' loc_Exact) as [mrs'' e''] eqn:E2. simpl in H3.
  destruct (shr_m mrs''); try lia; try reflexivity.
  destruct (e'' <=? emax - prec); reflexivity.
Qed.

(** The sign and finiteness class of a rounded positive number. *)
Definition signed_nonzero (s : bool) (x : spec_float) : Prop :=
  match x with
  | S754_finite s' _ e => s' = s /\ emin64 <= e
  | S754_infinity s' => s' = s
  | _ => False
  end.

Lemma binary_round_aux_sign sx m e l :
  0 < m -> emin64 <= e -> signed_nonzero sx (binary_round_aux prec emax sx m e l).
Proof.
  intros Hm He. unfold binary_round_aux.
  pose proof (shr_fexp_pos m e l Hm He) as [H1 H1e].
  destruct (shr_fexp prec emax m e l) as [mrs' e'] eqn:E1. simpl in H1, H1e.
  pose proof (round_nearest_even_ge (shr_m mrs') (loc_of_shr_record mrs')) as H2.
  pose proof (shr_fexp_pos (round_nearest_even (shr_m mrs') (loc_of_shr_record mrs')) e' loc_Exact
                ltac:(lia) ltac:(lia)) as [H3 H3e].
  destruct (shr_fexp prec emax _ e' loc_Exact) as [mrs'' e''] eqn:E2. simpl in H3, H3e.
  destruct (shr_m mrs''); try lia.
  destruct (e'' <=? emax - prec); simpl; auto. split; [reflexivity | lia].
Qed.

Lemma shl_align_spec mx ex ex' :
  let '(m, e) := shl_align mx ex ex' in
  e = Z.min ex ex' /\ Z.pos m = Z.pos mx * 2 ^ (ex - e).
Proof.
  unfold shl_align. destruct (ex' - ex) as [ | d | d ] eqn:Hd.
  - split; [lia | ]. rewrite Z.sub_diag. simpl. lia.
  - split; [lia | ]. rewrite Z.sub_diag. simpl. lia.
  - split; [lia | ]. replace (ex - ex') with (Z.pos d) by lia.
    clear Hd. induction d as [ | d IH] using Pos.peano_ind.
    + simpl. lia.
    + rewrite Pos.iter_succ, Pos2Z.inj_succ, Z.pow_succ_r by lia.
      rewrite Pos2Z.inj_xO, IH. lia.
Qed.

Lemma binary_round_sign sx mx ex :
  emin64 <= ex -> signed_nonzero sx (binary_round prec emax sx mx ex).
Proof.
  intros He. unfold binary_round.
  pose proof (shl_align_spec mx ex (fexp prec emax (Z.pos (digits2_pos mx) + ex))) as Hs.
  destruct (shl_align mx ex _) as [mz ez]. destruct Hs as [Hez _].
  apply binary_round_aux_sign; [lia | ].
  unfold SpecFloat.fexp, emin64 in *. lia.
Qed.


(** *** An order embedding of the doubles into the integers

    [val x] is the value of [x] in units of the smallest positive
    double; the infinities sit just outside the finite range. *)
Definition val (x : spec_float) : Z :=
  match x with
  | S754_zero _ => 0
  | S754_nan => 0
  | S754_infinity s => if s then - 2 ^ (emax - emin64) else 2 ^ (emax - emin64)
  | S754_finite s m e =>
      if s then - (Z.pos m * 2 ^ (e - emin64)) else Z.pos m * 2 ^ (e - emin64)
  end.

Lemma bounded_facts m e :
  bounded prec emax m e = true ->
  emin64 <= e <= emax - prec /\ Z.pos m < 2 ^ prec /\
  (emin64 < e -> 2 ^ (prec - 1) <= Z.pos m).
Proof.
  unfold bounded, canonical_mantissa. intros H.
  apply andb_true_iff in H as [Hc He].
  apply Z.eqb_eq in Hc. apply Z.leb_le in He.
  pose proof (digits2_pos_bounds m) as [Hlo Hhi].
  unfold SpecFloat.fexp, emin64, SpecFloat.emin in *.
  assert (Hd : Z.pos (digits2_pos m) <= prec) by lia.
  split; [lia | split].
  - eapply Z.lt_le_trans; [exact Hhi | apply Z.pow_le_mono_r; lia].
  - intros Hgt. replace (Z.pos (digits2_pos m)) with prec in Hlo by lia. exact Hlo.
Qed.

Lemma pow2_pos k : 0 <= k -> 0 < 2 ^ k.
Proof. intros. apply Z.pow_pos_nonneg; lia. Qed.

Lemma mag_lt m1 e1 m2 e2 :
  bounded prec emax m1 e1 = true -> bounded prec emax m2 e2 = true ->
  e1 < e2 ->
  Z.pos m1 * 2 ^ (e1 - emin64) < Z.pos m2 * 2 ^ (e2 - emin64).
Proof.
  intros H1 H2 Hlt.
  apply bounded_facts in H1 as [He1 [Hm1 _]].
  apply bounded_facts in H2 as [He2 [_ Hm2]].
  specialize (Hm2 ltac:(lia)).
  replace (e2 - emin64) with ((e2 - e1 - 1) + 1 + (e1 - emin64)) by lia.
  rewrite !Z.pow_add_r by lia.
  replace (2 ^ prec) with (2 ^ (prec - 1) * 2 ^ 1) in Hm1
    by (rewrite <- Z.pow_add_r by (unfold prec; lia); f_equal; lia).
  pose proof (pow2_pos (e1 - emin64) ltac:(lia)) as HA.
  pose proof (pow2_pos (e2 - e1 - 1) ltac:(lia)) as HB.
  pose proof (pow2_pos (prec - 1) ltac:(unfold prec; lia)) as HC.
  rewrite Z.pow_1_r in *.
  generalize dependent (2 ^ (e1 - emin64)). generalize dependent (2 ^ (e2 - e1 - 1)).
  generalize dependent (2 ^ (prec - 1)). intros C HC Hm1 Hm2 B HB A HA.
  assert (Z.pos m1 * A < 2 * Z.pos m2 * A) by nia.
  assert (2 * Z.pos m2 * A <= Z.pos m2 * (B * 2 * A)) by nia.
  lia.
Qed.

Lemma mag_bounds m e :
  bounded prec emax m e = true ->
  0 < Z.pos m * 2 ^ (e - emin64) < 2 ^ (emax - emin64).
Proof.
  intros H. apply bounded_facts in H as [He [Hm _]].
  pose proof (pow2_pos (e - emin64) ltac:(lia)).
  split; [lia | ].
  replace (emax - emin64) with (prec + (emax - prec - e) + (e - emin64)) by lia.
  rewrite !Z.pow_add_r by (unfold prec in *; lia).
  pose proof (pow2_pos (emax - prec - e) ltac:(lia)) as HD.
  generalize dependent (2 ^ (e - emin64)). generalize dependent (2 ^ (emax - prec - e)).
  generalize dependent (2 ^ prec). intros P Hm D HD A HA.
  assert (Z.pos m * A < P * A) by nia.
  assert (P * A <= P * D * A) by nia.
  lia.
Qed.

Lemma mag_compare m1 e1 m2 e2 :
  bounded prec emax m1 e1 = true -> bounded prec emax m2 e2 = true ->
  match e1 ?= e2 with
  | Lt => Lt
  | Gt => Gt
  | Eq => Pos.compare_cont Eq m1 m2
  end = (Z.pos m1 * 2 ^ (e1 - emin64) ?= Z.pos m2 * 2 ^ (e2 - emin64)).
Proof.
  intros H1 H2. destruct (Z.compare_spec e1 e2) as [Heq | Hlt | Hgt].
  - subst e2. apply bounded_facts in H1 as [He1 _].
    pose proof (pow2_pos (e1 - emin64) ltac:(lia)).
    change (Pos.compare_cont Eq m1 m2) with (Z.pos m1 ?= Z.pos m2).
    destruct (Z.compare_spec (Z.pos m1) (Z.pos m2)) as [E | L | G]; symmetry.
    + apply Z.compare_eq_iff. rewrite E. reflexivity.
    + apply Z.compare_lt_iff. nia.
    + apply Z.compare_gt_iff. nia.
  - symmetry. apply Z.compare_lt_iff. apply mag_lt; assumption.
  - symmetry. apply Z.compare_gt_iff. apply mag_lt; assumption.
Qed.

Lemma SFcompare_val x y :
  valid_binary x = true -> valid_binary y = true ->
  is_nan_sf x = false -> is_nan_sf y = false ->
  SFcompare x y = Some (val x ?= val y).
Proof.
  assert (HP : 0 < 2 ^ (emax - emin64)) by (apply Z.pow_pos_nonneg; vm_compute; congruence).
  destruct x as [sx | sx | | sx mx ex], y as [sy | sy | | sy my ey];
    cbn [SFcompare val is_nan_sf SpecFloat.valid_binary];
    intros Vx Vy Nx Ny; try discriminate; f_equal;
    try pose proof (mag_bounds _ _ Vx) as Bx;
    try pose proof (mag_bounds _ _ Vy) as By;
    try destruct sx; try destruct sy;
    try (symmetry; first [ apply Z.compare_eq_iff; lia
                         | apply Z.compare_lt_iff; lia
                         | apply Z.compare_gt_iff; lia ]).
  - rewrite Z.compare_opp, (Z.compare_antisym (Z.pos mx * _) (Z.pos my * _)),
      <- (mag_compare _ _ _ _ Vx Vy).
    destruct (ex ?= ey); reflexivity.
  - apply mag_compare; assumption.
Qed.

Lemma signed_nonzero_pos s r :
  signed_nonzero s r -> SFltb (S754_zero false) r = negb s.
Proof.
  destruct r as [ | s' | | s' m e]; cbn [signed_nonzero]; intros Hs;
    try contradiction.
  - subst s'. destruct s; reflexivity.
  - destruct Hs as [Hs _]. subst s'. destruct s; reflexivity.
Qed.

Lemma SFsub_finite_pos sx mx ex sy my ey :
  bounded prec emax mx ex = true -> bounded prec emax my ey = true ->
  SFltb (S754_zero false)
        (SFsub prec emax (S754_finite sx mx ex) (S754_finite sy my ey))
  = (val (S754_finite sy my ey) <? val (S754_finite sx mx ex)).
Proof.
  intros Vx Vy. cbn [SFsub val].
  pose proof (shl_align_spec mx ex (Z.min ex ey)) as Hx.
  pose proof (shl_align_spec my ey (Z.min ex ey)) as Hy.
  destruct (shl_align mx ex (Z.min ex ey)) as [mx' ex'].
  destruct (shl_align my ey (Z.min ex ey)) as [my' ey'].
  destruct Hx as [Hex Hmx]; destruct Hy as [Hey Hmy]; cbn [fst].
  pose proof (bounded_facts _ _ Vx) as [Emx _].
  pose proof (bounded_facts _ _ Vy) as [Emy _].
  assert (Hvx : Z.pos mx * 2 ^ (ex - emin64) = Z.pos mx' * 2 ^ (Z.min ex ey - emin64))
    by (rewrite Hmx, <- Z.mul_assoc, <- Z.pow_add_r by lia; do 2 f_equal; lia).
  assert (Hvy : Z.pos my * 2 ^ (ey - emin64) = Z.pos my' * 2 ^ (Z.min ex ey - emin64))
    by (rewrite Hmy, <- Z.mul_assoc, <- Z.pow_add_r by lia; do 2 f_equal; lia).
  rewrite Hvx, Hvy.
  pose proof (pow2_pos (Z.min ex ey - emin64) ltac:(lia)) as HA.
  generalize dependent (2 ^ (Z.min ex ey - emin64)); intros A _ _ HA.
  assert (He : emin64 <= Z.min ex ey) by lia.
  generalize dependent (Z.min ex ey); intros ez _ _ He.
  destruct (cond_Zopp sx (Z.pos mx') - cond_Zopp sy (Z.pos my')) as [ | p | p ] eqn:HM;
    cbn [binary_normalize];
    rewrite ?(signed_nonzero_pos _ _ (binary_round_sign _ p ez He));
    destruct sx, sy; cbn [cond_Zopp negb] in *; try reflexivity; symmetry;
    first [ apply Z.ltb_lt; nia | apply Z.ltb_ge; nia ].
Qed.

(** The sign of a difference is the order of its operands. *)
Lemma SFsub_pos x y :
  valid_binary x = true -> valid_binary y = true ->
  is_nan_sf x = false -> is_nan_sf y = false ->
  SFltb (S754_zero false) (SFsub prec emax x y) = (val y <? val x).
Proof.
  assert (HP : 0 < 2 ^ (emax - emin64)) by (apply Z.pow_pos_nonneg; vm_compute; congruence).
  destruct x as [sx | sx | | sx mx ex], y as [sy | sy | | sy my ey];
    intros Vx Vy Nx Ny; try discriminate;
    try (apply SFsub_finite_pos; assumption);
    cbn [SFsub val is_nan_sf SpecFloat.valid_binary] in *;
    try pose proof (mag_bounds _ _ Vx) as Bx;
    try pose proof (mag_bounds _ _ Vy) as By;
    try destruct sx; try destruct sy;
    cbn [SFltb SFcompare negb]; symmetry;
    first [ apply Z.ltb_lt; lia | apply Z.ltb_ge; lia ].
Qed.


(** *** The same, on primitive floats *)

Definition ord (x : float) : Z := val (Prim2SF x).

Lemma isNaN_spec (x : float) :
  JS.isNaN x = is_nan_sf (Prim2SF x).
Proof.
  unfold JS.isNaN. rewrite FloatAxioms.eqb_spec. unfold SFeqb.
  destruct (is_nan_sf (Prim2SF x)) eqn:Hn.
  - destruct (Prim2SF x); try discriminate. reflexivity.
  - rewrite (SFcompare_val _ _ (Prim2SF_valid x) (Prim2SF_valid x) Hn Hn).
    rewrite Z.compare_refl. reflexivity.
Qed.

Lemma ltb_ord (x y : float) :
  JS.isNaN x = false -> JS.isNaN y = false ->
  PrimFloat.ltb x y = (ord x <? ord y).
Proof.
  rewrite !isNaN_spec. intros Hx Hy. rewrite FloatAxioms.ltb_spec. unfold SFltb.
  rewrite (SFcompare_val _ _ (Prim2SF_valid x) (Prim2SF_valid y) Hx Hy).
  reflexivity.
Qed.

Lemma leb_ord (x y : float) :
  JS.isNaN x = false -> JS.isNaN y = false ->
  PrimFloat.leb x y = (ord x <=? ord y).
Proof.
  rewrite !isNaN_spec. intros Hx Hy. rewrite FloatAxioms.leb_spec. unfold SFleb.
  rewrite (SFcompare_val _ _ (Prim2SF_valid x) (Prim2SF_valid y) Hx Hy).
  unfold ord. rewrite Z.leb_compare. reflexivity.
Qed.

Lemma eqb_ord (x y : float) :
  JS.isNaN x = false -> JS.isNaN y = false ->
  PrimFloat.eqb x y = (ord x =? ord y).
Proof.
  rewrite !isNaN_spec. intros Hx Hy. rewrite FloatAxioms.eqb_spec. unfold SFeqb.
  rewrite (SFcompare_val _ _ (Prim2SF_valid x) (Prim2SF_valid y) Hx Hy).
  unfold ord. rewrite Z.eqb_compare. reflexivity.
Qed.

(** [y - x > 0] exactly when [x < y]. *)
Lemma sub_is_pos (x y : float) :
  JS.isNaN x = false -> JS.isNaN y = false ->
  JS.is_pos (PrimFloat.sub y x) = (ord x <? ord y).
Proof.
  rewrite !isNaN_spec. intros Hx Hy. unfold JS.is_pos.
  rewrite FloatAxioms.ltb_spec, FloatAxioms.sub_spec.
  change (Prim2SF 0%float) with (S754_zero false).
  apply (SFsub_pos _ _ (Prim2SF_valid y) (Prim2SF_valid x) Hy Hx).
Qed.

(** A product of two numbers, one of them finite and not zero, is a
    number. *)
Lemma mul_finite_not_nan (x p : float) s m e :
  JS.isNaN x = false -> Prim2SF p = S754_finite s m e ->
  JS.isNaN (PrimFloat.mul x p) = false.
Proof.
  rewrite !isNaN_spec. intros Hx Hp. rewrite FloatAxioms.mul_spec, Hp.
  unfold SF64mul. destruct (Prim2SF x) as [sx | sx | | sx mx ex]; try discriminate;
    cbn [SFmul]; try reflexivity.
  apply binary_round_aux_not_nan. lia.
Qed.

(** An array length, as a double, is a number. *)
Lemma of_length_not_nan (n : nat) : JS.isNaN (JS.of_length n) = false.
Proof.
  rewrite isNaN_spec. unfold JS.of_length. rewrite FloatAxioms.of_uint63_spec.
  destruct (Uint63Axioms.to_Z _) as [ | z | z ]; cbn [binary_normalize]; try reflexivity.
  - unfold binary_round. destruct (shl_align _ _ _). apply binary_round_aux_not_nan. lia.
  - unfold binary_round. destruct (shl_align _ _ _). apply binary_round_aux_not_nan. lia.
Qed.

(** *** Rounding, quantitatively *)

Lemma digits2_pos_unique (m : positive) (k : Z) :
  2 ^ (k - 1) <= Z.pos m < 2 ^ k -> Z.pos (digits2_pos m) = k.
Proof.
  intros [Hlo Hhi]. pose proof (digits2_pos_bounds m) as [Dlo Dhi].
  assert (Hk : 0 < k).
  { destruct (Z.ltb_spec 0 k) as [ | Hle]; [assumption | ].
    destruct (Z.eq_dec k 0) as [-> | ]; [simpl in Hhi; lia | ].
    rewrite Z.pow_neg_r in Hhi by lia. lia. }
  assert (Z.pos (digits2_pos m) - 1 < k) by (apply (Z.pow_lt_mono_r_iff 2); lia).
  assert (k - 1 < Z.pos (digits2_pos m)) by (apply (Z.pow_lt_mono_r_iff 2); lia).
  lia.
Qed.

Lemma round_nearest_even_le m l : round_nearest_even m l <= m + 1.
Proof.
  destruct l as [ | [ | | ]]; simpl; try lia. destruct (Z.even m); lia.
Qed.

(** No bit is lost by shifting a multiple of [2^p] right by [p]. *)
Definition lossless (r : shr_record) : Prop := shr_r r = false /\ shr_s r = false.

Lemma shr_1_lossless (r : shr_record) (c : Z) :
  0 <= c -> lossless r -> shr_m r = 2 * c -> lossless (shr_1 r) /\ shr_m (shr_1 r) = c.
Proof.
  destruct r as [m r s]. unfold lossless. simpl. intros Hc [-> ->] ->.
  destruct c as [ | c | c ]; try lia; simpl; auto.
Qed.

Lemma iter_shr_1_lossless (p : positive) : forall (r : shr_record) (c : Z),
  0 <= c -> lossless r -> shr_m r = c * 2 ^ Z.pos p ->
  lossless (SpecFloat.iter_pos shr_1 p r).
Proof.
  induction p as [p IH | p IH | ]; intros r c Hc Hr Hm; simpl SpecFloat.iter_pos.
  - assert (H2 : 0 < 2 ^ Z.pos p) by (apply pow2_pos; lia).
    destruct (shr_1_lossless r (c * 2 ^ Z.pos p * 2 ^ Z.pos p)) as [L1 M1]; [nia | assumption | | ].
    { rewrite Hm. change (Z.pos p~1) with (2 * Z.pos p + 1).
      replace (2 * Z.pos p + 1) with (1 + Z.pos p + Z.pos p) by lia.
      rewrite !Z.pow_add_r by lia. rewrite Z.pow_1_r. lia. }
    apply (IH _ c); [assumption | apply (IH _ (c * 2 ^ Z.pos p)); [nia | assumption | assumption] | ].
    rewrite iter_shr_1_m by lia. rewrite M1. apply Z.div_mul. lia.
  - assert (H2 : 0 < 2 ^ Z.pos p) by (apply pow2_pos; lia).
    assert (Hm' : shr_m r = c * 2 ^ Z.pos p * 2 ^ Z.pos p).
    { rewrite Hm. change (Z.pos p~0) with (2 * Z.pos p).
      replace (2 * Z.pos p) with (Z.pos p + Z.pos p) by lia.
      rewrite Z.pow_add_r by lia. lia. }
    apply (IH _ c); [assumption | apply (IH _ (c * 2 ^ Z.pos p)); [nia | assumption | assumption] | ].
    rewrite iter_shr_1_m by lia. rewrite Hm'. apply Z.div_mul. lia.
  - apply (shr_1_lossless r c); [assumption | assumption | ].
    rewrite Hm. change (2 ^ 1) with 2. lia.
Qed.

(** The first shift of [binary_round_aux]: by [s] places, to the
    quotient, which is exact for a multiple of [2^s]. *)
Lemma shr_fexp_quotient (m e s : Z) :
  0 < m -> s = SpecFloat.fexp prec emax (Zdigits2 m + e) - e -> 0 <= s ->
  exists r, shr_fexp prec emax m e loc_Exact = (r, e + s) /\
            shr_m r = m / 2 ^ s /\
            ((exists c, m = c * 2 ^ s) -> loc_of_shr_record r = loc_Exact).
Proof.
  intros Hm Hs Hnn. unfold shr_fexp. rewrite <- Hs. unfold shr.
  destruct s as [ | p | p ]; try lia.
  - eexists. split; [rewrite Z.add_0_r; reflexivity | ]. simpl. split; [ | reflexivity].
    symmetry. apply Z.div_1_r.
  - eexists. split; [reflexivity | ]. split.
    + rewrite iter_shr_1_m by (simpl; lia). reflexivity.
    + intros [c Hc].
      assert (H2 : 0 < 2 ^ Z.pos p) by (apply pow2_pos; lia).
      destruct (iter_shr_1_lossless p (shr_record_of_loc m loc_Exact) c) as [Hr Hsb].
      * nia.
      * split; reflexivity.
      * exact Hc.
      * destruct (SpecFloat.iter_pos shr_1 p _) as [m' r' s']. simpl in Hr, Hsb.
        subst. reflexivity.
Qed.

Lemma binary_round_aux_bounds (M E s : Z) :
  0 < M -> s = Zdigits2 M - prec -> 0 <= s ->
  emin64 <= E + s -> E + s + 1 <= emax - prec ->
  exists m' e',
    binary_round_aux prec emax false M E loc_Exact = S754_finite false m' e' /\
    Z.pos (digits2_pos m') = prec /\
    E + s <= e' <= E + s + 1 /\
    M / 2 ^ s <= Z.pos m' * 2 ^ (e' - (E + s)) <= M / 2 ^ s + 1 /\
    ((exists c, M = c * 2 ^ s) -> Z.pos m' * 2 ^ (e' - (E + s)) = M / 2 ^ s).
Proof.
  intros HM Hs Hnn Hlo Hhi.
  assert (Hprec : 0 < prec) by reflexivity.
  assert (Hd : 2 ^ (prec + s - 1) <= M < 2 ^ (prec + s)).
  { destruct M as [ | Mp | Mp ]; try lia. simpl Zdigits2 in Hs.
    pose proof (digits2_pos_bounds Mp) as HB.
    replace (prec + s) with (Z.pos (digits2_pos Mp)) by lia. exact HB. }
  assert (Hfexp : s = SpecFloat.fexp prec emax (Zdigits2 M + E) - E).
  { unfold SpecFloat.fexp, emin64 in *. lia. }
  destruct (shr_fexp_quotient M E s HM Hfexp Hnn) as (r1 & E1 & M1 & X1).
  unfold binary_round_aux. rewrite E1.
  assert (P2 : 0 < 2 ^ s) by (apply pow2_pos; lia).
  assert (B1 : 2 ^ (prec - 1) <= M / 2 ^ s < 2 ^ prec).
  { split.
    - apply Z.div_le_lower_bound; [exact P2 | ].
      rewrite <- Z.pow_add_r by lia.
      replace (s + (prec - 1)) with (prec + s - 1) by lia. lia.
    - apply Z.div_lt_upper_bound; [exact P2 | ].
      rewrite <- Z.pow_add_r by lia.
      replace (s + prec) with (prec + s) by lia. lia. }
  assert (P3 : 0 < 2 ^ (prec - 1)) by (apply pow2_pos; lia).
  assert (P4 : 2 ^ prec = 2 * 2 ^ (prec - 1)).
  { rewrite <- Z.pow_succ_r by lia. f_equal; lia. }
  pose proof (round_nearest_even_ge (shr_m r1) (loc_of_shr_record r1)) as Q1.
  pose proof (round_nearest_even_le (shr_m r1) (loc_of_shr_record r1)) as Q2.
  assert (QX : (exists c, M = c * 2 ^ s) ->
               round_nearest_even (shr_m r1) (loc_of_shr_record r1) = M / 2 ^ s).
  { intros H. rewrite (X1 H), M1. reflexivity. }
  rewrite M1 in Q1, Q2, QX |- *.
  destruct (round_nearest_even (M / 2 ^ s) (loc_of_shr_record r1)) as [ | q | q ]; try lia.
  destruct (Z.ltb_spec (Z.pos q) (2 ^ prec)) as [Hq | Hq].
  - assert (Dq : Z.pos (digits2_pos q) = prec) by (apply digits2_pos_unique; lia).
    destruct (shr_fexp_quotient (Z.pos q) (E + s) 0) as (r2 & E2 & M2 & _); [lia | | lia | ].
    { simpl Zdigits2. rewrite Dq. unfold SpecFloat.fexp, emin64 in *. lia. }
    rewrite E2, M2, Z.div_1_r.
    destruct (Z.leb_spec (E + s + 0) (emax - prec)); [ | lia].
    exists q, (E + s + 0). split; [reflexivity | ]. split; [exact Dq | ].
    replace (E + s + 0 - (E + s)) with 0 by lia. rewrite Z.mul_1_r.
    split; [lia | ]. split; [lia | exact QX].
  - assert (Hq2 : Z.pos q = 2 ^ prec) by lia.
    assert (Dq : Z.pos (digits2_pos q) = prec + 1).
    { apply digits2_pos_unique. replace (prec + 1 - 1) with prec by lia.
      rewrite Z.pow_add_r, Z.pow_1_r by lia. lia. }
    destruct (shr_fexp_quotient (Z.pos q) (E + s) 1) as (r2 & E2 & M2 & _); [lia | | lia | ].
    { simpl Zdigits2. rewrite Dq. unfold SpecFloat.fexp, emin64 in *. lia. }
    rewrite E2, M2. change (2 ^ 1) with 2.
    assert (Hhalf : Z.pos q / 2 = 2 ^ (prec - 1)).
    { rewrite Hq2, P4. rewrite Z.mul_comm. apply Z.div_mul. lia. }
    rewrite Hhalf.
    destruct (2 ^ (prec - 1)) as [ | h | h ] eqn:Eh; try lia.
    destruct (Z.leb_spec (E + s + 1) (emax - prec)); [ | lia].
    exists h, (E + s + 1). split; [reflexivity | ]. split.
    { apply digits2_pos_unique. rewrite <- Eh. lia. }
    replace (E + s + 1 - (E + s)) with 1 by lia. change (2 ^ 1) with 2.
    split; [lia | ]. split; [lia | ]. intros Hc. specialize (QX Hc). lia.
Qed.

(** A positive integer below [2^53] is a double, exactly: the
    mantissa is the integer shifted left to 53 bits. *)
Lemma of_uint63_exact (n : Z) :
  0 < n < 2 ^ prec ->
  exists m e,
    Prim2SF (PrimFloat.of_uint63 (Uint63.of_Z n)) = S754_finite false m e /\
    Z.pos (digits2_pos m) = prec /\ - prec < e <= 0 /\
    Z.pos m = n * 2 ^ (- e) /\ n < 2 ^ (prec + e).
Proof.
  intros Hn. rewrite FloatAxioms.of_uint63_spec, Uint63.of_Z_spec.
  assert (Hprec : 0 < prec) by reflexivity.
  assert (HwB : 2 ^ prec < Uint63.wB) by reflexivity.
  rewrite Z.mod_small by lia.
  destruct n as [ | np | np ]; try lia. cbn [binary_normalize]. unfold binary_round.
  pose proof (digits2_pos_bounds np) as [Dlo Dhi].
  set (dn := Z.pos (digits2_pos np)) in *.
  assert (Hdn : 0 < dn <= prec).
  { split; [unfold dn; lia | ].
    assert (dn - 1 < prec) by (apply (Z.pow_lt_mono_r_iff 2); lia). lia. }
  assert (Hfexp : SpecFloat.fexp prec emax (dn + 0) = dn - prec).
  { unfold SpecFloat.fexp, SpecFloat.emin, prec, emax in *. lia. }
  rewrite Hfexp.
  pose proof (shl_align_spec np 0 (dn - prec)) as Hs.
  destruct (shl_align np 0 (dn - prec)) as [mz ez]. destruct Hs as [Hez Hmz].
  assert (Eez : ez = dn - prec) by lia. clear Hez. subst ez.
  replace (0 - (dn - prec)) with (prec - dn) in Hmz by lia.
  assert (P1 : 0 < 2 ^ (prec - dn)) by (apply pow2_pos; lia).
  assert (Bz : 2 ^ (prec - 1) <= Z.pos mz < 2 ^ prec).
  { rewrite Hmz.
    replace (prec - 1) with ((dn - 1) + (prec - dn)) by lia.
    replace (2 ^ prec) with (2 ^ (dn + (prec - dn))) by (f_equal; lia).
    rewrite !Z.pow_add_r by lia. split; [apply Z.mul_le_mono_nonneg_r | apply Z.mul_lt_mono_pos_r]; lia. }
  assert (Dz : Z.pos (digits2_pos mz) = prec) by (apply digits2_pos_unique; exact Bz).
  destruct (binary_round_aux_bounds (Z.pos mz) (dn - prec) 0) as (m' & e' & Hr & Dm & He & _ & Hx).
  { lia. }
  { simpl Zdigits2. lia. }
  { lia. }
  { unfold emin64, SpecFloat.emin, prec, emax in *. lia. }
  { unfold prec, emax in *. lia. }
  rewrite Hr. exists m', e'. split; [reflexivity | ]. split; [exact Dm | ].
  rewrite Z.add_0_r in He, Hx. rewrite Z.div_1_r in Hx.
  specialize (Hx ltac:(exists (Z.pos mz); simpl; lia)).
  pose proof (digits2_pos_bounds m') as [Mlo Mhi]. rewrite Dm in Mlo, Mhi.
  assert (P4 : 2 ^ prec = 2 * 2 ^ (prec - 1)).
  { rewrite <- Z.pow_succ_r by lia. f_equal; lia. }
  assert (Ee : e' = dn - prec).
  { destruct (Z.eq_dec e' (dn - prec)) as [ | Hne]; [assumption | ].
    replace (e' - (dn - prec)) with 1 in Hx by lia. change (2 ^ 1) with 2 in Hx. lia. }
  subst e'. rewrite Z.sub_diag in Hx. simpl in Hx.
  split; [lia | ]. split.
  - replace (- (dn - prec)) with (prec - dn) by lia. lia.
  - replace (prec + (dn - prec)) with dn by lia. exact Dhi.
Qed.

(** [Math.ceil] of a positive double with a negative exponent. *)
Lemma opp_div_opp_ceiling (a b c : Z) :
  0 < b -> (c - 1) * b < a <= c * b -> - ((- a) / b) = c.
Proof.
  intros Hb Ha. rewrite <- (Z.div_unique (- a) b (- c) (c * b - a)); lia.
Qed.

(** The arithmetic of one rounding: [q] is a [T]-th of the product
    [n * mp / B] rounded to a neighbour, [mp / B] approximates
    [num / den] from below, and [c] is the ceiling of [n * num / den]. *)
Lemma rounded_ceiling (B L K S T n mp num den q : Z) :
  0 < den -> 0 <= num ->
  0 <= num * B - den * mp -> num * B - den * mp + den <= L ->
  0 < L <= K -> 0 < n -> n * K < B -> 0 < S <= B -> 0 < T -> S * T = K * B ->
  n * K * mp / S <= q <= n * K * mp / S + 1 ->
  ((exists c, n * K * mp = c * S) -> q = n * K * mp / S) ->
  let c := (n * num + den - 1) / den in
  (c - 1) * T < q <= c * T.
Proof.
  intros Hden Hnum Hd0 Hd1 HL Hn HnK HS HT HST Hq Hx c.
  set (M := n * K * mp) in *. set (f := M / S) in *.
  set (d := num * B - den * mp) in *.
  assert (C1 : den * c <= n * num + den - 1) by (apply Z.mul_div_le; lia).
  assert (C2 : n * num + den - 1 < den * c + den).
  { pose proof (Z.mul_succ_div_gt (n * num + den - 1) den Hden) as HH. fold c in HH. lia. }
  assert (F1 : S * f <= M) by (apply Z.mul_div_le; lia).
  assert (F2 : M < S * f + S).
  { pose proof (Z.mul_succ_div_gt M S ltac:(lia)) as HH. fold f in HH. lia. }
  assert (HB : 0 < B) by lia.
  assert (HK : 0 < K) by lia.
  assert (HKB : 0 < K * B) by (apply Z.mul_pos_pos; lia).
  assert (HnK0 : 0 < n * K) by (apply Z.mul_pos_pos; lia).
  assert (DM : den * M = n * num * (K * B) - n * K * d) by (unfold M, d; ring).
  assert (Hnd : 0 <= n * K * d) by (apply Z.mul_nonneg_nonneg; lia).
  assert (U : M <= c * T * S).
  { apply (Z.mul_le_mono_pos_l _ _ den); [lia | ].
    replace (den * (c * T * S)) with (den * c * (K * B)) by (rewrite <- HST; ring).
    rewrite DM.
    assert (n * num * (K * B) <= den * c * (K * B))
      by (apply Z.mul_le_mono_nonneg_r; lia).
    lia. }
  assert (Lo : S * ((c - 1) * T + 1) <= M).
  { apply (Z.mul_le_mono_pos_l _ _ den); [lia | ].
    replace (den * (S * ((c - 1) * T + 1)))
      with ((den * c - den) * (K * B) + den * S) by (rewrite <- HST; ring).
    rewrite DM.
    assert (E1 : (den * c - den) * (K * B) <= (n * num - 1) * (K * B))
      by (apply Z.mul_le_mono_nonneg_r; lia).
    assert (E2 : n * K * d <= B * d) by (apply Z.mul_le_mono_nonneg_r; lia).
    assert (E3 : den * S <= B * den) by (rewrite (Z.mul_comm den S); apply Z.mul_le_mono_nonneg_r; lia).
    assert (E4 : B * (d + den) <= B * K) by (apply Z.mul_le_mono_nonneg_l; lia).
    lia. }
  assert (Flo : (c - 1) * T + 1 <= f) by (apply Z.div_le_lower_bound; lia).
  assert (Fhi : f <= c * T).
  { apply Z.div_le_upper_bound; [lia | ]. lia. }
  split; [lia | ].
  destruct (Z.eq_dec f (c * T)) as [Heq | Hne]; [ | lia].
  rewrite Hx; [lia | ]. exists (c * T).
  rewrite Heq in F1. lia.
Qed.

(** The ceiling of the double product [n * p], for an array length [n]
    and a double [p] in [[1/2, 1)] that approximates [num / den] from
    below, is the ceiling of the exact product [n * num / den]. *)
Lemma Math_ceil_mul (n : Z) (p : float) (mp : positive) (num den : Z) :
  Prim2SF p = S754_finite false mp (- prec) ->
  Z.pos (digits2_pos mp) = prec ->
  0 < den -> 0 <= num ->
  0 <= num * 2 ^ prec - den * Z.pos mp ->
  num * 2 ^ prec - den * Z.pos mp + den <= 2 ^ 21 ->
  0 < n < 2 ^ 32 ->
  JS.Math_ceil (PrimFloat.mul (PrimFloat.of_uint63 (Uint63.of_Z n)) p)
  = JS.Int ((n * num + den - 1) / den).
Proof.
  intros Hp Dp Hden Hnum Hd0 Hd1 Hn.
  assert (Hprec : prec = 53) by reflexivity.
  assert (H32 : 2 ^ 32 < 2 ^ prec) by reflexivity.
  destruct (of_uint63_exact n ltac:(lia)) as (mx & ex & Hx & Dx & Hex & Hmx & _).
  pose proof (digits2_pos_bounds mx) as [Xlo Xhi]. rewrite Dx in Xlo, Xhi.
  pose proof (digits2_pos_bounds mp) as [Plo Phi]. rewrite Dp in Plo, Phi.
  remember (- ex) as k eqn:Ek.
  assert (Eex : ex = - k) by lia. subst ex. clear Ek.
  assert (PK : 0 < 2 ^ k) by (apply pow2_pos; lia).
  assert (Hk : 21 <= k).
  { assert (prec - 1 < 32 + k); [ | lia].
    apply (Z.pow_lt_mono_r_iff 2); [lia | lia | ].
    rewrite Z.pow_add_r by lia. nia. }
  assert (HLK : 2 ^ 21 <= 2 ^ k) by (apply Z.pow_le_mono_r; lia).
  unfold JS.Math_ceil. rewrite FloatAxioms.mul_spec, Hx, Hp.
  unfold SF64mul. cbn [SFmul xorb].
  pose proof (digits2_pos_bounds (mx * mp)) as [Mlo Mhi].
  set (M := Z.pos (mx * mp)) in *.
  assert (EM : M = n * 2 ^ k * Z.pos mp) by (unfold M; rewrite Pos2Z.inj_mul, Hmx; reflexivity).
  set (dM := Z.pos (digits2_pos (mx * mp))) in *.
  assert (P4 : 2 ^ prec = 2 * 2 ^ (prec - 1)).
  { rewrite <- Z.pow_succ_r by lia. f_equal; lia. }
  assert (P5 : 0 < 2 ^ (prec - 1)) by (apply pow2_pos; lia).
  assert (BM : 2 ^ (prec - 1) * 2 ^ (prec - 1) <= M < 2 ^ prec * 2 ^ prec).
  { unfold M. rewrite Pos2Z.inj_mul. split.
    - apply Z.mul_le_mono_nonneg; lia.
    - apply Z.mul_lt_mono_nonneg; lia. }
  rewrite <- !Z.pow_add_r in BM by lia.
  assert (HdM : prec + prec - 1 <= dM <= prec + prec).
  { assert (0 < dM) by (unfold dM; lia).
    assert (dM - 1 < prec + prec) by (apply (Z.pow_lt_mono_r_iff 2); lia).
    assert (prec - 1 + (prec - 1) < dM) by (apply (Z.pow_lt_mono_r_iff 2); lia).
    lia. }
  destruct (binary_round_aux_bounds M (- k + - prec) (dM - prec))
    as (m' & e' & Hr & _ & He & Hq & Hxq).
  { lia. }
  { reflexivity. }
  { lia. }
  { unfold emin64, SpecFloat.emin, prec, emax in *. lia. }
  { unfold prec, emax in *. lia. }
  rewrite Hr. cbv zeta.
  destruct (Z.leb_spec 0 e') as [Hpos | Hneg]; [lia | ].
  f_equal.
  set (s := dM - prec) in *.
  set (t := - (- k + - prec + s)).
  replace (e' - (- k + - prec + s)) with (e' + t) in * by (unfold t; lia).
  assert (PS : 0 < 2 ^ s) by (apply pow2_pos; lia).
  assert (PT : 0 < 2 ^ t) by (apply pow2_pos; unfold t; lia).
  assert (PE : 0 < 2 ^ (- e')) by (apply pow2_pos; lia).
  assert (HST : 2 ^ s * 2 ^ t = 2 ^ k * 2 ^ prec).
  { rewrite <- !Z.pow_add_r by (unfold t; lia). f_equal. unfold t. lia. }
  assert (HS : 2 ^ s <= 2 ^ prec) by (apply Z.pow_le_mono_r; lia).
  assert (HnK : n * 2 ^ k < 2 ^ prec) by lia.
  rewrite EM in Hq, Hxq.
  pose proof (rounded_ceiling (2 ^ prec) (2 ^ 21) (2 ^ k) (2 ^ s) (2 ^ t) n (Z.pos mp)
                num den (Z.pos m' * 2 ^ (e' + t))
                Hden Hnum Hd0 Hd1 ltac:(lia) ltac:(lia) HnK ltac:(lia) PT HST Hq Hxq) as HC.
  cbv zeta in HC.
  apply opp_div_opp_ceiling; [exact PE | ].
  assert (ET : 2 ^ t = 2 ^ (- e') * 2 ^ (e' + t)).
  { rewrite <- Z.pow_add_r by (unfold t; lia). f_equal. lia. }
  assert (PJ : 0 < 2 ^ (e' + t)) by (apply pow2_pos; unfold t; lia).
  rewrite ET in HC.
  split.
  - apply (Z.mul_lt_mono_pos_r (2 ^ (e' + t))); [exact PJ | ]. lia.
  - apply (Z.mul_le_mono_pos_r _ _ (2 ^ (e' + t))); [exact PJ | ]. lia.
Qed.

End FloatFacts.

(** ** Array.prototype.sort *)

(** [precedes x y l]: an occurrence of [x] in [l] has an occurrence of
    [y] somewhere after it. *)
Inductive precedes {A : Type} (x y : A) : list A -> Prop :=
| precedes_here l : In y l -> precedes x y (x :: l)
| precedes_later a l : precedes x y l -> precedes x y (a :: l).

Module SortFacts.
Import JS.

Section Sorting.
Context {A : Type}.
Variable after : A -> A -> bool.

Lemma sort_insert_perm (x : A) (l : list A) :
  Permutation (sort_insert after x l) (x :: l).
Proof.
  induction l as [ | y l IH]; simpl.
  - reflexivity.
  - destruct (after x y).
    + rewrite IH. apply perm_swap.
    + reflexivity.
Qed.

Lemma Array_sort_perm (l : list A) : Permutation (Array_sort after l) l.
Proof.
  induction l as [ | x l IH]; simpl.
  - reflexivity.
  - rewrite sort_insert_perm. apply perm_skip. exact IH.
Qed.

Lemma Array_sort_length (l : list A) :
  List.length (Array_sort after l) = List.length l.
Proof. apply Permutation_length, Array_sort_perm. Qed.

Lemma Array_sort_In (x : A) (l : list A) : In x (Array_sort after l) <-> In x l.
Proof.
  split; apply Permutation_in; [ | symmetry ]; apply Array_sort_perm.
Qed.

(** Stability needs nothing of the comparator: an element is moved
    past another only when the comparator is positive on the pair. *)
Lemma precedes_In (x y : A) (l : list A) : precedes x y l -> In x l /\ In y l.
Proof.
  induction 1 as [l Hy | a l _ [IHx IHy]]; simpl; auto.
Qed.

Lemma sort_insert_keeps (a x y : A) (l : list A) :
  precedes x y l -> precedes x y (sort_insert after a l).
Proof.
  induction 1 as [l Hy | b l Hp IH]; simpl.
  - destruct (after a x).
    + apply precedes_here. apply (Permutation_in _ (Permutation_sym (sort_insert_perm a l))).
      right. exact Hy.
    + apply precedes_later, precedes_here, Hy.
  - destruct (after a b).
    + apply precedes_later, IH.
    + apply precedes_later, precedes_later, Hp.
Qed.

Lemma sort_insert_first (x y : A) (l : list A) :
  In y l -> after x y = false -> precedes x y (sort_insert after x l).
Proof.
  induction l as [ | z l IH]; simpl; intros Hy Hxy.
  - contradiction.
  - destruct (after x z) eqn:Hxz.
    + destruct Hy as [-> | Hy]; [congruence | ].
      apply precedes_later, IH; assumption.
    + apply precedes_here. exact Hy.
Qed.

Lemma Array_sort_stable (x y : A) (l : list A) :
  precedes x y l -> after x y = false -> precedes x y (Array_sort after l).
Proof.
  induction 1 as [l Hy | a l Hp IH]; simpl; intros Hxy.
  - apply sort_insert_first; [ | exact Hxy]. apply Array_sort_In, Hy.
  - apply sort_insert_keeps, IH, Hxy.
Qed.

(** Sortedness needs a consistent comparator on the elements sorted:
    [after] has to be asymmetric and its complement transitive there. *)
Definition sorted (l : list A) : Prop :=
  StronglySorted (fun a b => after a b = false) l.

Definition consistent (P : A -> Prop) : Prop :=
  (forall x y, P x -> P y -> after x y = true -> after y x = false) /\
  (forall x y z, P x -> P y -> P z ->
                 after x y = false -> after y z = false -> after x z = false).

Lemma sort_insert_sorted (P : A -> Prop) (x : A) (l : list A) :
  consistent P -> P x -> Forall P l -> sorted l -> sorted (sort_insert after x l).
Proof.
  intros [Hasym Htrans] Px. unfold sorted.
  induction l as [ | y l IH]; simpl; intros HP Hs.
  - constructor; constructor.
  - inversion HP as [ | ? ? Py HPl]; subst. inversion Hs as [ | ? ? Hsl Hy]; subst.
    destruct (after x y) eqn:Hxy.
    + constructor; [apply IH; assumption | ].
      apply List.Forall_forall. intros z Hz.
      apply (Permutation_in _ (sort_insert_perm x l)) in Hz. destruct Hz as [<- | Hz].
      * apply Hasym; assumption.
      * rewrite List.Forall_forall in Hy. apply Hy, Hz.
    + constructor; [exact Hs | ].
      constructor; [exact Hxy | ].
      rewrite List.Forall_forall in *. intros z Hz.
      apply (Htrans x y z); auto.
Qed.

Lemma Array_sort_sorted (P : A -> Prop) (l : list A) :
  consistent P -> Forall P l -> sorted (Array_sort after l).
Proof.
  intros Hc. induction l as [ | x l IH]; simpl; intros HP.
  - constructor.
  - inversion HP as [ | ? ? Px HPl]; subst.
    apply (sort_insert_sorted P); [exact Hc | exact Px | | apply IH, HPl].
    apply List.Forall_forall. intros z Hz. apply (proj1 (Array_sort_In _ _)) in Hz.
    rewrite List.Forall_forall in HPl. auto.
Qed.

(** When the comparator is moreover a total order (two elements that
    it leaves alone both ways are the same), the result only depends on
    what the array holds, not on the order it holds it in. *)
Lemma sorted_perm_unique (l1 : list A) : forall l2 : list A,
  (forall x y, In x l1 -> In y l1 -> after x y = false -> after y x = false -> x = y) ->
  sorted l1 -> sorted l2 -> Permutation l1 l2 -> l1 = l2.
Proof.
  unfold sorted. induction l1 as [ | a l1 IH]; intros l2 Hanti H1 H2 Hp.
  - apply Permutation_nil in Hp. congruence.
  - destruct l2 as [ | b l2].
    + apply Permutation_sym, Permutation_nil in Hp. discriminate.
    + inversion H1 as [ | ? ? H1l H1a]; subst. inversion H2 as [ | ? ? H2l H2b]; subst.
      assert (Hab : a = b).
      { assert (Ha : In a (b :: l2)) by (apply (Permutation_in _ Hp); left; reflexivity).
        assert (Hb : In b (a :: l1))
          by (apply (Permutation_in _ (Permutation_sym Hp)); left; reflexivity).
        destruct Ha as [Ha | Ha]; [congruence | ].
        destruct Hb as [Hb | Hb]; [congruence | ].
        rewrite List.Forall_forall in H1a, H2b.
        apply Hanti; [left; reflexivity | right; exact Hb | auto | auto]. }
      subst b. f_equal. apply IH; auto.
      * intros x y Hx Hy. apply Hanti; right; assumption.
      * apply Permutation_cons_inv with a. exact Hp.
Qed.

Lemma Array_sort_perm_eq (P : A -> Prop) (l1 l2 : list A) :
  consistent P ->
  (forall x y, P x -> P y -> after x y = false -> after y x = false -> x = y) ->
  Forall P l1 -> Permutation l1 l2 ->
  Array_sort after l1 = Array_sort after l2.
Proof.
  intros Hc Hanti HP Hp.
  assert (HP2 : Forall P l2).
  { rewrite List.Forall_forall in *. intros x Hx. apply HP.
    apply (Permutation_in _ (Permutation_sym Hp)), Hx. }
  apply sorted_perm_unique.
  - intros x y Hx Hy. rewrite List.Forall_forall in HP.
    apply Hanti; apply HP; apply Array_sort_In; assumption.
  - apply (Array_sort_sorted P); assumption.
  - apply (Array_sort_sorted P); assumption.
  - rewrite !Array_sort_perm. exact Hp.
Qed.

End Sorting.
End SortFacts.

(** ** normalizeQuery *)

(** [{ ...query, providers }] *)
Definition with_providers (ps : list ProviderName) (query : SearchQuery.t)
  : SearchQuery.t :=
  {| SearchQuery.q := SearchQuery.q query;
     SearchQuery.providers := ps;
     SearchQuery.filters := SearchQuery.filters query;
     SearchQuery.limit := SearchQuery.limit query;
     SearchQuery.cacheTTL := SearchQuery.cacheTTL query |}.

(** [{ ...query, filters }] *)
Definition with_filters (fs : SearchFilters) (query : SearchQuery.t)
  : SearchQuery.t :=
  {| SearchQuery.q := SearchQuery.q query;
     SearchQuery.providers := SearchQuery.providers query;
     SearchQuery.filters := fs;
     SearchQuery.limit := SearchQuery.limit query;
     SearchQuery.cacheTTL := SearchQuery.cacheTTL query |}.

(** An object as [normalizeQuery] builds it: no key twice, no value
    [undefined]. *)
Definition stripped (o : SearchFilters) : Prop :=
  List.NoDup (map fst o) /\ Forall (fun kv => snd kv <> None) o.

Module NormalizeFacts.
Import JS Types.

Lemma default_after_consistent : SortFacts.consistent default_after (fun _ => True).
Proof.
  split.
  - intros [ | ] [ | ] _ _; vm_compute; congruence.
  - intros [ | ] [ | ] [ | ] _ _ _; vm_compute; congruence.
Qed.

Lemma default_after_total (x y : ProviderName) :
  default_after x y = false -> default_after y x = false -> x = y.
Proof. destruct x, y; vm_compute; congruence. Qed.

Lemma sort_providers_perm_eq (l1 l2 : list ProviderName) :
  Permutation l1 l2 -> Array_sort default_after l1 = Array_sort default_after l2.
Proof.
  intros Hp. apply (SortFacts.Array_sort_perm_eq default_after (fun _ => True)).
  - exact default_after_consistent.
  - intros x y _ _. apply default_after_total.
  - apply List.Forall_forall. intros; exact I.
  - exact Hp.
Qed.

Lemma obj_set_keys {V : Type} (k : string) (v : V) (o : list (string * V)) :
  map fst (obj_set k v o) =
  if in_dec string_dec k (map fst o) then map fst o else map fst o ++ [k].
Proof.
  induction o as [ | [k' v'] o IH]; simpl.
  - reflexivity.
  - destruct (String.eqb_spec k k') as [-> | Hne]; simpl.
    + destruct (string_dec k' k'); [reflexivity | congruence].
    + rewrite IH. destruct (string_dec k' k); [congruence | ].
      destruct (in_dec string_dec k (map fst o)); reflexivity.
Qed.

Lemma obj_set_fresh {V : Type} (k : string) (v : V) (o : list (string * V)) :
  ~ In k (map fst o) -> obj_set k v o = o ++ [(k, v)].
Proof.
  induction o as [ | [k' v'] o IH]; simpl; intros Hk.
  - reflexivity.
  - destruct (String.eqb_spec k k') as [-> | Hne].
    + exfalso. apply Hk. left. reflexivity.
    + f_equal. apply IH. intros Hin. apply Hk. right. exact Hin.
Qed.

Lemma obj_set_defined (k : string) (v : FilterValue) (o : SearchFilters) :
  Forall (fun kv => snd kv <> None) o ->
  Forall (fun kv => snd kv <> None) (obj_set k (Some v) o).
Proof.
  induction 1 as [ | [k' v'] o Hv Ho IH]; simpl.
  - constructor; [discriminate | constructor].
  - destruct (k =? k')%string; constructor; simpl; auto; discriminate.
Qed.

Lemma copy_defined_stripped (acc : SearchFilters) (kv : string * option FilterValue) :
  stripped acc -> stripped (copy_defined acc kv).
Proof.
  intros [Hnd Hdef]. unfold copy_defined. destruct (snd kv) as [v | ]; [ | split; assumption].
  split.
  - rewrite obj_set_keys. destruct (in_dec string_dec (fst kv) (map fst acc)) as [ | Hk].
    + exact Hnd.
    + apply List.NoDup_app; [exact Hnd | repeat constructor; simpl; tauto | ].
      intros x Hx [<- | []]. exact (Hk Hx).
  - apply obj_set_defined, Hdef.
Qed.

Lemma fold_copy_defined_stripped (fs acc : SearchFilters) :
  stripped acc -> stripped (fold_left copy_defined fs acc).
Proof.
  revert acc. induction fs as [ | kv fs IH]; simpl; intros acc Hacc.
  - exact Hacc.
  - apply IH, copy_defined_stripped, Hacc.
Qed.

(** Copying an object that is already stripped appends it as it is. *)
Lemma fold_copy_defined_id (o : SearchFilters) : forall acc : SearchFilters,
  stripped (acc ++ o) -> fold_left copy_defined o acc = acc ++ o.
Proof.
  induction o as [ | [k ov] o IH]; simpl; intros acc Hs.
  - symmetry. apply app_nil_r.
  - destruct Hs as [Hnd Hdef]. unfold copy_defined at 2. simpl.
    destruct ov as [v | ].
    + rewrite obj_set_fresh.
      * rewrite IH; rewrite <- app_assoc; [reflexivity | split; assumption].
      * rewrite map_app in Hnd. simpl in Hnd. apply List.NoDup_remove_2 in Hnd.
        intros Hin. apply Hnd. apply in_or_app. left. exact Hin.
    + exfalso. rewrite Forall_app in Hdef. destruct Hdef as [_ Hdef].
      inversion Hdef as [ | ? ? Hk _]; subst. apply Hk. reflexivity.
Qed.

Lemma normalized_filters_stripped (query : SearchQuery.t) :
  stripped (SearchQuery.filters (normalizeQuery query)).
Proof.
  simpl. apply fold_copy_defined_stripped. split; constructor.
Qed.

(** An entry whose value is [undefined] is as good as no entry. *)
Lemma fold_copy_defined_undefined (k : string) (fs1 fs2 acc : SearchFilters) :
  fold_left copy_defined (fs1 ++ (k, None) :: fs2) acc =
  fold_left copy_defined (fs1 ++ fs2) acc.
Proof. rewrite !fold_left_app. reflexivity. Qed.

Lemma normalizeQuery_perm_providers (query : SearchQuery.t) (ps : list ProviderName) :
  Permutation ps (SearchQuery.providers query) ->
  normalizeQuery (with_providers ps query) = normalizeQuery query.
Proof.
  intros Hp. unfold normalizeQuery, with_providers. simpl. f_equal.
  apply sort_providers_perm_eq, Hp.
Qed.

Lemma normalizeQuery_idempotent (query : SearchQuery.t) :
  normalizeQuery (normalizeQuery query) = normalizeQuery query.
Proof.
  unfold normalizeQuery at 1 3. f_equal.
  - apply sort_providers_perm_eq. simpl. apply SortFacts.Array_sort_perm.
  - apply (fold_copy_defined_id _ []). simpl app.
    apply normalized_filters_stripped.
Qed.

End NormalizeFacts.

(** C7: [normalizeQuery] is idempotent, and the order in which the
    caller lists the providers does not show in its result: reversing
    [query.providers] before normalising changes nothing. *)
Theorem normalizeQuery_idempotent_providers_order (query : SearchQuery.t) :
  Types.normalizeQuery (Types.normalizeQuery query) = Types.normalizeQuery query /\
  Types.normalizeQuery (with_providers (rev (SearchQuery.providers query)) query)
  = Types.normalizeQuery query.
Proof.
  split.
  - apply NormalizeFacts.normalizeQuery_idempotent.
  - apply NormalizeFacts.normalizeQuery_perm_providers.
    apply Permutation_sym, Permutation_rev.
Qed.

(** ** hashQuery *)

Module CacheKeyFacts.
Import Types Engine.

(** Two queries that differ in nothing but the order in which the
    caller wrote two filter keys. *)
Definition query_language_repo : SearchQuery.t :=
  {| SearchQuery.q := "nftables limit rate";
     SearchQuery.providers := [github; sourcegraph];
     SearchQuery.filters := [ ("language", Some (FString "yaml"));
                              ("repo", Some (FString "torvalds/linux")) ];
     SearchQuery.limit := 5;
     SearchQuery.cacheTTL := None |}.

Definition query_repo_language : SearchQuery.t :=
  with_filters [ ("repo", Some (FString "torvalds/linux"));
                 ("language", Some (FString "yaml")) ]
               query_language_repo.

(** The part of the cache-key contract that does hold: a filter that
    is explicitly [undefined] hashes like a filter that is left out. *)
Lemma hashQuery_ignores_undefined_filter
      (query : SearchQuery.t) (k : string) (fs1 fs2 : SearchFilters) :
  hashQuery (normalizeQuery (with_filters (fs1 ++ (k, None) :: fs2) query)) =
  hashQuery (normalizeQuery (with_filters (fs1 ++ fs2) query)).
Proof.
  unfold normalizeQuery, with_filters. simpl.
  rewrite NormalizeFacts.fold_copy_defined_undefined. reflexivity.
Qed.

Lemma hashQuery_ignores_providers_order (query : SearchQuery.t) :
  hashQuery (normalizeQuery (with_providers (rev (SearchQuery.providers query)) query)) =
  hashQuery (normalizeQuery query).
Proof.
  rewrite NormalizeFacts.normalizeQuery_perm_providers; [reflexivity | ].
  apply Permutation_sym, Permutation_rev.
Qed.

End CacheKeyFacts.

(** C2 (evaluation at the failing input): [normalizeQuery] copies the
    filter keys in the order the caller wrote them, [JSON.stringify]
    emits them in that order, and the two SHA-256 digests differ. *)
Theorem cache_key_depends_on_filter_key_order :
  JSON.stringify (Types.normalizeQuery CacheKeyFacts.query_language_repo) <>
  JSON.stringify (Types.normalizeQuery CacheKeyFacts.query_repo_language) /\
  Engine.hashQuery (Types.normalizeQuery CacheKeyFacts.query_language_repo) <>
  Engine.hashQuery (Types.normalizeQuery CacheKeyFacts.query_repo_language).
Proof.
  split; vm_compute; discriminate.
Qed.

(** ** aggregate: de-duplication and truncation *)

(** [r] is the first result of [results] that has its url. *)
Definition first_occurrence (r : SearchResult.t) (results : list SearchResult.t)
  : Prop :=
  exists before after,
    results = before ++ r :: after /\
    ~ In (SearchResult.url r) (map SearchResult.url before).

(** How many urls [results] holds, counted as the [Set] counts them. *)
Definition distinct_urls (results : list SearchResult.t) : nat :=
  size (list_to_set (map SearchResult.url results) : gset string).

Module AggregateFacts.
Import JS Aggregate.

Lemma unique_from_first (results : list SearchResult.t) :
  forall (seen : gset string) (r : SearchResult.t),
    In r (unique_from seen results) <->
    exists before after,
      results = before ++ r :: after /\
      ~ In (SearchResult.url r) (map SearchResult.url before) /\
      SearchResult.url r ∉ seen.
Proof.
  induction results as [ | a results IH]; intros seen r; simpl.
  - split; [contradiction | ]. intros (before & after & Heq & _).
    destruct before; discriminate.
  - destruct (decide (SearchResult.url a ∈ seen)) as [Hin | Hnin].
    + rewrite IH. split.
      * intros (before & after & -> & Hb & Hs). exists (a :: before), after.
        split; [reflexivity | split; [ | exact Hs]].
        simpl. intros [Heq | Hb']; [ | exact (Hb Hb')]. apply Hs. rewrite <- Heq. exact Hin.
      * intros (before & after & Heq & Hb & Hs). destruct before as [ | b before].
        { simpl in Heq. injection Heq as -> _. contradiction. }
        simpl in Heq. injection Heq as -> ->. exists before, after.
        split; [reflexivity | split; [ | exact Hs]].
        intros Hb'. apply Hb. right. exact Hb'.
    + simpl. rewrite IH. split.
      * intros [<- | (before & after & -> & Hb & Hs)].
        { exists [], results. split; [reflexivity | split; [simpl; tauto | exact Hnin]]. }
        exists (a :: before), after. split; [reflexivity | split].
        { simpl. intros [Heq | Hb']; [ | exact (Hb Hb')]. apply Hs. set_solver. }
        set_solver.
      * intros (before & after & Heq & Hb & Hs). destruct before as [ | b before].
        { simpl in Heq. injection Heq as -> _. left. reflexivity. }
        simpl in Heq. injection Heq as -> ->. right. exists before, after.
        split; [reflexivity | split].
        { intros Hb'. apply Hb. right. exact Hb'. }
        assert (SearchResult.url r <> SearchResult.url b)
          by (intros Heq; apply Hb; left; symmetry; exact Heq).
        set_solver.
Qed.

Lemma unique_first (results : list SearchResult.t) (r : SearchResult.t) :
  In r (unique results) <-> first_occurrence r results.
Proof.
  unfold unique, first_occurrence. rewrite unique_from_first.
  split; intros (before & after & Heq & Hb); exists before, after.
  - tauto.
  - split; [exact Heq | split; [exact Hb | set_solver]].
Qed.

Lemma unique_from_urls_NoDup (results : list SearchResult.t) :
  forall seen : gset string,
    List.NoDup (map SearchResult.url (unique_from seen results)).
Proof.
  induction results as [ | a results IH]; intros seen; simpl.
  - constructor.
  - destruct (decide (SearchResult.url a ∈ seen)); [apply IH | ].
    simpl. constructor; [ | apply IH].
    intros Hin. apply in_map_iff in Hin as (r & Hr & Hin).
    apply unique_from_first in Hin as (_ & _ & _ & _ & Hs).
    apply Hs. rewrite Hr. set_solver.
Qed.

Lemma size_difference_fresh (x : string) (X seen : gset string) :
  x ∉ seen ->
  size (({[x]} ∪ X) ∖ seen) = S (size (X ∖ ({[x]} ∪ seen))).
Proof.
  intros Hx.
  assert (Heq : ({[x]} ∪ X) ∖ seen = {[x]} ∪ (X ∖ ({[x]} ∪ seen))).
  { apply set_eq. intros y. destruct (decide (y = x)); set_solver. }
  rewrite Heq, size_union; [rewrite size_singleton; reflexivity | set_solver].
Qed.

Lemma unique_from_length (results : list SearchResult.t) :
  forall seen : gset string,
    List.length (unique_from seen results) =
    size (list_to_set (map SearchResult.url results) ∖ seen : gset string).
Proof.
  induction results as [ | a results IH]; intros seen; simpl.
  - rewrite difference_disjoint_L by set_solver. symmetry. apply size_empty.
  - destruct (decide (SearchResult.url a ∈ seen)) as [Hin | Hnin].
    + rewrite IH. f_equal. set_solver.
    + simpl. rewrite IH. symmetry. apply size_difference_fresh, Hnin.
Qed.

Lemma unique_length (results : list SearchResult.t) :
  List.length (unique results) = distinct_urls results.
Proof.
  unfold unique, distinct_urls. rewrite unique_from_length. f_equal. set_solver.
Qed.

Lemma unique_length_le (results : list SearchResult.t) :
  (List.length (unique results) <= List.length results)%nat.
Proof.
  unfold unique. generalize (∅ : gset string).
  induction results as [ | a results IH]; intros seen; simpl; [lia | ].
  destruct (decide _); simpl.
  - specialize (IH seen). lia.
  - specialize (IH ({[SearchResult.url a]} ∪ seen)). lia.
Qed.

Section Ranked.
Context `{Host}.

(** The surviving results in ranked order, before truncation. *)
Definition ranking (results : list SearchResult.t) : list SearchResult.t :=
  map fst (ranked results).

Lemma ranking_perm (results : list SearchResult.t) :
  Permutation (ranking results) (unique results).
Proof.
  unfold ranking, ranked.
  rewrite (SortFacts.Array_sort_perm rank_after). rewrite map_map. simpl.
  rewrite map_id. reflexivity.
Qed.

Lemma aggregate_slice (results : list SearchResult.t) (limit : Z) :
  aggregate results limit = Array_slice0 (ranking results) limit.
Proof.
  unfold aggregate, ranking, Array_slice0. rewrite length_map.
  destruct (limit <? 0); symmetry; apply firstn_map.
Qed.

Lemma Array_slice0_pos {A : Type} (l : list A) (k : Z) :
  0 <= k -> Array_slice0 l k = firstn (Z.to_nat k) l.
Proof.
  intros Hk. unfold Array_slice0. destruct (Z.ltb_spec k 0); [lia | reflexivity].
Qed.

Lemma Array_slice0_incl {A : Type} (l : list A) (k : Z) (x : A) :
  In x (Array_slice0 l k) -> In x l.
Proof.
  unfold Array_slice0. destruct (k <? 0); intros Hx;
    match type of Hx with
    | In _ (firstn ?n _) => rewrite <- (firstn_skipn n l)
    end; apply in_or_app; left; exact Hx.
Qed.

Lemma ranking_length (results : list SearchResult.t) :
  List.length (ranking results) = distinct_urls results.
Proof.
  rewrite (Permutation_length (ranking_perm results)). apply unique_length.
Qed.

Lemma ranking_urls_NoDup (results : list SearchResult.t) :
  List.NoDup (map SearchResult.url (ranking results)).
Proof.
  apply (Permutation_NoDup (l := map SearchResult.url (unique results))).
  - apply Permutation_map, Permutation_sym, ranking_perm.
  - apply unique_from_urls_NoDup.
Qed.

Lemma ranking_NoDup (results : list SearchResult.t) : List.NoDup (ranking results).
Proof. exact (NoDup_map_inv _ _ (ranking_urls_NoDup results)). Qed.

Lemma firstn_NoDup {A : Type} (n : nat) (l : list A) :
  List.NoDup l -> List.NoDup (firstn n l).
Proof.
  intros Hl. rewrite <- (firstn_skipn n l) in Hl.
  exact (List.NoDup_app_remove_r _ _ Hl).
Qed.

Lemma Array_slice0_NoDup {A : Type} (l : list A) (k : Z) :
  List.NoDup l -> List.NoDup (Array_slice0 l k).
Proof. unfold Array_slice0. destruct (k <? 0); apply firstn_NoDup. Qed.

Lemma Array_slice0_map {A B : Type} (f : A -> B) (l : list A) (k : Z) :
  map f (Array_slice0 l k) = Array_slice0 (map f l) k.
Proof.
  unfold Array_slice0. rewrite length_map. destruct (k <? 0); symmetry; apply firstn_map.
Qed.

Lemma Array_slice0_all {A : Type} (l : list A) (k : Z) :
  Z.of_nat (List.length l) <= k -> Array_slice0 l k = l.
Proof.
  intros Hk. rewrite Array_slice0_pos by lia. apply firstn_all2. lia.
Qed.

End Ranked.
End AggregateFacts.

(** ** aggregate: the ranking *)

(** Whether [precedes] survives a prefix and a map. *)
Lemma precedes_map {A B : Type} (f : A -> B) (x y : A) (l : list A) :
  precedes x y l -> precedes (f x) (f y) (map f l).
Proof.
  induction 1 as [l Hy | a l _ IH]; simpl.
  - apply precedes_here, in_map, Hy.
  - apply precedes_later, IH.
Qed.

Lemma precedes_firstn {A : Type} (x y : A) (l : list A) :
  precedes x y l -> List.NoDup l ->
  forall n, In y (firstn n l) -> precedes x y (firstn n l).
Proof.
  induction 1 as [l Hy | a l Hp IH]; intros Hnd [ | n]; simpl; try contradiction;
    inversion Hnd as [ | ? ? Hnotin Hnd']; subst.
  - intros [<- | Hin]; [contradiction | ]. apply precedes_here, Hin.
  - intros [<- | Hin].
    + exfalso. apply Hnotin. apply (SortFacts.precedes_In _ _ _ Hp).
    + apply precedes_later, IH; assumption.
Qed.

Lemma StronglySorted_app_inv {A : Type} (R : A -> A -> Prop) (l1 l2 : list A) :
  StronglySorted R (l1 ++ l2) ->
  StronglySorted R l1 /\ forall x y, In x l1 -> In y l2 -> R x y.
Proof.
  induction l1 as [ | a l1 IH]; simpl; intros Hs.
  - split; [constructor | contradiction].
  - inversion Hs as [ | ? ? Hs' Ha]; subst. destruct (IH Hs') as [IH1 IH2].
    rewrite List.Forall_forall in Ha. split.
    + constructor; [exact IH1 | ].
      apply List.Forall_forall. intros z Hz. apply Ha, in_or_app. left. exact Hz.
    + intros x y [<- | Hx] Hy; [apply Ha, in_or_app; right; exact Hy | auto].
Qed.

Lemma StronglySorted_map_weaken {A B : Type} (R : A -> A -> Prop) (R' : B -> B -> Prop)
      (P : A -> Prop) (f : A -> B) (l : list A) :
  (forall x y, P x -> P y -> R x y -> R' (f x) (f y)) ->
  Forall P l -> StronglySorted R l -> StronglySorted R' (map f l).
Proof.
  intros Himp. induction l as [ | a l IH]; simpl; intros HP Hs.
  - constructor.
  - inversion HP as [ | ? ? Pa HPl]; subst. inversion Hs as [ | ? ? Hs' Ha]; subst.
    constructor; [apply IH; assumption | ].
    rewrite List.Forall_forall in *. intros b Hb.
    apply in_map_iff in Hb as (y & <- & Hy). auto.
Qed.

Module RankFacts.
Import JS Aggregate AggregateFacts.

Section Ranked.
Context `{Host}.

(** A ranked result whose [_rank] is the rank of the result and a
    number. *)
Definition numeric (p : SearchResult.t * float) : Prop :=
  snd p = rank (fst p) /\ isNaN (snd p) = false.

Lemma rank_after_ord (a b : SearchResult.t * float) :
  numeric a -> numeric b ->
  rank_after a b = (FloatFacts.ord (snd a) <? FloatFacts.ord (snd b)).
Proof.
  intros [_ Ha] [_ Hb]. unfold rank_after. apply FloatFacts.sub_is_pos; assumption.
Qed.

Lemma rank_after_consistent : SortFacts.consistent rank_after numeric.
Proof.
  split.
  - intros x y Hx Hy. rewrite !rank_after_ord by assumption.
    intros Hlt. apply Z.ltb_lt in Hlt. apply Z.ltb_ge. lia.
  - intros x y z Hx Hy Hz. rewrite !rank_after_ord by assumption.
    intros H1 H2. apply Z.ltb_ge in H1, H2. apply Z.ltb_ge. lia.
Qed.

Lemma unique_from_incl (results : list SearchResult.t) (seen : gset string) (r : SearchResult.t) :
  In r (unique_from seen results) -> In r results.
Proof.
  intros Hr. apply unique_from_first in Hr as (before & after & -> & _).
  apply in_or_app. right. left. reflexivity.
Qed.

Lemma with_rank_numeric (results : list SearchResult.t) :
  Forall (fun r => isNaN (rank r) = false) results ->
  Forall numeric (map with_rank (unique results)).
Proof.
  rewrite !List.Forall_forall. intros Hn p Hp.
  apply in_map_iff in Hp as (r & <- & Hr). split; [reflexivity | ].
  apply Hn. exact (unique_from_incl _ _ _ Hr).
Qed.

Lemma ranked_numeric (results : list SearchResult.t) :
  Forall (fun r => isNaN (rank r) = false) results ->
  Forall numeric (ranked results).
Proof.
  intros Hn. apply with_rank_numeric in Hn. rewrite List.Forall_forall in *.
  intros p Hp. apply Hn. apply (SortFacts.Array_sort_In rank_after). exact Hp.
Qed.

Lemma ranking_descending (results : list SearchResult.t) :
  Forall (fun r => isNaN (rank r) = false) results ->
  StronglySorted (fun a b => PrimFloat.leb (rank b) (rank a) = true) (ranking results).
Proof.
  intros Hn. unfold ranking.
  apply (StronglySorted_map_weaken (fun a b => rank_after a b = false) _ numeric).
  - intros x y Hx Hy. rewrite rank_after_ord by assumption.
    destruct Hx as [Ex Nx], Hy as [Ey Ny]. rewrite <- Ex, <- Ey.
    rewrite FloatFacts.leb_ord by assumption.
    intros Hge. apply Z.ltb_ge in Hge. apply Z.leb_le. exact Hge.
  - apply ranked_numeric, Hn.
  - apply (SortFacts.Array_sort_sorted rank_after numeric).
    + exact rank_after_consistent.
    + apply with_rank_numeric, Hn.
Qed.

Lemma ranking_stable (results : list SearchResult.t) (a b : SearchResult.t) :
  isNaN (rank a) = false -> isNaN (rank b) = false ->
  precedes a b (unique results) ->
  PrimFloat.ltb (rank a) (rank b) = false ->
  precedes a b (ranking results).
Proof.
  intros Na Nb Hp Hge. unfold ranking, ranked.
  apply (precedes_map fst (with_rank a) (with_rank b)).
  apply SortFacts.Array_sort_stable.
  - apply precedes_map, Hp.
  - rewrite rank_after_ord by (split; [reflexivity | assumption]).
    simpl. rewrite <- FloatFacts.ltb_ord by assumption. exact Hge.
Qed.

Lemma unique_pair (a b : SearchResult.t) :
  SearchResult.url a <> SearchResult.url b -> unique [a; b] = [a; b].
Proof.
  intros Hne. unfold unique. simpl.
  destruct (decide (SearchResult.url a ∈ (∅ : gset string))) as [Hin | _]; [set_solver | ].
  destruct (decide (SearchResult.url b ∈ ({[SearchResult.url a]} ∪ ∅ : gset string)))
    as [Hin | _]; [ | reflexivity].
  exfalso. apply Hne. set_solver.
Qed.

(** Two results with different urls come out in input order unless the
    second ranks strictly higher. *)
Lemma aggregate_pair (a b : SearchResult.t) (limit : Z) :
  SearchResult.url a <> SearchResult.url b ->
  isNaN (rank a) = false -> isNaN (rank b) = false -> 2 <= limit ->
  aggregate [a; b] limit = if PrimFloat.ltb (rank a) (rank b) then [b; a] else [a; b].
Proof.
  intros Hne Na Nb Hk. unfold aggregate, ranked. rewrite (unique_pair a b Hne).
  rewrite Array_slice0_pos by lia. simpl Array_sort.
  rewrite (rank_after_ord (with_rank a) (with_rank b))
    by (split; [reflexivity | assumption]).
  simpl snd. rewrite <- FloatFacts.ltb_ord by assumption.
  destruct (Z.to_nat limit) as [ | [ | n]] eqn:Hn; try lia.
  destruct (PrimFloat.ltb (rank a) (rank b)); destruct n; simpl; reflexivity.
Qed.

Lemma ltb_asym (x y : float) :
  isNaN x = false -> isNaN y = false ->
  PrimFloat.ltb x y = true -> PrimFloat.ltb y x = false.
Proof.
  intros Nx Ny. rewrite !FloatFacts.ltb_ord by assumption.
  intros Hlt. apply Z.ltb_lt in Hlt. apply Z.ltb_ge. lia.
Qed.

Lemma eqb_not_ltb (x y : float) :
  isNaN x = false -> isNaN y = false ->
  PrimFloat.eqb x y = true -> PrimFloat.ltb x y = false.
Proof.
  intros Nx Ny. rewrite FloatFacts.eqb_ord, FloatFacts.ltb_ord by assumption.
  intros Heq. apply Z.eqb_eq in Heq. apply Z.ltb_ge. lia.
Qed.

End Ranked.
End RankFacts.

(** *** Sample data

    A host whose [Math.log] returns, on the arguments the samples need,
    the double nearest to the logarithm. *)
Module Samples.

Definition sample_log (x : float) : float :=
  if PrimFloat.eqb x 11 then 0x1.32ee3b77f374cp+1%float         (* 2.39789527... *)
  else if PrimFloat.eqb x 10001 then 0x1.26bbed6fbd842p+3%float (* 9.21044036... *)
  else if PrimFloat.eqb x 101 then 0x1.275e2271bba31p+2%float   (* 4.61512051... *)
  else 0%float.

Definition host : JS.Host := {| JS.Math_log := sample_log |}.

(** The doubles the literals [0.9] and [0.5] denote. *)
Definition score_09 : float := 0x1.ccccccccccccdp-1%float.
Definition score_05 : float := 0x1p-1%float.

Definition result (url : string) (provider : ProviderName) (stars score : float)
  : SearchResult.t :=
  {| SearchResult.url := url;
     SearchResult.rawUrl := url;
     SearchResult.repo := "owner/repo";
     SearchResult.path := "file.ts";
     SearchResult.lines := (1, 3);
     SearchResult.snippet := "code";
     SearchResult.language := "ts";
     SearchResult.stars := stars;
     SearchResult.provider := provider;
     SearchResult.score := score |}.

Definition A : SearchResult.t := result "https://github.com/a" github 10 score_09.
Definition B : SearchResult.t := result "https://github.com/b" github 10000 score_05.
(** [A] again, as the other provider reports it. *)
Definition A' : SearchResult.t := result "https://github.com/a" sourcegraph 100 score_05.
(** Another file that ranks exactly like [A]. *)
Definition D : SearchResult.t := result "https://github.com/d" sourcegraph 10 score_09.

Definition results : list SearchResult.t := [A; B; A'; D].

End Samples.


(** C4: [aggregate] de-duplicates by [url] and keeps the first
    occurrence in input order.  Every result it returns is a result of the
    input, unchanged in all its fields, and the first one with its
    url; no url is returned twice; and when the limit does not truncate,
    every first occurrence is returned.  A later result with a url seen
    before never shows, whatever its provider, score or stars. *)
Theorem aggregate_keeps_first_occurrence
        `{JS.Host} (results : list SearchResult.t) (limit : Z) :
  (forall r, In r (Aggregate.aggregate results limit) -> first_occurrence r results) /\
  List.NoDup (map SearchResult.url (Aggregate.aggregate results limit)) /\
  (Z.of_nat (List.length results) <= limit ->
   forall r, first_occurrence r results -> In r (Aggregate.aggregate results limit)).
Proof.
  rewrite AggregateFacts.aggregate_slice. repeat split.
  - intros r Hr. apply AggregateFacts.unique_first.
    apply AggregateFacts.Array_slice0_incl in Hr.
    exact (Permutation_in _ (AggregateFacts.ranking_perm results) Hr).
  - rewrite AggregateFacts.Array_slice0_map.
    apply AggregateFacts.Array_slice0_NoDup, AggregateFacts.ranking_urls_NoDup.
  - intros Hlimit r Hr. rewrite AggregateFacts.Array_slice0_all.
    + apply AggregateFacts.unique_first in Hr.
      exact (Permutation_in _ (Permutation_sym (AggregateFacts.ranking_perm results)) Hr).
    + rewrite (Permutation_length (AggregateFacts.ranking_perm results)).
      pose proof (AggregateFacts.unique_length_le results). lia.
Qed.

(** C5: [aggregate] returns the surviving results in descending order of
    [score * Math.log(stars + 1)], and two survivors whose ranks are
    equal keep the order they had after de-duplication.  In particular,
    for [A] (score 0.9, 10 stars) and [B] (score 0.5, 10000 stars), [B] is
    returned above [A] whenever [0.9 * Math.log(11) < 0.5 * Math.log(10001)],
    and, when [A] comes first in the input, only then.  The ranks are
    numbers: none is [NaN]. *)
Theorem aggregate_ranks_descending_stable
        `{JS.Host} (results : list SearchResult.t) (limit : Z) :
  Forall (fun r => JS.isNaN (Aggregate.rank r) = false) results ->
  StronglySorted
    (fun a b => PrimFloat.leb (Aggregate.rank b) (Aggregate.rank a) = true)
    (Aggregate.aggregate results limit) /\
  (forall a b,
      precedes a b (Aggregate.unique results) ->
      PrimFloat.eqb (Aggregate.rank a) (Aggregate.rank b) = true ->
      In b (Aggregate.aggregate results limit) ->
      precedes a b (Aggregate.aggregate results limit)) /\
  (forall A B k,
      SearchResult.score A = Samples.score_09 -> SearchResult.stars A = 10%float ->
      SearchResult.score B = Samples.score_05 -> SearchResult.stars B = 10000%float ->
      SearchResult.url A <> SearchResult.url B ->
      JS.isNaN (Aggregate.rank A) = false -> JS.isNaN (Aggregate.rank B) = false ->
      2 <= k ->
      let B_outranks_A :=
        PrimFloat.ltb (PrimFloat.mul Samples.score_09 (JS.Math_log 11))
                      (PrimFloat.mul Samples.score_05 (JS.Math_log 10001)) = true in
      (Aggregate.aggregate [A; B] k = [B; A] <-> B_outranks_A) /\
      (B_outranks_A -> Aggregate.aggregate [B; A] k = [B; A])).
Proof.
  intros Hn. rewrite AggregateFacts.aggregate_slice.
  pose proof (RankFacts.ranking_descending results Hn) as Hsorted.
  assert (Hk : exists n, JS.Array_slice0 (AggregateFacts.ranking results) limit
                         = firstn n (AggregateFacts.ranking results))
    by (unfold JS.Array_slice0; destruct (limit <? 0); eexists; reflexivity).
  destruct Hk as [n ->]. repeat split.
  - rewrite <- (firstn_skipn n (AggregateFacts.ranking results)) in Hsorted.
    exact (proj1 (StronglySorted_app_inv _ _ _ Hsorted)).
  - intros a b Hp Heq Hb.
    assert (Na : JS.isNaN (Aggregate.rank a) = false /\ JS.isNaN (Aggregate.rank b) = false).
    { rewrite List.Forall_forall in Hn.
      destruct (SortFacts.precedes_In _ _ _ Hp) as [Ha Hb'].
      split; apply Hn; eapply RankFacts.unique_from_incl; eassumption. }
    destruct Na as [Na Nb].
    apply precedes_firstn; [ | apply AggregateFacts.ranking_NoDup | exact Hb].
    apply RankFacts.ranking_stable; try assumption.
    apply RankFacts.eqb_not_ltb; assumption.
  - rewrite (RankFacts.aggregate_pair A B k) by assumption.
    unfold Aggregate.rank at 1 2. rewrite H0, H1, H2, H3.
    change (PrimFloat.add 10 1) with 11%float.
    change (PrimFloat.add 10000 1) with 10001%float.
    intros Heq. destruct (PrimFloat.ltb _ _); [reflexivity | ].
    exfalso. apply H4. congruence.
  - rewrite (RankFacts.aggregate_pair A B k) by assumption.
    unfold Aggregate.rank at 1 2. rewrite H0, H1, H2, H3.
    change (PrimFloat.add 10 1) with 11%float.
    change (PrimFloat.add 10000 1) with 10001%float.
    intros ->. reflexivity.
  - intros Hlt. rewrite (RankFacts.aggregate_pair B A k) by (try assumption; congruence).
    rewrite RankFacts.ltb_asym; [reflexivity | assumption | assumption | ].
    unfold Aggregate.rank. rewrite H0, H1, H2, H3. exact Hlt.
Qed.

Lemma aggregate_ranks_descending_stable_witness :
  Forall (fun r => JS.isNaN (@Aggregate.rank Samples.host r) = false) Samples.results /\
  StronglySorted
    (fun a b => PrimFloat.leb (@Aggregate.rank Samples.host b)
                              (@Aggregate.rank Samples.host a) = true)
    (@Aggregate.aggregate Samples.host Samples.results 10) /\
  precedes Samples.A Samples.D (@Aggregate.aggregate Samples.host Samples.results 10) /\
  @Aggregate.aggregate Samples.host [Samples.A; Samples.B] 10 = [Samples.B; Samples.A].
Proof.
  assert (Hn : Forall (fun r => JS.isNaN (@Aggregate.rank Samples.host r) = false)
                      Samples.results)
    by (repeat constructor).
  destruct (@aggregate_ranks_descending_stable Samples.host Samples.results 10 Hn)
    as (Hsorted & Hstable & Hpair).
  split; [exact Hn | split; [exact Hsorted | split]].
  - apply Hstable.
    + let u := eval vm_compute in (Aggregate.unique Samples.results) in
      change (Aggregate.unique Samples.results) with u.
      apply precedes_here. right. left. reflexivity.
    + reflexivity.
    + vm_compute. auto.
  - apply (Hpair Samples.A Samples.B 10); try reflexivity; try discriminate; try lia.
Defined.

(** C6: for a positive limit [k], [aggregate(results, k)] returns exactly
    [min(k, number of distinct urls)] entries; they are the first [k] of
    the full ranked order (what [aggregate] returns when nothing is
    cut off), and, the ranks being numbers, no survivor that was cut off
    ranks above one that was returned. *)
Theorem aggregate_limit_prefix
        `{JS.Host} (results : list SearchResult.t) (k : Z) :
  0 < k ->
  List.length (Aggregate.aggregate results k)
  = Nat.min (Z.to_nat k) (distinct_urls results) /\
  Aggregate.aggregate results k
  = firstn (Z.to_nat k)
           (Aggregate.aggregate results (Z.of_nat (List.length results))) /\
  (Forall (fun r => JS.isNaN (Aggregate.rank r) = false) results ->
   forall kept cut,
     In kept (Aggregate.aggregate results k) ->
     In cut (Aggregate.unique results) ->
     ~ In cut (Aggregate.aggregate results k) ->
     PrimFloat.leb (Aggregate.rank cut) (Aggregate.rank kept) = true).
Proof.
  intros Hk. rewrite !AggregateFacts.aggregate_slice.
  rewrite (AggregateFacts.Array_slice0_pos _ k) by lia.
  rewrite (AggregateFacts.Array_slice0_all _ (Z.of_nat (List.length results))).
  2:{ rewrite (Permutation_length (AggregateFacts.ranking_perm results)).
      pose proof (AggregateFacts.unique_length_le results). lia. }
  split; [ | split].
  - rewrite length_firstn, AggregateFacts.ranking_length. reflexivity.
  - reflexivity.
  - intros Hn kept cut Hkept Hcut Hnot.
    pose proof (RankFacts.ranking_descending results Hn) as Hsorted.
    rewrite <- (firstn_skipn (Z.to_nat k) (AggregateFacts.ranking results)) in Hsorted.
    apply StronglySorted_app_inv in Hsorted as [_ Hcross].
    apply (Hcross kept cut Hkept).
    apply (Permutation_in _ (Permutation_sym (AggregateFacts.ranking_perm results))) in Hcut.
    rewrite <- (firstn_skipn (Z.to_nat k) (AggregateFacts.ranking results)) in Hcut.
    apply in_app_or in Hcut as [Hcut | Hcut]; [contradiction | exact Hcut].
Qed.

Lemma aggregate_limit_prefix_witness :
  0 < 2 /\
  List.length (@Aggregate.aggregate Samples.host Samples.results 2)
  = Nat.min (Z.to_nat 2) (distinct_urls Samples.results) /\
  @Aggregate.aggregate Samples.host Samples.results 2 = [Samples.B; Samples.A].
Proof.
  split; [lia | ].
  destruct (@aggregate_limit_prefix Samples.host Samples.results 2 ltac:(lia))
    as (Hlen & Hprefix & _).
  split; [exact Hlen | ]. rewrite Hprefix. reflexivity.
Defined.

(** ** The cache table *)

Module CacheFacts.
Import Async SqliteCacheRepository.

(** The row [set] writes. *)
Definition row_written (value : SearchResponse.t) (ttlSec : Z) (w : World.t)
  : CacheRow.t :=
  {| CacheRow.value := value;
     CacheRow.created_at := World.clock w (World.ticks w) / 1000;
     CacheRow.expires_at := World.clock w (World.ticks w) / 1000 + ttlSec |}.

Lemma set_run (key : string) (value : SearchResponse.t) (ttlSec : Z) (w : World.t) :
  set key value ttlSec w =
  if World.faults w (World.ticks w) then (rejected SqliteError, World.tick w)
  else (fulfilled tt,
        World.set_cache (<[ key := row_written value ttlSec w ]> (World.cache w))
                        (World.tick w)).
Proof.
  unfold set, bind, now_seconds, statement. simpl.
  destruct (World.faults w (World.ticks w)); reflexivity.
Qed.

Lemma get_run (key : string) (w : World.t) :
  get key w =
  if World.faults w (World.ticks w) then (rejected SqliteError, World.tick w)
  else (fulfilled (select key (World.clock w (World.ticks w) / 1000) w), World.tick w).
Proof.
  unfold get, bind, now_seconds, statement. simpl.
  destruct (World.faults w (World.ticks w)); reflexivity.
Qed.

End CacheFacts.

(** A healthy database and a clock that does not run backwards. *)
Definition healthy (w : World.t) : Prop := forall n, World.faults w n = false.
Definition monotone (w : World.t) : Prop :=
  forall i j, (i <= j)%nat -> World.clock w i <= World.clock w j.

(** C8: on a healthy database [set] succeeds and upserts: the row of the
    key is the one written last, the other keys keep theirs.  [get]
    answers [null] for a stored row whose [expires_at] is not strictly
    after the second it is asked in, and changes no row.  So, the clock
    not running backwards, an entry set with [ttlSec <= 0] is expired
    from the start: the [get] that follows misses. *)
Theorem cache_set_get_expiry
        (w : World.t) (key : string) (value : SearchResponse.t) (ttlSec : Z) :
  healthy w -> monotone w ->
  let w1 := snd (SqliteCacheRepository.set key value ttlSec w) in
  fst (SqliteCacheRepository.set key value ttlSec w) = fulfilled tt /\
  World.cache w1 !! key = Some (CacheFacts.row_written value ttlSec w) /\
  (forall other, other <> key -> World.cache w1 !! other = World.cache w !! other) /\
  (forall value2 ttl2,
      World.cache (snd (SqliteCacheRepository.set key value2 ttl2 w1)) !! key
      = Some (CacheFacts.row_written value2 ttl2 w1)) /\
  (forall (w' : World.t) row,
      healthy w' -> World.cache w' !! key = Some row ->
      CacheRow.expires_at row <= World.clock w' (World.ticks w') / 1000 ->
      fst (SqliteCacheRepository.get key w') = fulfilled None) /\
  (forall w' : World.t,
      World.cache (snd (SqliteCacheRepository.get key w')) = World.cache w') /\
  (ttlSec <= 0 -> fst (SqliteCacheRepository.get key w1) = fulfilled None).
Proof.
  intros Hh Hm w1. subst w1. rewrite !CacheFacts.set_run, Hh. simpl.
  split; [reflexivity | ]. split; [apply lookup_insert_eq | ].
  split; [intros other Hne; apply lookup_insert_ne; congruence | ].
  split.
  { intros value2 ttl2. rewrite CacheFacts.set_run. simpl. rewrite Hh. simpl.
    apply lookup_insert_eq. }
  split.
  { intros w' row Hh' Hrow Hexp. rewrite CacheFacts.get_run, Hh'. simpl.
    unfold SqliteCacheRepository.select. rewrite Hrow.
    destruct (Z.gtb_spec (CacheRow.expires_at row) (World.clock w' (World.ticks w') / 1000));
      [lia | reflexivity]. }
  split.
  { intros w'. rewrite CacheFacts.get_run.
    destruct (World.faults w' (World.ticks w')); reflexivity. }
  intros Httl. rewrite CacheFacts.get_run. simpl. rewrite Hh. simpl.
  unfold SqliteCacheRepository.select. simpl. rewrite lookup_insert_eq. simpl.
  pose proof (Hm (World.ticks w) (S (World.ticks w)) ltac:(lia)) as Hclock.
  pose proof (Z.div_le_mono _ _ 1000 ltac:(lia) Hclock) as Hsec.
  destruct (Z.gtb_spec (World.clock w (World.ticks w) / 1000 + ttlSec)
                       (World.clock w (S (World.ticks w)) / 1000));
    [lia | reflexivity].
Qed.

(** ** search *)

Module EngineFacts.
Import Async Engine.

(** What the promises of the active providers settle to: the [n]-th
    adapter invocation of the world answers for the first of them, the
    next for the second, and so on. *)
Fixpoint settle_all (normalized : SearchQuery.t) (n : nat) (ps : list Provider.t)
  : list (Settled (list SearchResult.t)) :=
  match ps with
  | [] => []
  | p :: rest => Provider.search p normalized n :: settle_all normalized (S n) rest
  end.

(** The accumulators after the loop over the settlements. *)
Definition values_of (items : list (Settled (list SearchResult.t) * Provider.t))
  : list SearchResult.t :=
  flat_map (fun sp => match fst sp with
                      | fulfilled value => value
                      | rejected _ => []
                      end) items.

Definition errors_of (items : list (Settled (list SearchResult.t) * Provider.t))
  : list ProviderError.t :=
  flat_map (fun sp => match fst sp with
                      | fulfilled _ => []
                      | rejected err => [toProviderError (snd sp) err]
                      end) items.

(** What a step may change besides the metrics table and the clock's
    position: nothing. *)
Definition frame (w w' : World.t) : Prop :=
  World.clock w' = World.clock w /\ World.faults w' = World.faults w /\
  World.cache w' = World.cache w /\ World.calls w' = World.calls w.

Lemma frame_refl (w : World.t) : frame w w.
Proof. repeat split. Qed.

Lemma frame_trans (w1 w2 w3 : World.t) : frame w1 w2 -> frame w2 w3 -> frame w1 w3.
Proof.
  intros (A1 & A2 & A3 & A4) (B1 & B2 & B3 & B4).
  repeat split; congruence.
Qed.

Lemma Date_now_run (w : World.t) :
  Date_now w = (fulfilled (World.clock w (World.ticks w)), World.tick w).
Proof. reflexivity. Qed.

Lemma record_swallowed (m : MetricRecord.t) (w : World.t) :
  exists w', catch (SqliteMetrics.record m) swallow w = (fulfilled tt, w') /\
             frame w w' /\ World.ticks w' = S (World.ticks w).
Proof.
  unfold catch, SqliteMetrics.record, bind, now_seconds, statement, swallow, ret. simpl.
  destruct (World.faults w (World.ticks w)); eexists; split; try reflexivity;
    repeat split.
Qed.

Lemma lookup_run (key : string) (w : World.t) :
  catch (SqliteCacheRepository.get key) (fun _ => ret None) w =
  (fulfilled (if World.faults w (World.ticks w) then None
              else SqliteCacheRepository.select key
                     (World.clock w (World.ticks w) / 1000) w),
   World.tick w).
Proof.
  unfold catch. rewrite CacheFacts.get_run.
  destruct (World.faults w (World.ticks w)); reflexivity.
Qed.

Lemma store_swallowed (key : string) (value : SearchResponse.t) (ttlSec : Z) (w : World.t) :
  catch (SqliteCacheRepository.set key value ttlSec) swallow w =
  (fulfilled tt,
   if World.faults w (World.ticks w) then World.tick w
   else World.set_cache (<[ key := CacheFacts.row_written value ttlSec w ]> (World.cache w))
                        (World.tick w)).
Proof.
  unfold catch. rewrite CacheFacts.set_run.
  destruct (World.faults w (World.ticks w)); reflexivity.
Qed.

Lemma allSettled_run (normalized : SearchQuery.t) (ps : list Provider.t) :
  forall w : World.t,
    allSettled normalized ps w =
    (fulfilled (settle_all normalized (List.length (World.calls w)) ps),
     World.set_calls
       (World.calls w ++ map (fun p => (Provider.name p, normalized)) ps) w).
Proof.
  induction ps as [ | p ps IH]; intros w; simpl.
  - unfold ret. f_equal. destruct w; unfold World.set_calls; simpl.
    rewrite app_nil_r. reflexivity.
  - unfold bind at 1. unfold invoke at 1. unfold bind at 1. rewrite IH. unfold ret.
    simpl. rewrite length_app. simpl. rewrite Nat.add_1_r.
    f_equal. unfold World.set_calls. simpl. rewrite <- app_assoc. reflexivity.
Qed.

Lemma collect_run (q : string) (t0 : Z)
      (items : list (Settled (list SearchResult.t) * Provider.t)) :
  forall (results : list SearchResult.t) (errors : list ProviderError.t) (w : World.t),
  exists w',
    collect q t0 items results errors w =
    (fulfilled (results ++ values_of items, errors ++ errors_of items), w') /\
    frame w w' /\
    World.ticks w' = (World.ticks w + 2 * List.length items)%nat.
Proof.
  induction items as [ | [s provider] items IH]; intros results errors w.
  - exists w. simpl. rewrite !app_nil_r. repeat split. lia.
  - cbn [collect]. unfold bind at 1. rewrite Date_now_run.
    destruct s as [value | err].
    + unfold bind at 1.
      edestruct (record_swallowed) as (w1 & -> & Hf1 & Ht1).
      destruct (IH (results ++ value) errors w1) as (w' & -> & Hf & Ht).
      exists w'. split; [ | split].
      * unfold values_of, errors_of. simpl. rewrite <- app_assoc. reflexivity.
      * apply (frame_trans _ w1); [ | exact Hf].
        apply (frame_trans _ (World.tick w)); [repeat split | exact Hf1].
      * rewrite Ht, Ht1. simpl. lia.
    + unfold bind at 1.
      edestruct (record_swallowed) as (w1 & -> & Hf1 & Ht1).
      destruct (IH results (errors ++ [toProviderError provider err]) w1)
        as (w' & -> & Hf & Ht).
      exists w'. split; [ | split].
      * unfold values_of, errors_of. simpl. rewrite <- app_assoc. reflexivity.
      * apply (frame_trans _ w1); [ | exact Hf].
        apply (frame_trans _ (World.tick w)); [repeat split | exact Hf1].
      * rewrite Ht, Ht1. simpl. lia.
Qed.

Lemma settle_all_length (normalized : SearchQuery.t) (ps : list Provider.t) :
  forall n, List.length (settle_all normalized n ps) = List.length ps.
Proof. induction ps as [ | p ps IH]; intros n; simpl; [reflexivity | rewrite IH; reflexivity]. Qed.

(** The response of a cache hit, and of a miss. *)
Definition hit_response (cached : SearchResponse.t) (elapsed : Z) : SearchResponse.t :=
  {| SearchResponse.query := SearchResponse.query cached;
     SearchResponse.results := SearchResponse.results cached;
     SearchResponse.total := SearchResponse.total cached;
     SearchResponse.cached := true;
     SearchResponse.elapsed_ms := elapsed;
     SearchResponse.search_elapsed_ms := Some (SearchResponse.elapsed_ms cached);
     SearchResponse.errors := SearchResponse.errors cached |}.

Section Search.
Context `{JS.Host}.
Variable this : SearchEngine.t.

Definition miss_response (normalized : SearchQuery.t)
           (items : list (Settled (list SearchResult.t) * Provider.t)) (elapsed : Z)
  : SearchResponse.t :=
  let merged := aggregate (values_of items) (SearchQuery.limit normalized) in
  {| SearchResponse.query := normalized;
     SearchResponse.results := merged;
     SearchResponse.total := Z.of_nat (List.length merged);
     SearchResponse.cached := false;
     SearchResponse.elapsed_ms := elapsed;
     SearchResponse.search_elapsed_ms := None;
     SearchResponse.errors := errors_of items |}.

(** What the cache lookup of a call of [search] started in [w] finds:
    the lookup reads the clock right after [t0] was taken. *)
Definition looked_up (query : SearchQuery.t) (w : World.t) : option SearchResponse.t :=
  if World.faults w (S (World.ticks w)) then None
  else SqliteCacheRepository.select (hashQuery (Types.normalizeQuery query))
         (World.clock w (S (World.ticks w)) / 1000) w.

(** The settlements of a call started in [w], paired with their adapters. *)
Definition settled (query : SearchQuery.t) (w : World.t)
  : list (Settled (list SearchResult.t) * Provider.t) :=
  let normalized := Types.normalizeQuery query in
  let active := activeProviders this normalized in
  combine (settle_all normalized (List.length (World.calls w)) active) active.

Definition ttl_of (query : SearchQuery.t) : Z :=
  match SearchQuery.cacheTTL query with
  | Some ttl => ttl
  | None => SearchEngine.defaultTTL this
  end.

Lemma search_hit (query : SearchQuery.t) (w : World.t) (c : SearchResponse.t) :
  looked_up query w = Some c ->
  exists w',
    search this query w =
    (fulfilled (hit_response c (World.clock w (pred (World.ticks w'))
                                - World.clock w (World.ticks w))), w') /\
    frame w w' /\
    (SearchQuery.providers (Types.normalizeQuery query) = [] ->
     World.metrics w' = World.metrics w) /\
    (World.ticks w < World.ticks w')%nat.
Proof.
  intros Hhit. unfold search.
  unfold bind at 1. rewrite Date_now_run.
  unfold bind at 1. rewrite lookup_run.
  change (World.ticks (World.tick w)) with (S (World.ticks w)).
  change (World.faults (World.tick w)) with (World.faults w).
  change (World.clock (World.tick w)) with (World.clock w).
  change (SqliteCacheRepository.select ?k ?n (World.tick w))
    with (SqliteCacheRepository.select k n w).
  fold (looked_up query w). rewrite Hhit.
  destruct (SearchQuery.providers (Types.normalizeQuery query)) as [ | firstProvider rest] eqn:Hps.
  - exists (World.tick (World.tick (World.tick w))).
    split; [reflexivity | ]. simpl. repeat split. lia.
  - unfold bind at 1.
    edestruct record_swallowed as (w1 & -> & (F1 & F2 & F3 & F4) & Ht1).
    unfold bind at 1. rewrite Date_now_run. unfold ret.
    simpl in F1, F2, F3, F4, Ht1.
    exists (World.tick w1). split; [ | split; [ | split]].
    + simpl. rewrite F1. reflexivity.
    + simpl. repeat split; assumption.
    + discriminate.
    + simpl. rewrite Ht1. lia.
Qed.

Lemma search_miss (query : SearchQuery.t) (w : World.t) :
  looked_up query w = None ->
  let normalized := Types.normalizeQuery query in
  let items := settled query w in
  let n := List.length (activeProviders this normalized) in
  let response :=
    miss_response normalized items
      (World.clock w (World.ticks w + 2 + 2 * n) - World.clock w (World.ticks w)) in
  exists w',
    search this query w = (fulfilled response, w') /\
    World.clock w' = World.clock w /\ World.faults w' = World.faults w /\
    World.calls w' =
      World.calls w ++ map (fun p => (Provider.name p, normalized))
                           (activeProviders this normalized) /\
    World.ticks w' = (World.ticks w + 4 + 2 * n)%nat /\
    World.cache w' =
      if World.faults w (World.ticks w + 3 + 2 * n)
      then World.cache w
      else <[ hashQuery normalized :=
                {| CacheRow.value := response;
                   CacheRow.created_at := World.clock w (World.ticks w + 3 + 2 * n) / 1000;
                   CacheRow.expires_at :=
                     World.clock w (World.ticks w + 3 + 2 * n) / 1000 + ttl_of query |} ]>
             (World.cache w).
Proof.
  intros Hmiss normalized items n response. unfold search.
  unfold bind at 1. rewrite Date_now_run.
  unfold bind at 1. rewrite lookup_run.
  change (World.ticks (World.tick w)) with (S (World.ticks w)).
  change (World.faults (World.tick w)) with (World.faults w).
  change (World.clock (World.tick w)) with (World.clock w).
  change (SqliteCacheRepository.select ?k ?n (World.tick w))
    with (SqliteCacheRepository.select k n w).
  fold (looked_up query w). rewrite Hmiss.
  unfold bind at 1. rewrite allSettled_run.
  change (World.calls (World.tick (World.tick w))) with (World.calls w).
  fold normalized. fold (settled query w). fold items.
  unfold bind at 1.
  edestruct (collect_run (SearchQuery.q normalized) (World.clock w (World.ticks w)) items [] [])
    as (w1 & -> & (F1 & F2 & F3 & F4) & Ht1).
  simpl app. cbn [fst snd].
  unfold bind at 1. rewrite Date_now_run.
  unfold bind at 1. rewrite store_swallowed. unfold ret.
  assert (Hlen : List.length items = n).
  { unfold items, settled. rewrite length_combine, settle_all_length. apply Nat.min_id. }
  simpl in Ht1, F1, F2, F3, F4. rewrite Hlen in Ht1.
  assert (Ht2 : World.ticks w1 = (World.ticks w + 2 + 2 * n)%nat).
  { rewrite Ht1. lia. }
  assert (Ht3 : S (World.ticks w1) = (World.ticks w + 3 + 2 * n)%nat).
  { rewrite Ht2. lia. }
  unfold response.
  set (i2 := (World.ticks w + 2 + 2 * n)%nat) in *.
  set (i3 := (World.ticks w + 3 + 2 * n)%nat) in *.
  change (World.ticks (World.tick w1)) with (S (World.ticks w1)).
  change (World.faults (World.tick w1)) with (World.faults w1).
  rewrite F2, Ht3.
  eexists. split; [ | split; [ | split; [ | split; [ | split]]]].
  - rewrite F1, Ht2. reflexivity.
  - destruct (World.faults w i3); simpl; exact F1.
  - destruct (World.faults w i3); simpl; exact F2.
  - destruct (World.faults w i3); simpl; exact F4.
  - destruct (World.faults w i3); simpl; lia.
  - destruct (World.faults w i3); simpl; [exact F3 | ].
    unfold CacheFacts.row_written. simpl. rewrite ?F1, ?F3, ?Ht3, ?Ht2. reflexivity.
Qed.

(** [search] settles by fulfilling, whatever the providers, the
    database and the clock do. *)
Lemma search_fulfils (query : SearchQuery.t) (w : World.t) :
  exists r w', search this query w = (fulfilled r, w').
Proof.
  destruct (looked_up query w) as [c | ] eqn:Hl.
  - destruct (search_hit query w c Hl) as (w' & -> & _). eauto.
  - destruct (search_miss query w Hl) as (w' & -> & _). eauto.
Qed.

End Search.
End EngineFacts.

(** The lookup, in terms of the table. *)
Lemma looked_up_live (query : SearchQuery.t) (w : World.t) (row : CacheRow.t) :
  World.faults w (S (World.ticks w)) = false ->
  World.cache w !! Engine.hashQuery (Types.normalizeQuery query) = Some row ->
  World.clock w (S (World.ticks w)) / 1000 < CacheRow.expires_at row ->
  EngineFacts.looked_up query w = Some (CacheRow.value row).
Proof.
  intros Hf Hrow Hlive. unfold EngineFacts.looked_up, SqliteCacheRepository.select.
  rewrite Hf, Hrow.
  destruct (Z.gtb_spec (CacheRow.expires_at row) (World.clock w (S (World.ticks w)) / 1000));
    [reflexivity | lia].
Qed.

Lemma looked_up_Some (query : SearchQuery.t) (w : World.t) (c : SearchResponse.t) :
  EngineFacts.looked_up query w = Some c ->
  exists row,
    World.cache w !! Engine.hashQuery (Types.normalizeQuery query) = Some row /\
    CacheRow.value row = c.
Proof.
  unfold EngineFacts.looked_up, SqliteCacheRepository.select.
  destruct (World.faults w (S (World.ticks w))); [discriminate | ].
  destruct (World.cache w !! _) as [row | ]; [ | discriminate].
  destruct (CacheRow.expires_at row >? _); [ | discriminate].
  intros [= <-]. exists row. split; reflexivity.
Qed.

(** C10: a cache hit for a query whose normalised provider list is empty
    writes no metrics row (there is no first provider to book it on) and
    still fulfils with the cached response, marked [cached]; no adapter
    is invoked. *)
Theorem cache_hit_without_providers
        `{JS.Host} (this : SearchEngine.t) (query : SearchQuery.t)
        (w : World.t) (row : CacheRow.t) :
  SearchQuery.providers (Types.normalizeQuery query) = [] ->
  World.faults w (S (World.ticks w)) = false ->
  World.cache w !! Engine.hashQuery (Types.normalizeQuery query) = Some row ->
  World.clock w (S (World.ticks w)) / 1000 < CacheRow.expires_at row ->
  exists r w',
    Engine.search this query w = (fulfilled r, w') /\
    SearchResponse.cached r = true /\
    SearchResponse.results r = SearchResponse.results (CacheRow.value row) /\
    SearchResponse.search_elapsed_ms r
    = Some (SearchResponse.elapsed_ms (CacheRow.value row)) /\
    World.metrics w' = World.metrics w /\
    World.calls w' = World.calls w.
Proof.
  intros Hps Hf Hrow Hlive.
  pose proof (looked_up_live query w row Hf Hrow Hlive) as Hhit.
  destruct (EngineFacts.search_hit this query w _ Hhit)
    as (w' & Hrun & (_ & _ & _ & Hcalls) & Hmetrics & _).
  eexists _, w'. split; [exact Hrun | ].
  repeat split; auto.
Qed.

(** C3: a second [search] of the same query, made while the entry the
    first one left under the query's key is still live, is served from
    that entry: it is marked [cached], invokes no adapter, reports as
    [elapsed_ms] the time between its own first and last reading of the
    clock, and as [search_elapsed_ms] the [elapsed_ms] stored in the
    entry, which is the first response when the first call was a miss.
    The database is healthy. *)
Theorem search_twice_served_from_cache
        `{JS.Host} (this : SearchEngine.t) (query : SearchQuery.t)
        (w0 w1 : World.t) (r1 : SearchResponse.t) :
  healthy w0 ->
  Engine.search this query w0 = (fulfilled r1, w1) ->
  (forall row,
      World.cache w1 !! Engine.hashQuery (Types.normalizeQuery query) = Some row ->
      World.clock w1 (S (World.ticks w1)) / 1000 < CacheRow.expires_at row) ->
  exists r2 w2 row,
    Engine.search this query w1 = (fulfilled r2, w2) /\
    World.cache w1 !! Engine.hashQuery (Types.normalizeQuery query) = Some row /\
    (SearchResponse.cached r1 = false -> CacheRow.value row = r1) /\
    SearchResponse.cached r2 = true /\
    World.calls w2 = World.calls w1 /\
    (World.ticks w1 < World.ticks w2)%nat /\
    SearchResponse.elapsed_ms r2
    = World.clock w1 (pred (World.ticks w2)) - World.clock w1 (World.ticks w1) /\
    SearchResponse.search_elapsed_ms r2
    = Some (SearchResponse.elapsed_ms (CacheRow.value row)) /\
    SearchResponse.results r2 = SearchResponse.results (CacheRow.value row).
Proof.
  intros Hh Hrun1 Hlive.
  assert (Hrow : exists row,
             World.cache w1 !! Engine.hashQuery (Types.normalizeQuery query) = Some row /\
             (SearchResponse.cached r1 = false -> CacheRow.value row = r1) /\
             World.faults w1 = World.faults w0).
  { destruct (EngineFacts.looked_up query w0) as [c | ] eqn:Hl.
    - destruct (EngineFacts.search_hit this query w0 c Hl)
        as (w' & Hrun & (_ & Hfaults & Hcache & _) & _).
      rewrite Hrun in Hrun1. injection Hrun1 as <- <-.
      destruct (looked_up_Some _ _ _ Hl) as (row & Hrow & _).
      exists row. rewrite Hcache. split; [exact Hrow | split; [discriminate | exact Hfaults]].
    - destruct (EngineFacts.search_miss this query w0 Hl)
        as (w' & Hrun & _ & Hfaults & _ & _ & Hcache).
      rewrite Hrun in Hrun1. injection Hrun1 as <- <-.
      rewrite Hh in Hcache. eexists. rewrite Hcache.
      split; [apply lookup_insert_eq | split; [reflexivity | exact Hfaults]]. }
  destruct Hrow as (row & Hrow & Hfirst & Hfaults).
  assert (Hhit : EngineFacts.looked_up query w1 = Some (CacheRow.value row)).
  { apply looked_up_live; [rewrite Hfaults; apply Hh | exact Hrow | apply Hlive, Hrow]. }
  destruct (EngineFacts.search_hit this query w1 _ Hhit)
    as (w2 & Hrun2 & (_ & _ & _ & Hcalls) & _ & Hticks).
  eexists _, w2, row. split; [exact Hrun2 | ].
  repeat split; auto.
Qed.

(** C1: [search] never rejects, whatever the adapters, the database and
    the clock do.  On a cache miss with two active providers of which
    one fulfils with [values] and the other rejects with [err], it
    fulfils with a response that is not [cached], whose results are
    [aggregate(values, limit)], and whose errors hold exactly one entry:
    [err] itself, its provider, message and code as the adapter gave
    them, when [err] carries the three fields, and otherwise the name
    of the rejecting adapter, [String(err)] and the code [UNKNOWN]. *)
Theorem search_isolates_provider_failure
        `{JS.Host} (this : SearchEngine.t) (query : SearchQuery.t) (w : World.t) :
  (exists r w', Engine.search this query w = (fulfilled r, w')) /\
  (forall (p1 p2 bad : Provider.t) (values : list SearchResult.t) (err : Unknown),
      let normalized := Types.normalizeQuery query in
      let s1 := Provider.search p1 normalized (List.length (World.calls w)) in
      let s2 := Provider.search p2 normalized (S (List.length (World.calls w))) in
      EngineFacts.looked_up query w = None ->
      Engine.activeProviders this normalized = [p1; p2] ->
      (s1 = fulfilled values /\ s2 = rejected err /\ bad = p2) \/
      (s1 = rejected err /\ s2 = fulfilled values /\ bad = p1) ->
      exists r w',
        Engine.search this query w = (fulfilled r, w') /\
        SearchResponse.cached r = false /\
        SearchResponse.results r
        = Aggregate.aggregate values (SearchQuery.limit normalized) /\
        SearchResponse.errors r = [Engine.toProviderError bad err] /\
        (forall p m c s,
            err = UObject (Some p) (Some m) (Some c) s ->
            Engine.toProviderError bad err
            = {| ProviderError.provider := p;
                 ProviderError.message := m;
                 ProviderError.code := c |}) /\
        (Types.isProviderError err = false ->
         Engine.toProviderError bad err
         = {| ProviderError.provider := Provider.name bad;
              ProviderError.message := String_ err;
              ProviderError.code := UNKNOWN |})).
Proof.
  split; [apply EngineFacts.search_fulfils | ].
  intros p1 p2 bad values err normalized s1 s2 Hmiss Hactive Hsettle.
  destruct (EngineFacts.search_miss this query w Hmiss) as (w' & Hrun & _).
  eexists _, w'. split; [exact Hrun | ].
  assert (Hitems : EngineFacts.settled this query w = [(s1, p1); (s2, p2)]).
  { unfold EngineFacts.settled. fold normalized. rewrite Hactive. reflexivity. }
  unfold EngineFacts.miss_response. cbn [SearchResponse.cached SearchResponse.results
                                         SearchResponse.errors].
  rewrite Hitems. unfold EngineFacts.values_of, EngineFacts.errors_of. cbn [flat_map fst snd].
  split; [reflexivity | ].
  assert (Hacc : (match s1 with fulfilled v => v | rejected _ => [] end ++
                  match s2 with fulfilled v => v | rejected _ => [] end ++ []) = values /\
                 (match s1 with fulfilled _ => [] | rejected e => [Engine.toProviderError p1 e] end ++
                  match s2 with fulfilled _ => [] | rejected e => [Engine.toProviderError p2 e] end ++ [])
                 = [Engine.toProviderError bad err]).
  { destruct Hsettle as [(-> & -> & ->) | (-> & -> & ->)]; simpl; rewrite ?app_nil_r; auto. }
  destruct Hacc as [-> ->]. fold normalized.
  split; [reflexivity | split; [reflexivity | split]].
  - intros p m c s ->. reflexivity.
  - destruct err as [[p | ] [m | ] [c | ] s | s]; simpl; try discriminate; reflexivity.
Qed.

(** ** Percentiles *)

Module PercentileFacts.
Import JS Metrics.

(** The index [percentile] reads, as the source computes it:
    [Math.max(0, Math.min(Math.ceil(n * p) - 1, n - 1))]. *)
Definition rank_index (n : nat) (p : float) : Integral :=
  Math_max (Int 0)
           (Math_min (minus (Math_ceil (PrimFloat.mul (of_length n) p)) 1)
                     (Int (Z.of_nat n - 1))).

(** [ceil(n * num / den)] in exact arithmetic. *)
Definition exact_ceil (n num den : Z) : Z := (n * num + den - 1) / den.

Lemma Math_ceil_not_nan (x : float) :
  isNaN x = false -> Math_ceil x <> NaN.
Proof.
  rewrite FloatFacts.isNaN_spec. unfold Math_ceil.
  destruct (Prim2SF x) as [s | s | | s m e]; simpl; try discriminate.
  destruct s; discriminate.
Qed.

Lemma clamp_in_range (c : Integral) (n : Z) :
  c <> NaN -> 1 <= n ->
  exists k, Math_max (Int 0) (Math_min (minus c 1) (Int (n - 1))) = Int k /\
            0 <= k <= n - 1.
Proof.
  intros Hc Hn. destruct c as [ | | | z]; simpl; try congruence.
  - exists 0. split; [reflexivity | lia].
  - exists (Z.max 0 (n - 1)). split; [reflexivity | lia].
  - exists (Z.max 0 (Z.min (z - 1) (n - 1))). split; [reflexivity | lia].
Qed.

Lemma probability_finite (p : float) :
  p = P50 \/ p = P95 \/ p = P99 -> exists s m e, Prim2SF p = S754_finite s m e.
Proof.
  intros [-> | [-> | ->]]; vm_compute; eauto.
Qed.

Lemma rank_index_in_range (n : nat) (p : float) :
  p = P50 \/ p = P95 \/ p = P99 -> (1 <= n)%nat ->
  exists k, rank_index n p = Int k /\ 0 <= k <= Z.of_nat n - 1.
Proof.
  intros Hp Hn. unfold rank_index. apply clamp_in_range; [ | lia].
  apply Math_ceil_not_nan.
  destruct (probability_finite p Hp) as (s & m & e & Hfin).
  apply (FloatFacts.mul_finite_not_nan _ _ s m e); [ | exact Hfin].
  apply FloatFacts.of_length_not_nan.
Qed.

(** For an array (fewer than [2^32] elements) the double product
    [n * p] has the ceiling of the exact product, for each of the three
    probabilities: 0.5 is a double, and the doubles nearest to 0.95 and
    0.99 lie just below them. *)
Lemma Math_ceil_P50 (n : Z) :
  0 < n < 2 ^ 32 ->
  Math_ceil (PrimFloat.mul (PrimFloat.of_uint63 (Uint63.of_Z n)) P50)
  = Int (exact_ceil n 1 2).
Proof.
  apply (FloatFacts.Math_ceil_mul n P50 4503599627370496);
    try reflexivity; vm_compute; congruence.
Qed.

Lemma Math_ceil_P95 (n : Z) :
  0 < n < 2 ^ 32 ->
  Math_ceil (PrimFloat.mul (PrimFloat.of_uint63 (Uint63.of_Z n)) P95)
  = Int (exact_ceil n 19 20).
Proof.
  apply (FloatFacts.Math_ceil_mul n P95 8556839292003942);
    try reflexivity; vm_compute; congruence.
Qed.

Lemma Math_ceil_P99 (n : Z) :
  0 < n < 2 ^ 32 ->
  Math_ceil (PrimFloat.mul (PrimFloat.of_uint63 (Uint63.of_Z n)) P99)
  = Int (exact_ceil n 99 100).
Proof.
  apply (FloatFacts.Math_ceil_mul n P99 8917127262193582);
    try reflexivity; vm_compute; congruence.
Qed.

End PercentileFacts.

(** C9: [percentile] is nearest-rank estimation.  Of no samples it is 0.
    Of [n >= 1] samples and [p] one of 0.5, 0.95, 0.99 it is the sample at
    index [Math.ceil(n * p) - 1] clamped to [0, n - 1]; that index always
    exists, so the fallback [?? 0] is never taken.  An array has fewer
    than [2^32] elements, and for such [n] the double product [n * p]
    has the ceiling of the exact product: the index is [ceil(n/2) - 1],
    [ceil(19n/20) - 1] and [ceil(99n/100) - 1]. *)
Theorem percentile_nearest_rank (sorted : list Z) (p : float) :
  p = Metrics.P50 \/ p = Metrics.P95 \/ p = Metrics.P99 ->
  Metrics.percentile [] p = 0 /\
  (sorted <> [] ->
   let n := List.length sorted in
   exists k,
     PercentileFacts.rank_index n p = JS.Int k /\
     0 <= k <= Z.of_nat n - 1 /\
     nth_error sorted (Z.to_nat k) = Some (Metrics.percentile sorted p) /\
     (Z.of_nat n < 2 ^ 32 ->
      k = PercentileFacts.exact_ceil (Z.of_nat n)
            (if PrimFloat.eqb p Metrics.P50 then 1
             else if PrimFloat.eqb p Metrics.P95 then 19 else 99)
            (if PrimFloat.eqb p Metrics.P50 then 2
             else if PrimFloat.eqb p Metrics.P95 then 20 else 100) - 1)).
Proof.
  intros Hp. split; [reflexivity | ].
  intros Hne n.
  assert (Hn : (1 <= n)%nat).
  { unfold n. destruct sorted; [congruence | simpl; lia]. }
  destruct (PercentileFacts.rank_index_in_range n p Hp Hn) as (k & Hk & Hrange).
  exists k. split; [exact Hk | split; [exact Hrange | ]].
  assert (Hlt : (Z.to_nat k < List.length sorted)%nat).
  { fold n. lia. }
  destruct (nth_error sorted (Z.to_nat k)) as [v | ] eqn:Hv;
    [ | apply nth_error_None in Hv; lia].
  split.
  - unfold Metrics.percentile. fold n.
    destruct (Nat.eqb_spec n 0) as [H0 | _]; [lia | ].
    unfold PercentileFacts.rank_index in Hk. rewrite Hk. unfold JS.Array_get.
    destruct (Z.ltb_spec k 0); [lia | ]. rewrite Hv. reflexivity.
  - intros Hsmall.
    assert (Hz : 0 < Z.of_nat n < 2 ^ 32) by lia.
    pose proof (PercentileFacts.Math_ceil_P50 _ Hz) as E50.
    pose proof (PercentileFacts.Math_ceil_P95 _ Hz) as E95.
    pose proof (PercentileFacts.Math_ceil_P99 _ Hz) as E99.
    unfold PercentileFacts.rank_index, JS.of_length in Hk.
    assert (Hpos : forall num den, 0 < num <= den -> 0 < den ->
                    1 <= PercentileFacts.exact_ceil (Z.of_nat n) num den <= Z.of_nat n).
    { intros num den Hnum Hden. unfold PercentileFacts.exact_ceil.
      assert (Hnz : 1 <= Z.of_nat n) by lia. split.
      - apply Z.div_le_lower_bound; nia.
      - assert ((Z.of_nat n * num + den - 1) / den < Z.of_nat n + 1); [ | lia].
        apply Z.div_lt_upper_bound; nia. }
    destruct Hp as [-> | [-> | ->]].
    + rewrite E50 in Hk. simpl in Hk. injection Hk as <-.
      change (PrimFloat.eqb Metrics.P50 Metrics.P50) with true. cbv iota.
      pose proof (Hpos 1 2 ltac:(lia) ltac:(lia)). lia.
    + rewrite E95 in Hk. simpl in Hk. injection Hk as <-.
      change (PrimFloat.eqb Metrics.P95 Metrics.P50) with false.
      change (PrimFloat.eqb Metrics.P95 Metrics.P95) with true. cbv iota.
      pose proof (Hpos 19 20 ltac:(lia) ltac:(lia)). lia.
    + rewrite E99 in Hk. simpl in Hk. injection Hk as <-.
      change (PrimFloat.eqb Metrics.P99 Metrics.P50) with false.
      change (PrimFloat.eqb Metrics.P99 Metrics.P95) with false. cbv iota.
      pose proof (Hpos 99 100 ltac:(lia) ltac:(lia)). lia.
Qed.

Lemma percentile_nearest_rank_witness :
  (Metrics.P95 = Metrics.P50 \/ Metrics.P95 = Metrics.P95 \/ Metrics.P95 = Metrics.P99) /\
  [100; 200; 300; 400; 500; 600; 700; 800; 900; 1000] <> [] /\
  Metrics.percentile [100; 200; 300; 400; 500; 600; 700; 800; 900; 1000] Metrics.P95
  = 1000.
Proof.
  assert (Hp : Metrics.P95 = Metrics.P50 \/ Metrics.P95 = Metrics.P95 \/
               Metrics.P95 = Metrics.P99) by (right; left; reflexivity).
  assert (Hne : [100; 200; 300; 400; 500; 600; 700; 800; 900; 1000] <> @nil Z)
    by discriminate.
  split; [exact Hp | split; [exact Hne | ]].
  destruct (percentile_nearest_rank
              [100; 200; 300; 400; 500; 600; 700; 800; 900; 1000] Metrics.P95 Hp)
    as [_ Hrank].
  destruct (Hrank Hne) as (k & Hk & _ & Hnth & _).
  vm_compute in Hk. injection Hk as <-.
  change (nth_error [100; 200; 300; 400; 500; 600; 700; 800; 900; 1000] (Z.to_nat 9))
    with (Some 1000) in Hnth.
  exact (eq_sym (f_equal (fun o : option Z => match o with Some v => v | None => 0 end)
                         Hnth)).
Defined.

(** *** A sample engine and world *)

Module SampleWorld.

Definition query : SearchQuery.t :=
  {| SearchQuery.q := "foo";
     SearchQuery.providers := [sourcegraph; github];
     SearchQuery.filters := [("language", None)];
     SearchQuery.limit := 10;
     SearchQuery.cacheTTL := None |}.

(** The same query asked of no provider at all. *)
Definition query_nowhere : SearchQuery.t := with_providers [] query.

Definition timeout : Unknown :=
  UObject (Some sourcegraph) (Some "timeout") (Some TIMEOUT) "Error: timeout".

Definition good : Provider.t :=
  {| Provider.name := github;
     Provider.search := fun _ _ => fulfilled [Samples.A; Samples.B] |}.

Definition bad : Provider.t :=
  {| Provider.name := sourcegraph;
     Provider.search := fun _ _ => rejected timeout |}.

Definition engine : SearchEngine.t :=
  {| SearchEngine.providers :=
       fun name => match name with github => Some good | sourcegraph => Some bad end;
     SearchEngine.defaultTTL := 3600 |}.

(** An empty database in working order; the clock advances 7 ms from
    one reading to the next. *)
Definition world : World.t :=
  {| World.clock := fun n => Z.of_nat n * 7 + 1700000000000;
     World.ticks := 0;
     World.cache := ∅;
     World.metrics := [];
     World.faults := fun _ => false;
     World.calls := [] |}.

Definition response : SearchResponse.t :=
  {| SearchResponse.query := Types.normalizeQuery query_nowhere;
     SearchResponse.results := [];
     SearchResponse.total := 0;
     SearchResponse.cached := false;
     SearchResponse.elapsed_ms := 14;
     SearchResponse.search_elapsed_ms := None;
     SearchResponse.errors := [] |}.

Definition row : CacheRow.t :=
  {| CacheRow.value := response;
     CacheRow.created_at := 1700000000;
     CacheRow.expires_at := 1700003600 |}.

(** [world] with [row] stored under the key of [query_nowhere]. *)
Definition world_cached : World.t :=
  World.set_cache
    (<[ Engine.hashQuery (Types.normalizeQuery query_nowhere) := row ]> ∅) world.

Lemma world_healthy : healthy world.
Proof. intros n. reflexivity. Qed.

Lemma world_monotone : monotone world.
Proof. intros i j Hij. simpl. lia. Qed.

End SampleWorld.

Lemma cache_set_get_expiry_witness :
  healthy SampleWorld.world /\ monotone SampleWorld.world /\
  fst (SqliteCacheRepository.get "key2"
         (snd (SqliteCacheRepository.set "key2" SampleWorld.response (-1)
                 SampleWorld.world)))
  = fulfilled None.
Proof.
  split; [exact SampleWorld.world_healthy | split; [exact SampleWorld.world_monotone | ]].
  destruct (cache_set_get_expiry SampleWorld.world "key2" SampleWorld.response (-1)
              SampleWorld.world_healthy SampleWorld.world_monotone)
    as (_ & _ & _ & _ & _ & _ & Hexpired).
  apply Hexpired. lia.
Defined.

Lemma cache_hit_without_providers_witness :
  SearchQuery.providers (Types.normalizeQuery SampleWorld.query_nowhere) = [] /\
  exists r w',
    @Engine.search Samples.host SampleWorld.engine SampleWorld.query_nowhere
                   SampleWorld.world_cached = (fulfilled r, w') /\
    SearchResponse.cached r = true /\
    World.metrics w' = World.metrics SampleWorld.world_cached.
Proof.
  split; [reflexivity | ].
  destruct (@cache_hit_without_providers Samples.host SampleWorld.engine
              SampleWorld.query_nowhere SampleWorld.world_cached SampleWorld.row)
    as (r & w' & Hrun & Hcached & _ & _ & Hmetrics & _).
  - reflexivity.
  - reflexivity.
  - vm_compute. reflexivity.
  - vm_compute. reflexivity.
  - exists r, w'. auto.
Defined.

Lemma search_twice_served_from_cache_witness :
  healthy SampleWorld.world /\
  exists r2 w2,
    @Engine.search Samples.host SampleWorld.engine SampleWorld.query
      (snd (@Engine.search Samples.host SampleWorld.engine SampleWorld.query
              SampleWorld.world))
    = (fulfilled r2, w2) /\
    SearchResponse.cached r2 = true /\
    List.length (World.calls w2) = 2%nat.
Proof.
  split; [exact SampleWorld.world_healthy | ].
  destruct (@Engine.search Samples.host SampleWorld.engine SampleWorld.query
              SampleWorld.world) as [[r1 | e] w1] eqn:Hrun.
  - destruct (@search_twice_served_from_cache Samples.host SampleWorld.engine
                SampleWorld.query SampleWorld.world w1 r1
                SampleWorld.world_healthy Hrun)
      as (r2 & w2 & row & Hrun2 & _ & _ & Hcached & Hcalls & _).
    + intros row Hrow. vm_compute in Hrun. injection Hrun as <- <-.
      vm_compute in Hrow. injection Hrow as <-. vm_compute. reflexivity.
    + exists r2, w2. simpl. split; [exact Hrun2 | split; [exact Hcached | ]].
      rewrite Hcalls. vm_compute in Hrun. injection Hrun as <- <-. reflexivity.
  - exfalso.
    destruct (@EngineFacts.search_fulfils Samples.host SampleWorld.engine
                SampleWorld.query SampleWorld.world) as (r & w' & Hf).
    rewrite Hrun in Hf. discriminate.
Defined.

Lemma search_isolates_provider_failure_witness :
  exists r w',
    @Engine.search Samples.host SampleWorld.engine SampleWorld.query SampleWorld.world
    = (fulfilled r, w') /\
    SearchResponse.results r = [Samples.B; Samples.A] /\
    SearchResponse.errors r
    = [ {| ProviderError.provider := sourcegraph;
           ProviderError.message := "timeout";
           ProviderError.code := TIMEOUT |} ].
Proof.
  destruct (@search_isolates_provider_failure Samples.host SampleWorld.engine
              SampleWorld.query SampleWorld.world) as [_ Hpartial].
  destruct (Hpartial SampleWorld.good SampleWorld.bad SampleWorld.bad
                     [Samples.A; Samples.B] SampleWorld.timeout)
    as (r & w' & Hrun & _ & Hresults & Herrors & _).
  - vm_compute. reflexivity.
  - reflexivity.
  - left. repeat split.
  - exists r, w'. split; [exact Hrun | split].
    + rewrite Hresults. vm_compute. reflexivity.
    + rewrite Herrors. reflexivity.
Defined.

(** ** Test vectors *)

Example sha256_abc :
  Sha256.sha256_hex "abc"
  = "ba7816bf8f01cfea414140de5dae2223b00361a396177a9cb410ff61f20015ad".
Proof. vm_compute. reflexivity. Qed.

Example sha256_empty :
  Sha256.sha256_hex ""
  = "e3b0c44298fc1c149afbf4c8996fb92427ae41e4649b934ca495991b7852b855".
Proof. vm_compute. reflexivity. Qed.

Example stringify_normalized :
  JSON.stringify (Types.normalizeQuery SampleWorld.query)
  = String.concat JSON.dquote
      ["{"; "q"; ":"; "foo"; ","; "providers"; ":["; "github"; ",";
       "sourcegraph"; "],"; "filters"; ":{},"; "limit"; ":10}"].
Proof. vm_compute. reflexivity. Qed.

(** * Further properties

    What the other functions of the same files do, and the functions
    around them: the adapters' query strings and errors, [clear] and
    [stats] of the cache, [stats] of the metrics, the engine factory,
    and what [search] writes and returns besides. *)

(** ** Queries as the adapters read them *)

Module FilterFacts.
Import Types.

Definition defined (kv : string * option FilterValue) : bool :=
  match snd kv with Some _ => true | None => false end.

Lemma obj_get_absent {V : Type} (k : string) (o : list (string * option V)) :
  ~ In k (map fst o) -> obj_get k o = None.
Proof.
  induction o as [ | [k' v] o IH]; simpl; intros Hk; [reflexivity | ].
  destruct (String.eqb_spec k k') as [-> | _]; [exfalso; auto | apply IH; auto].
Qed.

Lemma obj_get_obj_set_ne {V : Type} (k k' : string) (v : option V)
      (o : list (string * option V)) :
  k <> k' -> obj_get k (obj_set k' v o) = obj_get k o.
Proof.
  intros Hne. induction o as [ | [k2 v2] o IH]; simpl.
  - destruct (String.eqb_spec k k'); [congruence | reflexivity].
  - destruct (String.eqb_spec k' k2) as [-> | Hne2]; simpl.
    + destruct (String.eqb_spec k k2); [congruence | reflexivity].
    + rewrite IH. reflexivity.
Qed.

Lemma fold_copy_defined_filter (fs : SearchFilters) : forall acc : SearchFilters,
  List.NoDup (map fst (acc ++ fs)) ->
  fold_left copy_defined fs acc = acc ++ List.filter defined fs.
Proof.
  induction fs as [ | [k ov] fs IH]; intros acc Hnd; simpl.
  - symmetry. apply app_nil_r.
  - unfold copy_defined at 2, defined at 1. simpl. destruct ov as [v | ].
    + rewrite NormalizeFacts.obj_set_fresh.
      * rewrite IH; [rewrite <- app_assoc; reflexivity | ].
        rewrite <- app_assoc. exact Hnd.
      * rewrite map_app in Hnd. simpl in Hnd.
        apply List.NoDup_remove_2 in Hnd. intros Hin. apply Hnd.
        apply in_or_app. left. exact Hin.
    + apply IH. rewrite map_app in *. simpl in Hnd.
      apply List.NoDup_remove_1 in Hnd. exact Hnd.
Qed.

Lemma obj_get_filter_defined (k : string) (fs : SearchFilters) :
  List.NoDup (map fst fs) -> obj_get k (List.filter defined fs) = obj_get k fs.
Proof.
  induction fs as [ | [k' ov] fs IH]; simpl; intros Hnd; [reflexivity | ].
  inversion Hnd as [ | ? ? Hk Hnd']; subst.
  unfold defined at 1. simpl. destruct ov as [v | ]; simpl.
  - destruct (String.eqb_spec k k'); [reflexivity | apply IH, Hnd'].
  - destruct (String.eqb_spec k k') as [-> | _]; [ | apply IH, Hnd'].
    apply obj_get_absent. intros Hin. apply Hk.
    apply in_map_iff in Hin as ([k2 v2] & <- & Hin).
    apply List.filter_In in Hin as [Hin _].
    apply in_map_iff. exists (k2, v2). split; [reflexivity | exact Hin].
Qed.

Lemma normalized_filters (query : SearchQuery.t) :
  List.NoDup (map fst (SearchQuery.filters query)) ->
  SearchQuery.filters (normalizeQuery query)
  = List.filter defined (SearchQuery.filters query).
Proof. intros Hnd. simpl. apply (fold_copy_defined_filter _ []). exact Hnd. Qed.

Lemma normalized_obj_get (query : SearchQuery.t) (k : string) :
  List.NoDup (map fst (SearchQuery.filters query)) ->
  obj_get k (SearchQuery.filters (normalizeQuery query))
  = obj_get k (SearchQuery.filters query).
Proof.
  intros Hnd. rewrite normalized_filters by exact Hnd.
  apply obj_get_filter_defined, Hnd.
Qed.

Lemma sort_insert_grouped (p : ProviderName) (a b : nat) :
  JS.sort_insert default_after p (repeat github a ++ repeat sourcegraph b)
  = match p with
    | github => repeat github (S a) ++ repeat sourcegraph b
    | sourcegraph => repeat github a ++ repeat sourcegraph (S b)
    end.
Proof.
  destruct p.
  - destruct a as [ | a]; [destruct b as [ | b] | ]; reflexivity.
  - induction a as [ | a IH]; simpl.
    + destruct b as [ | b]; reflexivity.
    + change (default_after sourcegraph github) with true. cbv iota.
      rewrite IH. reflexivity.
Qed.

Lemma sort_providers_grouped (ps : list ProviderName) :
  JS.Array_sort default_after ps
  = repeat github (count_occ ProviderName_eq_dec ps github)
    ++ repeat sourcegraph (count_occ ProviderName_eq_dec ps sourcegraph).
Proof.
  induction ps as [ | p ps IH]; [reflexivity | ].
  cbn [JS.Array_sort]. rewrite IH, sort_insert_grouped.
  destruct p; simpl; reflexivity.
Qed.

End FilterFacts.

(** X1: [normalizeQuery] sorts the providers without merging repeated
    names: all the [github] entries of the request, then all the
    [sourcegraph] entries, as many of each as the request lists.  The
    query text, the limit and the TTL are handed on as they are. *)
Theorem normalizeQuery_keeps_repeated_providers (query : SearchQuery.t) :
  SearchQuery.providers (Types.normalizeQuery query)
  = repeat github (count_occ ProviderName_eq_dec (SearchQuery.providers query) github)
    ++ repeat sourcegraph
         (count_occ ProviderName_eq_dec (SearchQuery.providers query) sourcegraph) /\
  SearchQuery.q (Types.normalizeQuery query) = SearchQuery.q query /\
  SearchQuery.limit (Types.normalizeQuery query) = SearchQuery.limit query /\
  SearchQuery.cacheTTL (Types.normalizeQuery query) = SearchQuery.cacheTTL query.
Proof.
  split; [apply FilterFacts.sort_providers_grouped | repeat split].
Qed.

(** X2: on a filters object (no key twice) [normalizeQuery] only leaves
    out the entries whose value is [undefined]: the entries that remain
    keep their values and their order, and every key reads as before. *)
Theorem normalizeQuery_drops_only_undefined (query : SearchQuery.t) :
  List.NoDup (map fst (SearchQuery.filters query)) ->
  SearchQuery.filters (Types.normalizeQuery query)
  = List.filter FilterFacts.defined (SearchQuery.filters query) /\
  forall k, Types.obj_get k (SearchQuery.filters (Types.normalizeQuery query))
            = Types.obj_get k (SearchQuery.filters query).
Proof.
  intros Hnd. split.
  - apply FilterFacts.normalized_filters, Hnd.
  - intros k. apply FilterFacts.normalized_obj_get, Hnd.
Qed.

Lemma normalizeQuery_drops_only_undefined_witness :
  List.NoDup (map fst [("language", Some (FString "yaml")); ("repo", None);
                       ("regex", Some (FBoolean true))]) /\
  SearchQuery.filters
    (Types.normalizeQuery
       (with_filters [("language", Some (FString "yaml")); ("repo", None);
                      ("regex", Some (FBoolean true))] SampleWorld.query))
  = [("language", Some (FString "yaml")); ("regex", Some (FBoolean true))].
Proof.
  assert (Hnd : List.NoDup (map fst [("language", Some (FString "yaml")); ("repo", None);
                                     ("regex", Some (FBoolean true))])).
  { simpl. repeat constructor; simpl; intuition discriminate. }
  split; [exact Hnd | ].
  exact (proj1 (normalizeQuery_drops_only_undefined
                  (with_filters [("language", Some (FString "yaml")); ("repo", None);
                                 ("regex", Some (FBoolean true))] SampleWorld.query) Hnd)).
Defined.

(** X3: the query string an adapter sends is the same for the request
    and for its normal form, so normalising before the fan-out changes
    nothing an adapter asks for. *)
Theorem buildQuery_of_normalized (query : SearchQuery.t) :
  List.NoDup (map fst (SearchQuery.filters query)) ->
  GitHub.buildQuery (Types.normalizeQuery query) = GitHub.buildQuery query /\
  Sourcegraph.buildQuery (Types.normalizeQuery query) = Sourcegraph.buildQuery query.
Proof.
  intros Hnd. unfold GitHub.buildQuery, Sourcegraph.buildQuery.
  rewrite !FilterFacts.normalized_obj_get by exact Hnd. split; reflexivity.
Qed.

Lemma buildQuery_of_normalized_witness :
  List.NoDup (map fst (SearchQuery.filters SampleWorld.query)) /\
  GitHub.buildQuery (Types.normalizeQuery SampleWorld.query) = "foo".
Proof.
  assert (Hnd : List.NoDup (map fst (SearchQuery.filters SampleWorld.query))).
  { simpl. repeat constructor. simpl. tauto. }
  split; [exact Hnd | ].
  rewrite (proj1 (buildQuery_of_normalized SampleWorld.query Hnd)). reflexivity.
Defined.

(** X4: the [extension] filter never reaches Sourcegraph and the [regex]
    filter never reaches GitHub's query string: setting either to any
    value leaves the string the adapter builds unchanged. *)
Theorem buildQuery_ignored_filters (query : SearchQuery.t) (v : option FilterValue) :
  Sourcegraph.buildQuery
    (with_filters (Types.obj_set "extension" v (SearchQuery.filters query)) query)
  = Sourcegraph.buildQuery query /\
  GitHub.buildQuery
    (with_filters (Types.obj_set "regex" v (SearchQuery.filters query)) query)
  = GitHub.buildQuery query.
Proof.
  unfold Sourcegraph.buildQuery, GitHub.buildQuery, with_filters. simpl.
  rewrite !FilterFacts.obj_get_obj_set_ne by discriminate. split; reflexivity.
Qed.

(** ** The adapters *)

Module AdapterFacts.

Lemma provider_error_reported (adapter : Provider.t) (p : ProviderName)
      (c : ErrorCode) (m : string) :
  Engine.toProviderError adapter (provider_error p c m)
  = {| ProviderError.provider := p; ProviderError.message := m; ProviderError.code := c |}.
Proof. reflexivity. Qed.

(** The three errors an adapter makes. *)
Inductive classified (p : ProviderName) (err : Value) : Unknown -> Prop :=
| classified_auth : classified p err (provider_error p AUTH "Auth failed")
| classified_rate : classified p err (provider_error p RATE_LIMIT "Rate limited")
| classified_unknown : classified p err (provider_error p UNKNOWN (Value.String_ err)).

Lemma github_classified (err : Value) : classified github err (GitHub.toProviderError err).
Proof.
  unfold GitHub.toProviderError.
  destruct err as [ | | x s | obj s | s]; try constructor.
  destruct (Value.get "response" obj) as [ | | x' s' | resp s' | s']; try constructor.
  destruct (_ || _); [constructor | ].
  destruct (Value.is_number _ _); constructor.
Qed.

Section SourcegraphErrors.
Variable TypeError_message : Value -> string -> string.

Lemma sourcegraph_classified (err : Value) (e : Unknown) :
  Sourcegraph.toProviderError TypeError_message err = fulfilled e ->
  classified sourcegraph err e.
Proof.
  unfold Sourcegraph.toProviderError.
  destruct err as [ | | x s | obj s | s]; try (intros [= <-]; constructor).
  destruct (Value.has "response" obj); [ | intros [= <-]; constructor].
  destruct (Value.get "response" obj) as [ | | x' s' | resp s' | s']; try discriminate;
    repeat match goal with
           | |- context [if ?b then _ else _] => destruct b
           end; intros [= <-]; constructor.
Qed.

Lemma sourcegraph_throws (err : Value) (e : Unknown) :
  Sourcegraph.toProviderError TypeError_message err = rejected e ->
  exists target, e = Sourcegraph.TypeError TypeError_message target "statusCode".
Proof.
  unfold Sourcegraph.toProviderError.
  destruct err as [ | | x s | obj s | s]; try discriminate.
  destruct (Value.has "response" obj); [ | discriminate].
  destruct (Value.get "response" obj) as [ | | x' s' | resp s' | s'];
    try (intros [= <-]; eauto);
    repeat match goal with
           | |- context [if ?b then _ else _] => destruct b
           end; discriminate.
Qed.
End SourcegraphErrors.

End AdapterFacts.

(** X5: whatever GitHub's adapter catches, the error it throws is one
    the engine takes as a provider error, so the response reports it
    under [github] with the adapter's own code and message.  The code is
    [AUTH] for the HTTP statuses 401 and 403, [RATE_LIMIT] for 429 and
    [UNKNOWN], with [String(err)] as the message, for everything else;
    it is never [TIMEOUT]. *)
Theorem github_errors_classified (adapter : Provider.t) (err : Value) :
  let e := Engine.toProviderError adapter (GitHub.toProviderError err) in
  Types.isProviderError (GitHub.toProviderError err) = true /\
  ProviderError.provider e = github /\
  ProviderError.code e <> TIMEOUT /\
  (ProviderError.code e = UNKNOWN -> ProviderError.message e = Value.String_ err) /\
  (forall obj s response s' x sx,
      err = VObject obj s ->
      Value.get "response" obj = VObject response s' ->
      Value.get "statusCode" response = VNumber x sx ->
      ProviderError.code e =
      if PrimFloat.eqb x 401 || PrimFloat.eqb x 403 then AUTH
      else if PrimFloat.eqb x 429 then RATE_LIMIT else UNKNOWN) /\
  ((forall obj s response s', err = VObject obj s ->
                              Value.get "response" obj <> VObject response s') ->
   ProviderError.code e = UNKNOWN).
Proof.
  intros e. subst e. split; [ | split; [ | split; [ | split; [ | split]]]].
  - destruct (AdapterFacts.github_classified err); reflexivity.
  - destruct (AdapterFacts.github_classified err); reflexivity.
  - destruct (AdapterFacts.github_classified err); discriminate.
  - destruct (AdapterFacts.github_classified err); try discriminate. reflexivity.
  - intros obj s response s' x sx -> Hr Hs. unfold GitHub.toProviderError.
    rewrite Hr, Hs. simpl Value.is_number.
    destruct (_ || _); [reflexivity | ].
    destruct (PrimFloat.eqb x 429); reflexivity.
  - intros Hno. unfold GitHub.toProviderError.
    destruct err as [ | | x s | obj s | s]; try reflexivity.
    specialize (Hno obj s).
    destruct (Value.get "response" obj) as [ | | x' s' | resp s' | s']; try reflexivity.
    exfalso. exact (Hno resp s' eq_refl eq_refl).
Qed.

(** X6: Sourcegraph's [toProviderError] reads [err.response.statusCode]
    as soon as [err] has a field [response].  When that field holds
    [undefined] or [null] the read throws, the adapter rejects with the
    [TypeError] instead of a provider error, and the engine books it
    under the adapter's name as [UNKNOWN] with the text of the
    [TypeError], not of [err]. *)
Theorem sourcegraph_response_undefined_throws
        (TypeError_message : Value -> string -> string)
        (adapter : Provider.t) (obj : list (string * Value)) (s : string) :
  Value.has "response" obj = true ->
  Value.get "response" obj = VUndefined \/ Value.get "response" obj = VNull ->
  exists thrown,
    Sourcegraph.toProviderError TypeError_message (VObject obj s) = rejected thrown /\
    Types.isProviderError thrown = false /\
    Engine.toProviderError adapter thrown
    = {| ProviderError.provider := Provider.name adapter;
         ProviderError.message := String_ thrown;
         ProviderError.code := UNKNOWN |} /\
    (thrown = Sourcegraph.TypeError TypeError_message VUndefined "statusCode" \/
     thrown = Sourcegraph.TypeError TypeError_message VNull "statusCode").
Proof.
  intros Hhas Hget. unfold Sourcegraph.toProviderError. rewrite Hhas.
  destruct Hget as [-> | ->]; eexists; (split; [reflexivity | ]);
    repeat split; auto.
Qed.

Lemma sourcegraph_response_undefined_throws_witness :
  exists thrown,
    Sourcegraph.toProviderError (fun _ p => String.append "Cannot read " p)
      (VObject [("name", VOther "RequestError"); ("response", VUndefined)]
               "RequestError: connect ETIMEDOUT")
    = rejected thrown /\
    String_ thrown = "TypeError: Cannot read statusCode".
Proof.
  destruct (sourcegraph_response_undefined_throws
              (fun _ p => String.append "Cannot read " p) SampleWorld.bad
              [("name", VOther "RequestError"); ("response", VUndefined)]
              "RequestError: connect ETIMEDOUT" eq_refl (or_introl eq_refl))
    as (thrown & Hrun & _ & _ & [-> | ->]);
    (eexists; split; [exact Hrun | reflexivity]).
Defined.

(** X7: a search of the Sourcegraph adapter whose request fails rejects,
    and the engine reports the rejection under [sourcegraph] with a
    code that is [AUTH], [RATE_LIMIT] or [UNKNOWN], never [TIMEOUT]:
    a request that timed out is reported as [UNKNOWN]. *)
Theorem sourcegraph_failure_reported
        (TypeError_message : Value -> string -> string)
        (baseUrl : string) (token : option string)
        (post : Sourcegraph.Request -> nat -> Sourcegraph.Outcome)
        (query : SearchQuery.t) (n : nat) (err : Value) :
  (forall request, post request n = Sourcegraph.Threw err) ->
  let adapter := Sourcegraph.SourcegraphProvider TypeError_message baseUrl token post in
  exists reason,
    Provider.search adapter query n = rejected reason /\
    let e := Engine.toProviderError adapter reason in
    ProviderError.provider e = sourcegraph /\
    ProviderError.code e <> TIMEOUT /\
    (ProviderError.code e = AUTH -> ProviderError.message e = "Auth failed") /\
    (ProviderError.code e = RATE_LIMIT -> ProviderError.message e = "Rate limited").
Proof.
  intros Hpost adapter. subst adapter. simpl. unfold Sourcegraph.search. rewrite Hpost.
  destruct (Sourcegraph.toProviderError TypeError_message err) as [e | e] eqn:He.
  - exists e. split; [reflexivity | ].
    destruct (AdapterFacts.sourcegraph_classified _ _ _ He); simpl;
      repeat split; try discriminate; reflexivity.
  - exists e. split; [reflexivity | ].
    destruct (AdapterFacts.sourcegraph_throws _ _ _ He) as [target ->]. simpl.
    repeat split; discriminate.
Qed.

Module SplitFacts.
Import JS.

Definition free_of (sep : ascii) (s : string) : Prop :=
  forall c, In c (list_ascii_of_string s) -> c <> sep.

Lemma String_split_cons (sep : ascii) (s : string) :
  exists piece pieces, String_split sep s = piece :: pieces.
Proof.
  destruct s as [ | c rest]; simpl; [eauto | ].
  destruct (Ascii.eqb c sep); [eauto | ].
  destruct (String_split sep rest); eauto.
Qed.

Lemma String_split_join (sep : ascii) (s : string) :
  String.concat (String sep EmptyString) (String_split sep s) = s.
Proof.
  induction s as [ | c rest IH]; [reflexivity | ].
  simpl String_split.
  destruct (String_split_cons sep rest) as (piece & pieces & Hs).
  rewrite Hs in *. destruct (Ascii.eqb_spec c sep) as [-> | Hne].
  - transitivity (String.append ""
                    (String.append (String sep "")
                       (String.concat (String sep "") (piece :: pieces))));
      [reflexivity | rewrite IH; reflexivity].
  - destruct pieces as [ | piece2 pieces].
    + simpl in *. rewrite IH. reflexivity.
    + transitivity (String c (String.append piece
                      (String.append (String sep "")
                         (String.concat (String sep "") (piece2 :: pieces)))));
        [reflexivity | ].
      f_equal. exact IH.
Qed.

Lemma String_split_free (sep : ascii) (s : string) :
  Forall (free_of sep) (String_split sep s).
Proof.
  induction s as [ | c rest IH]; simpl.
  - constructor; [intros c [] | constructor].
  - destruct (Ascii.eqb_spec c sep) as [-> | Hne].
    + constructor; [intros c [] | exact IH].
    + destruct (String_split sep rest) as [ | piece pieces].
      * constructor; [ | constructor]. intros c' [<- | []]. exact Hne.
      * inversion IH as [ | ? ? Hp Hps]; subst. constructor; [ | exact Hps].
        intros c' [<- | Hin]; [exact Hne | apply Hp, Hin].
Qed.

Lemma append_assoc (a b c : string) :
  String.append (String.append a b) c = String.append a (String.append b c).
Proof.
  induction a as [ | x a IH]; [reflexivity | ].
  change (String x (String.append (String.append a b) c)
          = String x (String.append a (String.append b c))).
  f_equal. exact IH.
Qed.

Lemma concat_snoc (sep : string) (init : list string) (piece : string) :
  String.concat sep (init ++ [piece]) =
  match init with
  | [] => piece
  | _ => String.append (String.concat sep init) (String.append sep piece)
  end.
Proof.
  induction init as [ | x init IH]; [reflexivity | ].
  destruct init as [ | y init].
  - reflexivity.
  - change ((x :: y :: init) ++ [piece]) with (x :: ((y :: init) ++ [piece])).
    change (String.concat sep (x :: (y :: init) ++ [piece]))
      with (String.append x (String.append sep (String.concat sep ((y :: init) ++ [piece])))).
    rewrite IH.
    change (String.concat sep (x :: y :: init))
      with (String.append x (String.append sep (String.concat sep (y :: init)))).
    rewrite !append_assoc. reflexivity.
Qed.

(** The last piece of a split: free of the separator, and what
    follows the last separator of the string. *)
Lemma String_split_last (sep : ascii) (s : string) :
  exists piece,
    Array_pop (String_split sep s) = Some piece /\
    free_of sep piece /\
    (s = piece \/ exists stem, s = String.append stem (String sep piece)).
Proof.
  destruct (String_split_cons sep s) as (p0 & ps & Hs).
  assert (Hlast : exists init piece, String_split sep s = init ++ [piece]).
  { rewrite Hs. destruct (exists_last (l := p0 :: ps)) as (init & piece & ->);
      [discriminate | eauto]. }
  destruct Hlast as (init & piece & Hsplit).
  exists piece. split; [ | split].
  - unfold Array_pop. rewrite Hsplit. apply last_snoc.
  - pose proof (String_split_free sep s) as Hfree. rewrite Hsplit in Hfree.
    apply List.Forall_forall with (x := piece) in Hfree; [exact Hfree | ].
    apply in_or_app. right. left. reflexivity.
  - pose proof (String_split_join sep s) as Hjoin. rewrite Hsplit, concat_snoc in Hjoin.
    destruct init as [ | x init]; [left; congruence | right].
    eexists. symmetry. exact Hjoin.
Qed.

End SplitFacts.

(** X8: what Sourcegraph's [normalize] makes of the line matches and of
    the path.  Without line matches the result spans the lines [1, 1]
    and has the empty snippet; otherwise it spans from the first match
    to the last.  The language is what follows the last dot of the
    path, and for a path without a dot the path itself: the fallback
    ['unknown'] is never taken. *)
Theorem sourcegraph_normalize_lines_language
        (r : Sourcegraph.FileMatch) (baseUrl : string) :
  let result := Sourcegraph.normalize r baseUrl in
  (Sourcegraph.lineMatches r = [] ->
   SearchResult.lines result = (1, 1) /\ SearchResult.snippet result = "") /\
  (forall first final,
      head (Sourcegraph.lineMatches r) = Some first ->
      last (Sourcegraph.lineMatches r) = Some final ->
      SearchResult.lines result
      = (Sourcegraph.lineNumber first, Sourcegraph.lineNumber final)) /\
  SplitFacts.free_of "." (SearchResult.language result) /\
  (Sourcegraph.file_path r = SearchResult.language result \/
   exists stem, Sourcegraph.file_path r
                = String.append stem (String "." (SearchResult.language result))).
Proof.
  intros result. subst result. unfold Sourcegraph.normalize. cbn [SearchResult.lines
    SearchResult.snippet SearchResult.language].
  split; [ | split].
  - intros ->. split; reflexivity.
  - intros first final -> ->. reflexivity.
  - destruct (SplitFacts.String_split_last "." (Sourcegraph.file_path r))
      as (piece & -> & Hfree & Hpath).
    split; assumption.
Qed.

(** X9: a search of the Sourcegraph adapter that is answered returns the
    file matches of the answer in the answer's order, results of other
    types left out, and at most [limit] of them; each is marked
    [sourcegraph] and scored 0.8. *)
Theorem sourcegraph_results_bounded
        (TypeError_message : Value -> string -> string)
        (baseUrl : string) (token : option string)
        (post : Sourcegraph.Request -> nat -> Sourcegraph.Outcome)
        (query : SearchQuery.t) (n : nat) (results : list Sourcegraph.Result) :
  (forall request, post request n = Sourcegraph.Responded results) ->
  0 <= SearchQuery.limit query ->
  exists found,
    Sourcegraph.search TypeError_message baseUrl token post query n = fulfilled found /\
    List.length found
    = Nat.min (Z.to_nat (SearchQuery.limit query))
              (List.length (Sourcegraph.file_matches results)) /\
    Forall (fun r => SearchResult.provider r = sourcegraph /\
                     SearchResult.score r = Sourcegraph.score) found /\
    map SearchResult.path found
    = firstn (Z.to_nat (SearchQuery.limit query))
             (map Sourcegraph.file_path (Sourcegraph.file_matches results)).
Proof.
  intros Hpost Hlimit. unfold Sourcegraph.search. rewrite Hpost.
  eexists. split; [reflexivity | ].
  rewrite AggregateFacts.Array_slice0_pos by exact Hlimit.
  split; [ | split].
  - rewrite length_map, length_firstn. reflexivity.
  - apply List.Forall_forall. intros r Hr.
    apply in_map_iff in Hr as (m & <- & _). split; reflexivity.
  - rewrite map_map. cbn [Sourcegraph.normalize SearchResult.path].
    rewrite <- firstn_map. reflexivity.
Qed.

(** ** The cache table: clear and stats *)

Module ClearFacts.
Import Async SqliteCacheRepository.

Lemma delete_all (w : World.t) :
  delete_where (fun _ => true) w
  = (Z.of_nat (size (World.cache w)), World.set_cache ∅ w).
Proof.
  unfold delete_where. f_equal.
  - rewrite map_filter_id; [reflexivity | intros; reflexivity].
  - f_equal. apply map_empty_filter. intros i x _. simpl. discriminate.
Qed.

Lemma delete_lookup (condition : string -> bool) (w : World.t) (key : string) :
  World.cache (snd (delete_where condition w)) !! key
  = if condition key then None else World.cache w !! key.
Proof.
  simpl. destruct (condition key) eqn:Hc.
  - apply map_lookup_filter_None. right. intros x _. simpl. congruence.
  - destruct (World.cache w !! key) as [row | ] eqn:Hrow.
    + apply map_lookup_filter_Some. split; [exact Hrow | exact Hc].
    + apply map_lookup_filter_None. left. exact Hrow.
Qed.

Lemma delete_count (condition : string -> bool) (w : World.t) :
  fst (delete_where condition w)
  = Z.of_nat (size (World.cache w))
    - Z.of_nat (size (World.cache (snd (delete_where condition w)))).
Proof.
  simpl.
  assert (Hkept : filter (fun kv : string * CacheRow.t => condition (fst kv) = false)
                         (World.cache w)
                  = filter (fun kv => ~ (condition (fst kv) = true)) (World.cache w)).
  { apply map_filter_ext. intros key row _. simpl. destruct (condition key); split;
      congruence. }
  rewrite Hkept.
  pose proof (map_filter_union_complement
                (fun kv : string * CacheRow.t => condition (fst kv) = true)
                (World.cache w)) as Hunion.
  pose proof (map_disjoint_filter_complement
                (fun kv : string * CacheRow.t => condition (fst kv) = true)
                (World.cache w)) as Hdisjoint.
  rewrite <- Hunion at 2. rewrite (map_size_disj_union _ _ Hdisjoint). lia.
Qed.

Lemma clear_run `{Sqlite} (pattern : option string) (w : World.t) :
  World.faults w (World.ticks w) = false ->
  clear pattern w =
  (fulfilled (fst (match pattern with
                   | Some p => if String.eqb p "" then delete_where (fun _ => true) w
                               else delete_where (fun key => like key p) w
                   | None => delete_where (fun _ => true) w
                   end)),
   snd (match pattern with
        | Some p => if String.eqb p "" then delete_where (fun _ => true) w
                    else delete_where (fun key => like key p) w
        | None => delete_where (fun _ => true) w
        end)).
Proof.
  intros Hf. unfold clear, statement. rewrite Hf.
  destruct pattern as [p | ]; [destruct (String.eqb p "") | ]; reflexivity.
Qed.

Lemma minimum_spec (l : list Z) :
  match minimum l with
  | None => l = []
  | Some m => In m l /\ forall x, In x l -> m <= x
  end.
Proof.
  destruct l as [ | x rest]; [reflexivity | ]. simpl.
  revert x. induction rest as [ | y rest IH]; intros x; simpl.
  - split; [left; reflexivity | intros ? [<- | []]; lia].
  - destruct (IH (Z.min x y)) as [Hin Hle]. split.
    + destruct Hin as [Hm | Hin]; [ | right; right; exact Hin].
      rewrite <- Hm. destruct (Z.min_spec x y) as [[_ ->] | [_ ->]]; [left | right; left];
        reflexivity.
    + pose proof (Hle (Z.min x y) (or_introl eq_refl)) as Hself.
      intros z [Hz | [Hz | Hz]]; [lia | lia | ].
      apply Hle. right. exact Hz.
Qed.

Lemma live_In (now : Z) (w : World.t) (row : CacheRow.t) :
  In row (live now w) <->
  exists key, World.cache w !! key = Some row /\ now < CacheRow.expires_at row.
Proof.
  unfold live. rewrite List.filter_In, in_map_iff. split.
  - intros [([key row'] & <- & Hin) Hlive].
    apply list_elem_of_In, elem_of_map_to_list in Hin.
    exists key. split; [exact Hin | ]. simpl in Hlive. apply Z.gtb_lt in Hlive. exact Hlive.
  - intros (key & Hrow & Hlive). split.
    + exists (key, row). split; [reflexivity | ].
      apply list_elem_of_In, elem_of_map_to_list. exact Hrow.
    + apply Z.gtb_lt. exact Hlive.
Qed.

Lemma cache_stats_run `{Sqlite} (w : World.t) :
  World.faults w (World.ticks w) = false ->
  World.faults w (S (World.ticks w)) = false ->
  let now := World.clock w (World.ticks w) / 1000 in
  stats w =
  (fulfilled {| CacheStats.entries := Z.of_nat (List.length (live now w));
                CacheStats.sizeBytes := page_count (World.tick w) * page_size (World.tick w);
                CacheStats.oldestEntry :=
                  match minimum (map CacheRow.created_at (live now w)) with
                  | Some oldest => Some (JS.new_Date (oldest * 1000))
                  | None => None
                  end |},
   World.tick w).
Proof.
  intros Hf1 Hf2 now. unfold stats, bind, now_seconds, statement, ret. simpl.
  rewrite Hf1. change (World.faults (World.tick w)) with (World.faults w).
  rewrite Hf2. reflexivity.
Qed.

End ClearFacts.

(** X10: [clear()] without a pattern, and also with the empty pattern,
    which JavaScript takes as no pattern, deletes every row of the
    cache, the expired ones included, and reports their number.
    Afterwards no key is found, whatever the time; the metrics table is
    not touched. *)
Theorem cache_clear_all `{Sqlite} (pattern : option string) (w : World.t) :
  pattern = None \/ pattern = Some "" ->
  World.faults w (World.ticks w) = false ->
  exists w',
    SqliteCacheRepository.clear pattern w
    = (fulfilled (Z.of_nat (size (World.cache w))), w') /\
    World.cache w' = ∅ /\
    World.metrics w' = World.metrics w /\
    (forall key now, SqliteCacheRepository.select key now w' = None) /\
    (forall key, World.faults w' (World.ticks w') = false ->
                 fst (SqliteCacheRepository.get key w') = fulfilled None).
Proof.
  intros Hp Hf. rewrite ClearFacts.clear_run by exact Hf.
  assert (Hall : match pattern with
                 | Some p => if String.eqb p ""
                             then SqliteCacheRepository.delete_where (fun _ => true) w
                             else SqliteCacheRepository.delete_where (fun key => like key p) w
                 | None => SqliteCacheRepository.delete_where (fun _ => true) w
                 end = (Z.of_nat (size (World.cache w)), World.set_cache ∅ w)).
  { destruct Hp as [-> | ->]; apply ClearFacts.delete_all. }
  rewrite Hall. eexists. split; [reflexivity | ]. simpl.
  split; [reflexivity | split; [reflexivity | split]].
  - intros key now. unfold SqliteCacheRepository.select. simpl.
    rewrite lookup_empty. reflexivity.
  - intros key Hf'. rewrite CacheFacts.get_run. simpl in *. rewrite Hf'.
    unfold SqliteCacheRepository.select. simpl. rewrite lookup_empty. reflexivity.
Qed.

(** X11: [clear(pattern)] with a non-empty pattern deletes exactly the
    rows whose key the pattern matches: those keys are gone, every other
    key keeps its row, and the number reported is the number of rows
    by which the table shrank. *)
Theorem cache_clear_pattern `{Sqlite} (pattern : string) (w : World.t) :
  pattern <> "" ->
  World.faults w (World.ticks w) = false ->
  exists deleted w',
    SqliteCacheRepository.clear (Some pattern) w = (fulfilled deleted, w') /\
    (forall key, World.cache w' !! key
                 = if like key pattern then None else World.cache w !! key) /\
    deleted = Z.of_nat (size (World.cache w)) - Z.of_nat (size (World.cache w')) /\
    0 <= deleted /\
    World.metrics w' = World.metrics w.
Proof.
  intros Hp Hf. rewrite ClearFacts.clear_run by exact Hf.
  destruct (String.eqb_spec pattern "") as [ | _]; [contradiction | ].
  eexists _, _. split; [reflexivity | ].
  split; [ | split; [ | split]].
  - intros key. apply (ClearFacts.delete_lookup (fun key => like key pattern)).
  - apply ClearFacts.delete_count.
  - simpl. lia.
  - reflexivity.
Qed.

(** X12: [stats()] counts what [get] would serve.  At the second the
    statistics are taken, [entries] is zero exactly when no key has a
    row that is still live, and is never more than the number of rows;
    [oldestEntry] is [null] exactly when [entries] is zero, and otherwise
    the date of the earliest [created_at] among the live rows.  The
    table is left as it was. *)
Theorem cache_stats_counts_live `{Sqlite} (w : World.t) :
  World.faults w (World.ticks w) = false ->
  World.faults w (S (World.ticks w)) = false ->
  let now := World.clock w (World.ticks w) / 1000 in
  exists st w',
    SqliteCacheRepository.stats w = (fulfilled st, w') /\
    World.cache w' = World.cache w /\
    0 <= CacheStats.entries st <= Z.of_nat (size (World.cache w)) /\
    (CacheStats.entries st = 0 <->
     forall key, SqliteCacheRepository.select key now w = None) /\
    (CacheStats.oldestEntry st = None <-> CacheStats.entries st = 0) /\
    (forall d, CacheStats.oldestEntry st = Some d ->
       exists key row,
         World.cache w !! key = Some row /\ now < CacheRow.expires_at row /\
         d = JS.new_Date (CacheRow.created_at row * 1000) /\
         forall key' row',
           World.cache w !! key' = Some row' -> now < CacheRow.expires_at row' ->
           CacheRow.created_at row <= CacheRow.created_at row').
Proof.
  intros Hf1 Hf2 now. rewrite (ClearFacts.cache_stats_run w Hf1 Hf2). fold now.
  eexists _, _. split; [reflexivity | ]. cbn [CacheStats.entries CacheStats.oldestEntry].
  split; [reflexivity | ].
  assert (Hnil : SqliteCacheRepository.live now w = [] <->
                 forall key, SqliteCacheRepository.select key now w = None).
  { split.
    - intros Hl key. unfold SqliteCacheRepository.select.
      destruct (World.cache w !! key) as [row | ] eqn:Hrow; [ | reflexivity].
      destruct (Z.gtb_spec (CacheRow.expires_at row) now) as [Hlive | ]; [ | reflexivity].
      exfalso. assert (Hin : In row (SqliteCacheRepository.live now w)).
      { apply ClearFacts.live_In. exists key. split; [exact Hrow | lia]. }
      rewrite Hl in Hin. exact Hin.
    - intros Hnone. destruct (SqliteCacheRepository.live now w) as [ | row l] eqn:Hl;
        [reflexivity | exfalso].
      assert (Hin : In row (SqliteCacheRepository.live now w)) by (rewrite Hl; left; reflexivity).
      apply ClearFacts.live_In in Hin as (key & Hrow & Hlive).
      specialize (Hnone key). unfold SqliteCacheRepository.select in Hnone.
      rewrite Hrow in Hnone.
      destruct (Z.gtb_spec (CacheRow.expires_at row) now); [discriminate | lia]. }
  split; [ | split; [ | split]].
  - split; [lia | ]. unfold SqliteCacheRepository.live.
    apply inj_le. etransitivity; [apply List.filter_length_le | ].
    rewrite length_map, length_map_to_list. reflexivity.
  - rewrite <- Hnil. destruct (SqliteCacheRepository.live now w); simpl; split;
      intros; try reflexivity; try discriminate; lia.
  - pose proof (ClearFacts.minimum_spec
                  (map CacheRow.created_at (SqliteCacheRepository.live now w))) as Hmin.
    destruct (SqliteCacheRepository.live now w) as [ | row l]; simpl in *.
    + split; reflexivity.
    + split; [discriminate | lia].
  - intros d Hd.
    pose proof (ClearFacts.minimum_spec
                  (map CacheRow.created_at (SqliteCacheRepository.live now w))) as Hmin.
    destruct (SqliteCacheRepository.minimum _) as [oldest | ]; [ | discriminate].
    injection Hd as <-. destruct Hmin as [Hin Hle].
    apply in_map_iff in Hin as (row & <- & Hin).
    apply ClearFacts.live_In in Hin as (key & Hrow & Hlive).
    exists key, row. repeat split; try assumption.
    intros key' row' Hrow' Hlive'. apply Hle, in_map.
    apply ClearFacts.live_In. exists key'. split; assumption.
Qed.

(** X13: a row [set] stores with a TTL that has not run out when the
    statistics are taken is counted by [stats()], and after [clear()]
    the statistics are back to no entries and no oldest entry. *)
Theorem cache_stats_after_set_and_clear `{Sqlite}
        (w : World.t) (key : string) (value : SearchResponse.t) (ttlSec : Z) :
  healthy w ->
  World.clock w (S (World.ticks w)) / 1000 < World.clock w (World.ticks w) / 1000 + ttlSec ->
  let w1 := snd (SqliteCacheRepository.set key value ttlSec w) in
  let w2 := snd (SqliteCacheRepository.clear None w1) in
  (exists st, fst (SqliteCacheRepository.stats w1) = fulfilled st /\
              1 <= CacheStats.entries st /\ CacheStats.oldestEntry st <> None) /\
  (exists st, fst (SqliteCacheRepository.stats w2) = fulfilled st /\
              CacheStats.entries st = 0 /\ CacheStats.oldestEntry st = None).
Proof.
  intros Hh Hlive w1 w2.
  assert (Hw1 : World.faults w1 = World.faults w /\ World.ticks w1 = S (World.ticks w) /\
                World.clock w1 = World.clock w /\
                World.cache w1 !! key = Some (CacheFacts.row_written value ttlSec w)).
  { unfold w1. rewrite CacheFacts.set_run, Hh. simpl.
    repeat split. apply lookup_insert_eq. }
  destruct Hw1 as (F1 & T1 & C1 & R1).
  assert (Hw2 : World.faults w2 = World.faults w /\ World.cache w2 = ∅).
  { unfold w2. rewrite ClearFacts.clear_run by (rewrite F1; apply Hh).
    rewrite ClearFacts.delete_all. simpl. split; [exact F1 | reflexivity]. }
  destruct Hw2 as (F2 & E2).
  split.
  - rewrite ClearFacts.cache_stats_run by (rewrite F1; apply Hh). simpl fst.
    eexists. split; [reflexivity | ]. cbn [CacheStats.entries CacheStats.oldestEntry].
    assert (Hin : In (CacheFacts.row_written value ttlSec w)
                     (SqliteCacheRepository.live
                        (World.clock w1 (World.ticks w1) / 1000) w1)).
    { apply ClearFacts.live_In. exists key. split; [exact R1 | ].
      rewrite C1, T1. simpl. exact Hlive. }
    destruct (SqliteCacheRepository.live _ w1) as [ | row l]; [destruct Hin | ].
    simpl. split; [lia | discriminate].
  - rewrite ClearFacts.cache_stats_run by (rewrite F2; apply Hh). simpl fst.
    eexists. split; [reflexivity | ]. cbn [CacheStats.entries CacheStats.oldestEntry].
    unfold SqliteCacheRepository.live. rewrite E2, map_to_list_empty. simpl.
    split; reflexivity.
Qed.

(** ** The metrics table: stats *)

Module StatsFacts.
Import JS Async Metrics.

Lemma metrics_stats_run (sinceSec : option Z) (w : World.t) :
  World.faults w (World.ticks w) = false ->
  let since := World.clock w (World.ticks w) / 1000
               - match sinceSec with Some s => s | None => 86400 end in
  stats sinceSec w =
  (fulfilled (flat_map (fun provider =>
                          match provider_stats since provider (World.metrics w) with
                          | Some st => [st]
                          | None => []
                          end) [github; sourcegraph]),
   World.tick w).
Proof.
  intros Hf since. unfold stats, bind, now_seconds, statement. simpl.
  rewrite Hf. reflexivity.
Qed.

Lemma stats_In (since : Z) (rows : list MetricRow.t) (st : ProviderStats.t) :
  In st (flat_map (fun provider =>
                     match provider_stats since provider rows with
                     | Some st => [st]
                     | None => []
                     end) [github; sourcegraph]) <->
  exists provider, provider_stats since provider rows = Some st.
Proof.
  simpl. rewrite app_nil_r, in_app_iff. split.
  - intros [Hin | Hin].
    + exists github. destruct (provider_stats since github rows) as [s | ];
        [destruct Hin as [-> | []]; reflexivity | destruct Hin].
    + exists sourcegraph. destruct (provider_stats since sourcegraph rows) as [s | ];
        [destruct Hin as [-> | []]; reflexivity | destruct Hin].
  - intros [[ | ] Hp]; rewrite Hp; [left | right]; left; reflexivity.
Qed.

Lemma provider_stats_provider (since : Z) (provider : ProviderName)
      (rows : list MetricRow.t) (st : ProviderStats.t) :
  provider_stats since provider rows = Some st -> ProviderStats.provider st = provider.
Proof.
  unfold provider_stats. destruct (group since provider rows); [discriminate | ].
  intros [= <-]. reflexivity.
Qed.

Lemma provider_stats_fields (since : Z) (provider : ProviderName)
      (rows : list MetricRow.t) (st : ProviderStats.t) :
  provider_stats since provider rows = Some st ->
  let g := group since provider rows in
  let lats := Array_sort numeric_after (latencies g) in
  g <> [] /\
  ProviderStats.requests st = Z.of_nat (List.length g) /\
  ProviderStats.errors st
  = sum (map (fun r => match MetricRow.error r with Some _ => 1 | None => 0 end) g) /\
  ProviderStats.p50 st = percentile lats P50 /\
  ProviderStats.p95 st = percentile lats P95 /\
  ProviderStats.p99 st = percentile lats P99.
Proof.
  unfold provider_stats. destruct (group since provider rows) as [ | r g]; [discriminate | ].
  intros [= <-]. split; [discriminate | ]. repeat split.
Qed.

Lemma group_In (since : Z) (provider : ProviderName) (rows : list MetricRow.t)
      (r : MetricRow.t) :
  In r (group since provider rows) <->
  In r rows /\ since <= MetricRow.ts r /\ MetricRow.provider r = provider.
Proof.
  unfold group. rewrite List.filter_In, andb_true_iff, Z.leb_le, bool_decide_eq_true.
  tauto.
Qed.

Lemma sum_flags {A : Type} (flag : A -> Z) (l : list A) :
  (forall x, In x l -> 0 <= flag x <= 1) ->
  0 <= sum (map flag l) <= Z.of_nat (List.length l).
Proof.
  induction l as [ | x l IH]; intros Hflag; [simpl; lia | ].
  cbn [map sum fold_right List.length].
  pose proof (Hflag x (or_introl eq_refl)).
  specialize (IH (fun y Hy => Hflag y (or_intror Hy))).
  unfold sum in IH. lia.
Qed.

Lemma numeric_after_consistent : SortFacts.consistent numeric_after (fun _ => True).
Proof.
  unfold numeric_after. split.
  - intros x y _ _ Hxy. apply Z.ltb_lt in Hxy. apply Z.ltb_ge. lia.
  - intros x y z _ _ _ Hxy Hyz. apply Z.ltb_ge in Hxy, Hyz. apply Z.ltb_ge. lia.
Qed.

Lemma sorted_ascending (l : list Z) :
  StronglySorted Z.le (Array_sort numeric_after l).
Proof.
  assert (Hs : SortFacts.sorted numeric_after (Array_sort numeric_after l)).
  { apply (SortFacts.Array_sort_sorted numeric_after (fun _ => True)).
    - exact numeric_after_consistent.
    - apply List.Forall_forall. intros; exact I. }
  unfold SortFacts.sorted in Hs.
  induction Hs as [ | a l' Hs IH Ha]; constructor; [exact IH | ].
  apply List.Forall_forall. intros b Hb.
  rewrite List.Forall_forall in Ha. specialize (Ha b Hb).
  unfold numeric_after in Ha. apply Z.ltb_ge in Ha. lia.
Qed.

Lemma ascending_nth (l : list Z) : forall (i j : nat) (a b : Z),
  StronglySorted Z.le l -> (i <= j)%nat ->
  nth_error l i = Some a -> nth_error l j = Some b -> a <= b.
Proof.
  induction l as [ | x l IH]; intros i j a b Hs Hij Ha Hb.
  - destruct i; discriminate.
  - inversion Hs as [ | ? ? Hs' Hx]; subst.
    destruct i as [ | i], j as [ | j]; simpl in *.
    + injection Ha as <-. injection Hb as <-. lia.
    + injection Ha as <-. rewrite List.Forall_forall in Hx.
      apply Hx. eapply nth_error_In, Hb.
    + lia.
    + apply (IH i j); try assumption. lia.
Qed.

(** The sample [percentile] returns, by its index. *)
Lemma percentile_exact (sorted : list Z) (p : float) (num den : Z) :
  sorted <> [] -> 0 < num <= den ->
  Math_ceil (PrimFloat.mul (of_length (List.length sorted)) p)
  = Int (PercentileFacts.exact_ceil (Z.of_nat (List.length sorted)) num den) ->
  nth_error sorted
    (Z.to_nat (PercentileFacts.exact_ceil (Z.of_nat (List.length sorted)) num den - 1))
  = Some (percentile sorted p).
Proof.
  intros Hne Hnum Hceil. unfold percentile.
  set (n := List.length sorted) in *.
  assert (Hn : (1 <= n)%nat).
  { unfold n. destruct sorted; [congruence | simpl; lia]. }
  destruct (Nat.eqb_spec n 0) as [ | _]; [lia | ].
  rewrite Hceil.
  set (c := PercentileFacts.exact_ceil (Z.of_nat n) num den) in *.
  assert (Hc : 1 <= c <= Z.of_nat n).
  { unfold c, PercentileFacts.exact_ceil. split.
    - apply Z.div_le_lower_bound; nia.
    - assert ((Z.of_nat n * num + den - 1) / den < Z.of_nat n + 1); [ | lia].
      apply Z.div_lt_upper_bound; nia. }
  cbn [minus Math_min Math_max Array_get].
  replace (Z.max 0 (Z.min (c - 1) (Z.of_nat n - 1))) with (c - 1) by lia.
  destruct (Z.ltb_spec (c - 1) 0); [lia | ].
  destruct (nth_error sorted (Z.to_nat (c - 1))) as [v | ] eqn:Hv; [reflexivity | ].
  apply nth_error_None in Hv. fold n in Hv. lia.
Qed.

Lemma percentile_member (sorted : list Z) (p : float) :
  p = P50 \/ p = P95 \/ p = P99 -> sorted <> [] -> In (percentile sorted p) sorted.
Proof.
  intros Hp Hne. unfold percentile.
  assert (Hn : (1 <= List.length sorted)%nat).
  { destruct sorted; [congruence | simpl; lia]. }
  destruct (Nat.eqb_spec (List.length sorted) 0) as [ | _]; [lia | ].
  destruct (PercentileFacts.rank_index_in_range (List.length sorted) p Hp Hn)
    as (k & Hk & Hrange).
  unfold PercentileFacts.rank_index in Hk. rewrite Hk. unfold Array_get.
  destruct (Z.ltb_spec k 0); [lia | ].
  destruct (nth_error sorted (Z.to_nat k)) as [v | ] eqn:Hv.
  - eapply nth_error_In, Hv.
  - apply nth_error_None in Hv. lia.
Qed.

Lemma latencies_length (rows : list MetricRow.t) :
  (List.length (latencies rows) <= List.length rows)%nat.
Proof.
  induction rows as [ | r rows IH]; simpl; [lia | ].
  rewrite length_app. destruct (MetricRow.elapsed_ms r); simpl; lia.
Qed.

Lemma group_length (since : Z) (provider : ProviderName) (rows : list MetricRow.t) :
  (List.length (group since provider rows) <= List.length rows)%nat.
Proof. apply List.filter_length_le. Qed.

Lemma percentiles_ordered (samples : list Z) :
  Z.of_nat (List.length samples) < 2 ^ 32 ->
  let lats := Array_sort numeric_after samples in
  percentile lats P50 <= percentile lats P95 <= percentile lats P99.
Proof.
  intros Hlen lats.
  destruct samples as [ | s samples]; [unfold lats; cbn; lia | ].
  assert (Hne : lats <> []).
  { intros Hnil. apply (f_equal (@List.length Z)) in Hnil.
    unfold lats in Hnil. rewrite SortFacts.Array_sort_length in Hnil. discriminate. }
  assert (Hl : List.length lats = List.length (s :: samples))
    by apply SortFacts.Array_sort_length.
  assert (Hz : 0 < Z.of_nat (List.length lats) < 2 ^ 32) by (rewrite Hl; simpl in *; lia).
  pose proof (percentile_exact lats P50 1 2 Hne ltac:(lia)
                (PercentileFacts.Math_ceil_P50 _ Hz)) as H50.
  pose proof (percentile_exact lats P95 19 20 Hne ltac:(lia)
                (PercentileFacts.Math_ceil_P95 _ Hz)) as H95.
  pose proof (percentile_exact lats P99 99 100 Hne ltac:(lia)
                (PercentileFacts.Math_ceil_P99 _ Hz)) as H99.
  pose proof (sorted_ascending (s :: samples)) as Hs. fold lats in Hs.
  unfold PercentileFacts.exact_ceil in *.
  set (n := Z.of_nat (List.length lats)) in *.
  split.
  - refine (ascending_nth lats _ _ _ _ Hs _ H50 H95).
    clearbody n. clear - Hz. apply Z2Nat.inj_le; Z.to_euclidean_division_equations; lia.
  - refine (ascending_nth lats _ _ _ _ Hs _ H95 H99).
    clearbody n. clear - Hz. apply Z2Nat.inj_le; Z.to_euclidean_division_equations; lia.
Qed.

End StatsFacts.

(** X14: in the statistics of a provider the percentiles are ordered,
    [p50 <= p95 <= p99].  (The table holds fewer rows than an array can
    hold elements.) *)
Theorem metrics_percentiles_ordered
        (sinceSec : option Z) (w : World.t) (sts : list ProviderStats.t) :
  Z.of_nat (List.length (World.metrics w)) < 2 ^ 32 ->
  fst (Metrics.stats sinceSec w) = fulfilled sts ->
  forall st, In st sts ->
    ProviderStats.p50 st <= ProviderStats.p95 st <= ProviderStats.p99 st.
Proof.
  intros Hlen Hrun st Hst.
  destruct (World.faults w (World.ticks w)) eqn:Hf.
  { unfold Metrics.stats, Async.bind, Async.now_seconds, Async.statement in Hrun.
    simpl in Hrun. rewrite Hf in Hrun. discriminate. }
  rewrite (StatsFacts.metrics_stats_run sinceSec w Hf) in Hrun. simpl in Hrun.
  injection Hrun as <-.
  apply StatsFacts.stats_In in Hst as (provider & Hp).
  destruct (StatsFacts.provider_stats_fields _ _ _ _ Hp) as (_ & _ & _ & -> & -> & ->).
  apply StatsFacts.percentiles_ordered.
  pose proof (StatsFacts.latencies_length
                (Metrics.group (World.clock w (World.ticks w) / 1000
                                - match sinceSec with Some s => s | None => 86400 end)
                               provider (World.metrics w))) as H1.
  pose proof (StatsFacts.group_length
                (World.clock w (World.ticks w) / 1000
                 - match sinceSec with Some s => s | None => 86400 end)
                provider (World.metrics w)) as H2.
  lia.
Qed.

(** X15: every percentile [stats] reports is one of the latencies
    recorded for the provider in the window, and 0 when none was: the
    rows of failed requests carry no latency, so a provider that only
    failed reports 0 three times. *)
Theorem metrics_percentiles_are_samples
        (sinceSec : option Z) (w : World.t) (sts : list ProviderStats.t) :
  fst (Metrics.stats sinceSec w) = fulfilled sts ->
  let since := World.clock w (World.ticks w) / 1000
               - match sinceSec with Some s => s | None => 86400 end in
  forall st, In st sts ->
    let samples :=
      Metrics.latencies (Metrics.group since (ProviderStats.provider st) (World.metrics w)) in
    (samples = [] ->
     ProviderStats.p50 st = 0 /\ ProviderStats.p95 st = 0 /\ ProviderStats.p99 st = 0) /\
    (samples <> [] ->
     In (ProviderStats.p50 st) samples /\ In (ProviderStats.p95 st) samples /\
     In (ProviderStats.p99 st) samples).
Proof.
  intros Hrun since st Hst samples.
  destruct (World.faults w (World.ticks w)) eqn:Hf.
  { unfold Metrics.stats, Async.bind, Async.now_seconds, Async.statement in Hrun.
    simpl in Hrun. rewrite Hf in Hrun. discriminate. }
  rewrite (StatsFacts.metrics_stats_run sinceSec w Hf) in Hrun. simpl in Hrun.
  injection Hrun as <-.
  apply StatsFacts.stats_In in Hst as (provider & Hp). fold since in Hp.
  pose proof (StatsFacts.provider_stats_provider _ _ _ _ Hp) as Hprov.
  destruct (StatsFacts.provider_stats_fields _ _ _ _ Hp) as (_ & _ & _ & -> & -> & ->).
  subst samples. rewrite Hprov.
  set (samples := Metrics.latencies (Metrics.group since provider (World.metrics w))).
  split.
  - intros Hnil. rewrite Hnil. repeat split.
  - intros Hne.
    assert (Hsorted : JS.Array_sort Metrics.numeric_after samples <> []).
    { intros Hnil. apply (f_equal (@List.length Z)) in Hnil.
      rewrite SortFacts.Array_sort_length in Hnil.
      destruct samples; [congruence | discriminate]. }
    repeat split; apply (SortFacts.Array_sort_In Metrics.numeric_after);
      apply StatsFacts.percentile_member; auto.
Qed.

(** X16: [stats] lists a provider exactly when it has a row in the
    window, and no provider twice.  For a listed provider [requests]
    is the number of its rows in the window, so at least 1, and [errors]
    lies between 0 and [requests].  The table is left as it was. *)
Theorem metrics_stats_groups (sinceSec : option Z) (w : World.t) :
  World.faults w (World.ticks w) = false ->
  let since := World.clock w (World.ticks w) / 1000
               - match sinceSec with Some s => s | None => 86400 end in
  exists sts w',
    Metrics.stats sinceSec w = (fulfilled sts, w') /\
    World.metrics w' = World.metrics w /\
    List.NoDup (map ProviderStats.provider sts) /\
    (forall provider,
        (exists st, In st sts /\ ProviderStats.provider st = provider) <->
        (exists r, In r (World.metrics w) /\ MetricRow.provider r = provider /\
                   since <= MetricRow.ts r)) /\
    (forall st, In st sts ->
       ProviderStats.requests st
       = Z.of_nat (List.length
                     (Metrics.group since (ProviderStats.provider st) (World.metrics w))) /\
       1 <= ProviderStats.requests st /\
       0 <= ProviderStats.errors st <= ProviderStats.requests st).
Proof.
  intros Hf since. rewrite (StatsFacts.metrics_stats_run sinceSec w Hf). fold since.
  eexists _, _. split; [reflexivity | ]. split; [reflexivity | ].
  split; [ | split].
  - simpl. rewrite app_nil_r.
    destruct (Metrics.provider_stats since github (World.metrics w)) as [s1 | ] eqn:H1;
      destruct (Metrics.provider_stats since sourcegraph (World.metrics w)) as [s2 | ] eqn:H2;
      simpl; repeat constructor; simpl; try tauto.
    rewrite (StatsFacts.provider_stats_provider _ _ _ _ H1),
            (StatsFacts.provider_stats_provider _ _ _ _ H2).
    intros [Heq | []]. discriminate.
  - intros provider. split.
    + intros (st & Hst & Hprov).
      apply StatsFacts.stats_In in Hst as (provider' & Hp).
      rewrite (StatsFacts.provider_stats_provider _ _ _ _ Hp) in Hprov. subst provider'.
      unfold Metrics.provider_stats in Hp.
      destruct (Metrics.group since provider (World.metrics w)) as [ | r g] eqn:Hg;
        [discriminate | ].
      assert (Hr : In r (Metrics.group since provider (World.metrics w)))
        by (rewrite Hg; left; reflexivity).
      apply StatsFacts.group_In in Hr as (Hin & Hts & Hpr).
      exists r. auto.
    + intros (r & Hin & Hpr & Hts).
      assert (Hr : In r (Metrics.group since provider (World.metrics w)))
        by (apply StatsFacts.group_In; auto).
      destruct (Metrics.provider_stats since provider (World.metrics w)) as [st | ] eqn:Hp.
      * exists st. split; [apply StatsFacts.stats_In; eauto | ].
        apply (StatsFacts.provider_stats_provider _ _ _ _ Hp).
      * unfold Metrics.provider_stats in Hp.
        destruct (Metrics.group since provider (World.metrics w)); [destruct Hr | discriminate].
  - intros st Hst. apply StatsFacts.stats_In in Hst as (provider & Hp).
    rewrite (StatsFacts.provider_stats_provider _ _ _ _ Hp).
    destruct (StatsFacts.provider_stats_fields _ _ _ _ Hp) as (Hne & -> & -> & _).
    split; [reflexivity | ]. split.
    + destruct (Metrics.group since provider (World.metrics w)); [congruence | simpl; lia].
    + apply (StatsFacts.sum_flags
               (fun r => match MetricRow.error r with Some _ => 1 | None => 0 end)).
      intros x _. destruct (MetricRow.error x); lia.
Qed.

(** X17: a request that [record] wrote shows up in [stats]: as long as the
    window reaches back to the second of the recording, the provider of
    the record is listed, with one request more than its earlier rows
    in the window, and with at least one error if the record carries
    one. *)
Theorem metrics_record_then_stats
        (w : World.t) (m : MetricRecord.t) (sinceSec : option Z) :
  healthy w ->
  let since := World.clock w (S (World.ticks w)) / 1000
               - match sinceSec with Some s => s | None => 86400 end in
  since <= World.clock w (World.ticks w) / 1000 ->
  let w1 := snd (SqliteMetrics.record m w) in
  exists sts st,
    fst (Metrics.stats sinceSec w1) = fulfilled sts /\
    In st sts /\
    ProviderStats.provider st = MetricRecord.provider m /\
    ProviderStats.requests st
    = 1 + Z.of_nat (List.length
                      (Metrics.group since (MetricRecord.provider m) (World.metrics w))) /\
    (MetricRecord.error m <> None -> 1 <= ProviderStats.errors st).
Proof.
  intros Hh since Hwindow w1.
  set (row := {| MetricRow.ts := World.clock w (World.ticks w) / 1000;
                 MetricRow.provider := MetricRecord.provider m;
                 MetricRow.query := MetricRecord.query m;
                 MetricRow.cache_hit := if MetricRecord.cacheHit m then 1 else 0;
                 MetricRow.results := MetricRecord.results m;
                 MetricRow.elapsed_ms := MetricRecord.elapsedMs m;
                 MetricRow.error := MetricRecord.error m |}).
  assert (Hw1 : w1 = World.set_metrics (World.metrics w ++ [row]) (World.tick w)).
  { unfold w1, SqliteMetrics.record, Async.bind, Async.now_seconds, Async.statement.
    simpl. rewrite Hh. reflexivity. }
  rewrite (StatsFacts.metrics_stats_run sinceSec w1) by (rewrite Hw1; apply Hh).
  rewrite Hw1. simpl fst. cbn [World.set_metrics World.tick World.metrics World.clock
                               World.ticks].
  fold since.
  assert (Hg : Metrics.group since (MetricRecord.provider m) (World.metrics w ++ [row])
               = Metrics.group since (MetricRecord.provider m) (World.metrics w) ++ [row]).
  { unfold Metrics.group. rewrite List.filter_app. f_equal. simpl.
    destruct (Z.leb_spec since (World.clock w (World.ticks w) / 1000)); [ | lia].
    rewrite bool_decide_eq_true_2 by reflexivity. reflexivity. }
  destruct (Metrics.provider_stats since (MetricRecord.provider m) (World.metrics w ++ [row]))
    as [st | ] eqn:Hp.
  2:{ unfold Metrics.provider_stats in Hp. rewrite Hg in Hp.
      destruct (Metrics.group since _ (World.metrics w)); discriminate. }
  eexists _, st. split; [reflexivity | ].
  split; [apply StatsFacts.stats_In; eauto | ].
  split; [apply (StatsFacts.provider_stats_provider _ _ _ _ Hp) | ].
  destruct (StatsFacts.provider_stats_fields _ _ _ _ Hp) as (_ & -> & -> & _).
  rewrite Hg. split.
  - rewrite length_app. simpl. lia.
  - intros Herr. rewrite map_app. unfold Metrics.sum. rewrite fold_right_app.
    cbn [map fold_right MetricRow.error row].
    destruct (MetricRecord.error m) as [e | ]; [ | congruence].
    pose proof (StatsFacts.sum_flags
                  (fun r => match MetricRow.error r with Some _ => 1 | None => 0 end)
                  (Metrics.group since (MetricRecord.provider m) (World.metrics w))
                  ltac:(intros x _; cbv beta; destruct (MetricRow.error x); lia)) as [Hlo _].
    unfold Metrics.sum in Hlo.
    assert (Hshift : forall l acc, fold_right Z.add acc l = fold_right Z.add 0 l + acc).
    { clear. induction l as [ | x l IH]; intros acc; simpl; [lia | rewrite IH; lia]. }
    rewrite Hshift. lia.
Qed.

(** ** search: what it writes and what it returns *)

Module SearchFacts.
Import Async Engine EngineFacts.

(** The metrics row the loop writes for one settlement. *)
Definition provider_row (q : string) (ts elapsed : Z)
           (s : Settled (list SearchResult.t)) (p : Provider.t) : MetricRow.t :=
  match s with
  | fulfilled value =>
      {| MetricRow.ts := ts;
         MetricRow.provider := Provider.name p;
         MetricRow.query := Some q;
         MetricRow.cache_hit := 0;
         MetricRow.results := Some (Z.of_nat (List.length value));
         MetricRow.elapsed_ms := Some elapsed;
         MetricRow.error := None |}
  | rejected err =>
      {| MetricRow.ts := ts;
         MetricRow.provider := Provider.name p;
         MetricRow.query := Some q;
         MetricRow.cache_hit := 0;
         MetricRow.results := None;
         MetricRow.elapsed_ms := None;
         MetricRow.error := Some (ProviderError.message (toProviderError p err)) |}
  end.

(** The rows of a loop that starts when the clock has been read [i]
    times: an iteration reads the clock twice, for the elapsed time and
    for the time stamp of the row. *)
Fixpoint provider_rows (q : string) (t0 : Z) (clock : nat -> Z) (faults : nat -> bool)
         (i : nat) (items : list (Settled (list SearchResult.t) * Provider.t))
  : list MetricRow.t :=
  match items with
  | [] => []
  | (s, p) :: rest =>
      (if faults (S i) then []
       else [provider_row q (clock (S i) / 1000) (clock i - t0) s p])
      ++ provider_rows q t0 clock faults (S (S i)) rest
  end.

Lemma record_run (m : MetricRecord.t) (w : World.t) :
  catch (SqliteMetrics.record m) swallow w =
  (fulfilled tt,
   if World.faults w (World.ticks w) then World.tick w
   else World.set_metrics
          (World.metrics w ++
           [ {| MetricRow.ts := World.clock w (World.ticks w) / 1000;
                MetricRow.provider := MetricRecord.provider m;
                MetricRow.query := MetricRecord.query m;
                MetricRow.cache_hit := if MetricRecord.cacheHit m then 1 else 0;
                MetricRow.results := MetricRecord.results m;
                MetricRow.elapsed_ms := MetricRecord.elapsedMs m;
                MetricRow.error := MetricRecord.error m |} ])
          (World.tick w)).
Proof.
  unfold catch, SqliteMetrics.record, bind, now_seconds, statement, swallow, ret. simpl.
  destruct (World.faults w (World.ticks w)); reflexivity.
Qed.

Lemma collect_metrics (q : string) (t0 : Z)
      (items : list (Settled (list SearchResult.t) * Provider.t)) :
  forall (results : list SearchResult.t) (errors : list ProviderError.t) (w : World.t),
    World.metrics (snd (collect q t0 items results errors w))
    = World.metrics w
      ++ provider_rows q t0 (World.clock w) (World.faults w) (World.ticks w) items.
Proof.
  induction items as [ | [s provider] items IH]; intros results errors w.
  - simpl. symmetry. apply app_nil_r.
  - cbn [collect provider_rows]. unfold bind at 1. rewrite Date_now_run.
    destruct s as [value | err].
    + unfold bind at 1. rewrite record_run.
      change (World.ticks (World.tick w)) with (S (World.ticks w)).
      change (World.faults (World.tick w)) with (World.faults w).
      change (World.clock (World.tick w)) with (World.clock w).
      rewrite IH.
      destruct (World.faults w (S (World.ticks w))); simpl.
      * reflexivity.
      * rewrite <- app_assoc. reflexivity.
    + unfold bind at 1. rewrite record_run.
      change (World.ticks (World.tick w)) with (S (World.ticks w)).
      change (World.faults (World.tick w)) with (World.faults w).
      change (World.clock (World.tick w)) with (World.clock w).
      rewrite IH.
      destruct (World.faults w (S (World.ticks w))); simpl.
      * reflexivity.
      * rewrite <- app_assoc. reflexivity.
Qed.

Lemma looked_up_absent (query : SearchQuery.t) (w : World.t) :
  World.cache w !! hashQuery (Types.normalizeQuery query) = None ->
  looked_up query w = None.
Proof.
  intros Hrow. unfold looked_up, SqliteCacheRepository.select. rewrite Hrow.
  destruct (World.faults w (S (World.ticks w))); reflexivity.
Qed.

Lemma looked_up_expired (query : SearchQuery.t) (w : World.t) (row : CacheRow.t) :
  World.cache w !! hashQuery (Types.normalizeQuery query) = Some row ->
  CacheRow.expires_at row <= World.clock w (S (World.ticks w)) / 1000 ->
  looked_up query w = None.
Proof.
  intros Hrow Hexp. unfold looked_up, SqliteCacheRepository.select. rewrite Hrow.
  destruct (World.faults w (S (World.ticks w))); [reflexivity | ].
  destruct (Z.gtb_spec (CacheRow.expires_at row) (World.clock w (S (World.ticks w)) / 1000));
    [lia | reflexivity].
Qed.

Section Search.
Context `{JS.Host}.
Variable this : SearchEngine.t.

(** The metrics table after a miss. *)
Lemma search_miss_metrics (query : SearchQuery.t) (w : World.t) :
  looked_up query w = None ->
  World.metrics (snd (search this query w))
  = World.metrics w
    ++ provider_rows (SearchQuery.q query) (World.clock w (World.ticks w))
         (World.clock w) (World.faults w) (S (S (World.ticks w))) (settled this query w).
Proof.
  intros Hmiss. unfold search.
  unfold bind at 1. rewrite Date_now_run.
  unfold bind at 1. rewrite lookup_run.
  change (World.ticks (World.tick w)) with (S (World.ticks w)).
  change (World.faults (World.tick w)) with (World.faults w).
  change (World.clock (World.tick w)) with (World.clock w).
  change (SqliteCacheRepository.select ?k ?n (World.tick w))
    with (SqliteCacheRepository.select k n w).
  fold (looked_up query w). rewrite Hmiss.
  unfold bind at 1. rewrite allSettled_run.
  change (World.calls (World.tick (World.tick w))) with (World.calls w).
  fold (settled this query w).
  set (w2 := World.set_calls _ (World.tick (World.tick w))).
  pose proof (collect_metrics (SearchQuery.q (Types.normalizeQuery query))
                (World.clock w (World.ticks w)) (settled this query w) [] [] w2) as Hm.
  unfold bind at 1.
  destruct (collect_run (SearchQuery.q (Types.normalizeQuery query))
              (World.clock w (World.ticks w)) (settled this query w) [] [] w2)
    as (w3 & Hrun & _ & _).
  rewrite Hrun in Hm |- *. simpl in Hm.
  unfold bind at 1. rewrite Date_now_run.
  unfold bind at 1. rewrite store_swallowed. unfold ret. cbn [snd].
  assert (Hfinal : forall c, World.metrics
                     (if World.faults (World.tick w3) (World.ticks (World.tick w3))
                      then World.tick (World.tick w3)
                      else World.set_cache c (World.tick (World.tick w3)))
                   = World.metrics w3).
  { intros c. destruct (World.faults _ _); reflexivity. }
  rewrite Hfinal, Hm. reflexivity.
Qed.

(** The metrics table after a hit. *)
Lemma search_hit_metrics (query : SearchQuery.t) (w : World.t) (c : SearchResponse.t)
      (first : ProviderName) (rest : list ProviderName) :
  looked_up query w = Some c ->
  SearchQuery.providers (Types.normalizeQuery query) = first :: rest ->
  World.metrics (snd (search this query w))
  = if World.faults w (S (S (World.ticks w))) then World.metrics w
    else World.metrics w ++
         [ {| MetricRow.ts := World.clock w (S (S (World.ticks w))) / 1000;
              MetricRow.provider := first;
              MetricRow.query := Some (SearchQuery.q query);
              MetricRow.cache_hit := 1;
              MetricRow.results :=
                Some (Z.of_nat (List.length (SearchResponse.results c)));
              MetricRow.elapsed_ms := Some 0;
              MetricRow.error := None |} ].
Proof.
  intros Hhit Hps. unfold search.
  unfold bind at 1. rewrite Date_now_run.
  unfold bind at 1. rewrite lookup_run.
  change (World.ticks (World.tick w)) with (S (World.ticks w)).
  change (World.faults (World.tick w)) with (World.faults w).
  change (World.clock (World.tick w)) with (World.clock w).
  change (SqliteCacheRepository.select ?k ?n (World.tick w))
    with (SqliteCacheRepository.select k n w).
  fold (looked_up query w). rewrite Hhit, Hps.
  unfold bind at 1. rewrite record_run.
  unfold bind at 1. rewrite Date_now_run. unfold ret. cbn [snd].
  change (World.ticks (World.tick (World.tick w))) with (S (S (World.ticks w))).
  change (World.faults (World.tick (World.tick w))) with (World.faults w).
  destruct (World.faults w (S (S (World.ticks w)))); reflexivity.
Qed.

Lemma settled_In (normalized : SearchQuery.t) (ps : list Provider.t) :
  forall (n : nat) (s : Settled (list SearchResult.t)) (p : Provider.t),
    In (s, p) (combine (settle_all normalized n ps) ps) ->
    In p ps /\ exists i, s = Provider.search p normalized i.
Proof.
  induction ps as [ | p0 ps IH]; intros n s p Hin; [destruct Hin | ].
  simpl in Hin. destruct Hin as [[= <- <-] | Hin].
  - split; [left; reflexivity | eauto].
  - destruct (IH _ _ _ Hin) as [Hp Hs]. split; [right; exact Hp | exact Hs].
Qed.

Lemma values_of_In (items : list (Settled (list SearchResult.t) * Provider.t))
      (x : SearchResult.t) :
  In x (values_of items) ->
  exists found p, In (fulfilled found, p) items /\ In x found.
Proof.
  unfold values_of. rewrite in_flat_map. intros ([s p] & Hin & Hx). simpl in Hx.
  destruct s as [found | err]; [eauto | destruct Hx].
Qed.

Lemma activeProviders_In (normalized : SearchQuery.t) (p : Provider.t) :
  In p (activeProviders this normalized) ->
  exists name, In name (SearchQuery.providers normalized) /\
               SearchEngine.providers this name = Some p.
Proof.
  unfold activeProviders. rewrite in_flat_map. intros (name & Hname & Hp).
  exists name. split; [exact Hname | ].
  destruct (SearchEngine.providers this name) as [p' | ]; [ | destruct Hp].
  destruct Hp as [-> | []]. reflexivity.
Qed.

End Search.

Lemma provider_rows_healthy (q : string) (t0 : Z) (clock : nat -> Z) (faults : nat -> bool)
      (items : list (Settled (list SearchResult.t) * Provider.t)) :
  (forall n, faults n = false) ->
  forall i,
    map MetricRow.provider (provider_rows q t0 clock faults i items)
    = map (fun sp => Provider.name (snd sp)) items /\
    Forall (fun row => MetricRow.cache_hit row = 0 /\ MetricRow.query row = Some q /\
                       (MetricRow.error row = None <-> MetricRow.elapsed_ms row <> None))
           (provider_rows q t0 clock faults i items) /\
    flat_map (fun row => match MetricRow.error row with Some m => [m] | None => [] end)
             (provider_rows q t0 clock faults i items)
    = map ProviderError.message (errors_of items).
Proof.
  intros Hh. induction items as [ | [s p] items IH]; intros i.
  - repeat split. constructor.
  - cbn [provider_rows]. rewrite Hh. destruct (IH (S (S i))) as (IH1 & IH2 & IH3).
    cbn [app map]. split; [ | split].
    + rewrite IH1. destruct s; reflexivity.
    + constructor; [ | exact IH2].
      destruct s; simpl; repeat split; try discriminate; try congruence.
    + cbn [flat_map]. rewrite IH3. unfold errors_of. cbn [flat_map fst snd].
      destruct s; reflexivity.
Qed.

End SearchFacts.


(** X18: [slice(0, limit)] with a limit that is not positive.  With the
    limit 0 nothing is returned; with a negative limit [-k] the [k]
    lowest-ranked results are cut off the end of the ranking and the
    rest is returned. *)
Theorem aggregate_nonpositive_limit
        `{JS.Host} (results : list SearchResult.t) (k : Z) :
  0 < k ->
  Aggregate.aggregate results 0 = [] /\
  exists dropped,
    Aggregate.aggregate results (Z.of_nat (List.length results))
    = Aggregate.aggregate results (- k) ++ dropped /\
    List.length dropped = Nat.min (Z.to_nat k) (distinct_urls results).
Proof.
  intros Hk. rewrite !AggregateFacts.aggregate_slice. split; [reflexivity | ].
  rewrite (AggregateFacts.Array_slice0_all _ (Z.of_nat (List.length results))).
  2:{ rewrite (Permutation_length (AggregateFacts.ranking_perm results)).
      pose proof (AggregateFacts.unique_length_le results). lia. }
  unfold JS.Array_slice0. destruct (Z.ltb_spec (- k) 0); [ | lia].
  set (n := Z.to_nat (Z.max (Z.of_nat (List.length (AggregateFacts.ranking results)) + - k) 0)).
  exists (skipn n (AggregateFacts.ranking results)). split.
  - symmetry. apply firstn_skipn.
  - rewrite length_skipn. unfold n. rewrite AggregateFacts.ranking_length. lia.
Qed.

Lemma aggregate_nonpositive_limit_witness :
  0 < 1 /\
  exists dropped,
    @Aggregate.aggregate Samples.host Samples.results 4
    = @Aggregate.aggregate Samples.host Samples.results (- 1) ++ dropped /\
    List.length dropped = 1%nat.
Proof.
  split; [lia | ].
  destruct (@aggregate_nonpositive_limit Samples.host Samples.results 1 ltac:(lia))
    as (_ & dropped & Hsplit & Hlen).
  exists dropped. split; [exact Hsplit | ].
  rewrite Hlen. vm_compute. reflexivity.
Defined.

(** X19: the response of a cache miss.  It is not marked [cached], echoes
    the normal form of the query, has [total] equal to the number of
    its results, no url twice, and, for a limit that is not negative,
    at most [limit] results; every result is one that an active
    provider, registered under a requested name, returned. *)
Theorem search_miss_response_shape
        `{JS.Host} (this : SearchEngine.t) (query : SearchQuery.t) (w : World.t) :
  World.cache w !! Engine.hashQuery (Types.normalizeQuery query) = None ->
  exists r w',
    Engine.search this query w = (fulfilled r, w') /\
    SearchResponse.cached r = false /\
    SearchResponse.query r = Types.normalizeQuery query /\
    SearchResponse.total r = Z.of_nat (List.length (SearchResponse.results r)) /\
    List.NoDup (map SearchResult.url (SearchResponse.results r)) /\
    (0 <= SearchQuery.limit query -> SearchResponse.total r <= SearchQuery.limit query) /\
    (forall x, In x (SearchResponse.results r) ->
       exists name p i found,
         In name (SearchQuery.providers query) /\
         SearchEngine.providers this name = Some p /\
         Provider.search p (Types.normalizeQuery query) i = fulfilled found /\
         In x found).
Proof.
  intros Habsent.
  destruct (EngineFacts.search_miss this query w (SearchFacts.looked_up_absent _ _ Habsent))
    as (w' & Hrun & _).
  eexists _, w'. split; [exact Hrun | ].
  unfold EngineFacts.miss_response.
  cbn [SearchResponse.cached SearchResponse.query SearchResponse.total
       SearchResponse.results].
  split; [reflexivity | split; [reflexivity | split; [reflexivity | ]]].
  rewrite AggregateFacts.aggregate_slice. split; [ | split].
  - rewrite AggregateFacts.Array_slice0_map.
    apply AggregateFacts.Array_slice0_NoDup, AggregateFacts.ranking_urls_NoDup.
  - intros Hlimit. change (SearchQuery.limit (Types.normalizeQuery query))
      with (SearchQuery.limit query).
    rewrite AggregateFacts.Array_slice0_pos by exact Hlimit.
    rewrite length_firstn. lia.
  - intros x Hx. apply AggregateFacts.Array_slice0_incl in Hx.
    apply (Permutation_in _ (AggregateFacts.ranking_perm _)) in Hx.
    apply AggregateFacts.unique_first in Hx as (before & after & Hsplit & _).
    assert (Hin : In x (EngineFacts.values_of (EngineFacts.settled this query w))).
    { rewrite Hsplit. apply in_or_app. right. left. reflexivity. }
    apply SearchFacts.values_of_In in Hin as (found & p & Hitem & Hfound).
    apply SearchFacts.settled_In in Hitem as (Hp & i & Hs).
    apply SearchFacts.activeProviders_In in Hp as (name & Hname & Hreg).
    exists name, p, i, found. split; [ | split; [exact Hreg | split; [auto | exact Hfound]]].
    simpl in Hname. apply (proj1 (SortFacts.Array_sort_In _ _ _)) in Hname. exact Hname.
Qed.

(** X20: a cache miss writes one metrics row per active provider, in the
    order they were asked: the row carries the provider's name and the
    query text and is not a cache hit; a provider that answered has a
    row with a latency and no error, a provider that failed a row with
    the message the response reports for it and no latency.  The
    database is healthy. *)
Theorem search_miss_records_providers
        `{JS.Host} (this : SearchEngine.t) (query : SearchQuery.t) (w : World.t) :
  healthy w ->
  World.cache w !! Engine.hashQuery (Types.normalizeQuery query) = None ->
  exists r w' rows,
    Engine.search this query w = (fulfilled r, w') /\
    World.metrics w' = World.metrics w ++ rows /\
    map MetricRow.provider rows
    = map Provider.name (Engine.activeProviders this (Types.normalizeQuery query)) /\
    Forall (fun row => MetricRow.cache_hit row = 0 /\
                       MetricRow.query row = Some (SearchQuery.q query) /\
                       (MetricRow.error row = None <-> MetricRow.elapsed_ms row <> None))
           rows /\
    flat_map (fun row => match MetricRow.error row with Some m => [m] | None => [] end) rows
    = map ProviderError.message (SearchResponse.errors r).
Proof.
  intros Hh Habsent.
  pose proof (SearchFacts.looked_up_absent _ _ Habsent) as Hmiss.
  destruct (EngineFacts.search_miss this query w Hmiss) as (w' & Hrun & _).
  pose proof (SearchFacts.search_miss_metrics this query w Hmiss) as Hm.
  rewrite Hrun in Hm. simpl in Hm.
  destruct (SearchFacts.provider_rows_healthy (SearchQuery.q query)
              (World.clock w (World.ticks w)) (World.clock w) (World.faults w)
              (EngineFacts.settled this query w) Hh (S (S (World.ticks w))))
    as (H1 & H2 & H3).
  eexists _, w', _. split; [exact Hrun | ]. split; [exact Hm | ].
  split; [ | split; [exact H2 | exact H3]].
  rewrite H1. unfold EngineFacts.settled.
  rewrite <- (map_map snd Provider.name).
  assert (Hsnd : forall (normalized : SearchQuery.t) (ps : list Provider.t) (n : nat),
             map snd (combine (EngineFacts.settle_all normalized n ps) ps) = ps).
  { clear. intros normalized ps. induction ps as [ | p ps IH]; intros n; simpl;
      [reflexivity | rewrite IH; reflexivity]. }
  rewrite Hsnd. reflexivity.
Qed.

(** X21: a cache hit is booked as one metrics row, a cache hit with no
    latency, on the first provider of the normalised query: on [github]
    whenever the request names it, wherever in the list.  No adapter is
    invoked. *)
Theorem cache_hit_booked_on_first_provider
        `{JS.Host} (this : SearchEngine.t) (query : SearchQuery.t)
        (w : World.t) (row : CacheRow.t) :
  healthy w ->
  SearchQuery.providers query <> [] ->
  World.cache w !! Engine.hashQuery (Types.normalizeQuery query) = Some row ->
  World.clock w (S (World.ticks w)) / 1000 < CacheRow.expires_at row ->
  exists r w' booked,
    Engine.search this query w = (fulfilled r, w') /\
    SearchResponse.cached r = true /\
    World.calls w' = World.calls w /\
    World.metrics w' = World.metrics w ++ [booked] /\
    MetricRow.provider booked
    = (if in_dec ProviderName_eq_dec github (SearchQuery.providers query)
       then github else sourcegraph) /\
    MetricRow.cache_hit booked = 1 /\
    MetricRow.elapsed_ms booked = Some 0 /\
    MetricRow.error booked = None /\
    MetricRow.results booked
    = Some (Z.of_nat (List.length (SearchResponse.results (CacheRow.value row)))).
Proof.
  intros Hh Hne Hrow Hlive.
  pose proof (looked_up_live query w row (Hh _) Hrow Hlive) as Hhit.
  destruct (EngineFacts.search_hit this query w _ Hhit)
    as (w' & Hrun & (_ & _ & _ & Hcalls) & _ & _).
  pose proof (FilterFacts.sort_providers_grouped (SearchQuery.providers query)) as Hsorted.
  assert (Hfirst : exists rest,
             SearchQuery.providers (Types.normalizeQuery query)
             = (if in_dec ProviderName_eq_dec github (SearchQuery.providers query)
                then github else sourcegraph) :: rest).
  { simpl. rewrite Hsorted.
    destruct (in_dec ProviderName_eq_dec github (SearchQuery.providers query)) as [Hin | Hnot].
    - apply (count_occ_In ProviderName_eq_dec) in Hin.
      destruct (count_occ ProviderName_eq_dec (SearchQuery.providers query) github);
        [lia | simpl; eauto].
    - apply (count_occ_not_In ProviderName_eq_dec) in Hnot. rewrite Hnot. simpl.
      destruct (SearchQuery.providers query) as [ | p ps] eqn:Hps; [congruence | ].
      assert (Hin : In sourcegraph (p :: ps)).
      { destruct p; [ | left; reflexivity]. simpl in Hnot.
        destruct (ProviderName_eq_dec github github); [discriminate | congruence]. }
      apply (count_occ_In ProviderName_eq_dec) in Hin.
      destruct (count_occ ProviderName_eq_dec (p :: ps) sourcegraph);
        [lia | simpl; eauto]. }
  destruct Hfirst as (rest & Hfirst).
  pose proof (SearchFacts.search_hit_metrics this query w _ _ _ Hhit Hfirst) as Hm.
  rewrite Hrun, Hh in Hm. simpl in Hm.
  eexists _, w', _. split; [exact Hrun | ]. split; [reflexivity | ].
  split; [exact Hcalls | ]. split; [exact Hm | ]. repeat split.
Qed.

(** X22: the order in which a request lists its providers never
    matters: two requests that differ only in that order are served
    alike, with the same response and the same effects, in every
    state. *)
Theorem search_ignores_provider_order
        `{JS.Host} (this : SearchEngine.t) (query : SearchQuery.t)
        (ps : list ProviderName) (w : World.t) :
  Permutation ps (SearchQuery.providers query) ->
  Engine.search this (with_providers ps query) w = Engine.search this query w.
Proof.
  intros Hp. unfold Engine.search.
  rewrite (NormalizeFacts.normalizeQuery_perm_providers query ps Hp).
  reflexivity.
Qed.

(** X23: a response stored with a TTL of 0, as for [--no-cache], or
    with a negative one, is never served: the search that follows,
    however soon, finds the entry expired, asks every active provider
    again and answers uncached.  The database is healthy and the clock
    does not run backwards. *)
Theorem search_ttl_zero_not_served
        `{JS.Host} (this : SearchEngine.t) (query : SearchQuery.t) (w : World.t) :
  healthy w -> monotone w ->
  World.cache w !! Engine.hashQuery (Types.normalizeQuery query) = None ->
  EngineFacts.ttl_of this query <= 0 ->
  exists r1 w1 r2 w2,
    Engine.search this query w = (fulfilled r1, w1) /\
    Engine.search this query w1 = (fulfilled r2, w2) /\
    SearchResponse.cached r2 = false /\
    World.calls w2
    = World.calls w1
      ++ map (fun p => (Provider.name p, Types.normalizeQuery query))
             (Engine.activeProviders this (Types.normalizeQuery query)).
Proof.
  intros Hh Hm Habsent Httl.
  destruct (EngineFacts.search_miss this query w (SearchFacts.looked_up_absent _ _ Habsent))
    as (w1 & Hrun1 & Hclock & Hfaults & _ & Hticks & Hcache).
  rewrite Hh in Hcache.
  assert (Hmiss2 : EngineFacts.looked_up query w1 = None).
  { eapply SearchFacts.looked_up_expired.
    - rewrite Hcache. apply lookup_insert_eq.
    - cbn [CacheRow.expires_at]. rewrite Hclock, Hticks.
      set (n := List.length (Engine.activeProviders this (Types.normalizeQuery query))).
      pose proof (Hm (World.ticks w + 3 + 2 * n)%nat (S (World.ticks w + 4 + 2 * n))
                     ltac:(lia)) as Hle.
      pose proof (Z.div_le_mono _ _ 1000 ltac:(lia) Hle). lia. }
  destruct (EngineFacts.search_miss this query w1 Hmiss2)
    as (w2 & Hrun2 & _ & _ & Hcalls & _).
  eexists _, w1, _, w2. split; [exact Hrun1 | ]. split; [exact Hrun2 | ].
  split; [reflexivity | exact Hcalls].
Qed.

(** X24: when a request names both providers and both answer, GitHub's
    results come first in the merge, whatever the order of the request:
    a result whose url GitHub returned is GitHub's copy, never
    Sourcegraph's. *)
Theorem search_prefers_github_copy
        `{JS.Host} (this : SearchEngine.t) (query : SearchQuery.t) (w : World.t)
        (pg ps : Provider.t) (gh sg : list SearchResult.t) :
  Permutation (SearchQuery.providers query) [github; sourcegraph] ->
  SearchEngine.providers this github = Some pg ->
  SearchEngine.providers this sourcegraph = Some ps ->
  World.cache w !! Engine.hashQuery (Types.normalizeQuery query) = None ->
  Provider.search pg (Types.normalizeQuery query) (List.length (World.calls w))
  = fulfilled gh ->
  Provider.search ps (Types.normalizeQuery query) (S (List.length (World.calls w)))
  = fulfilled sg ->
  exists r w',
    Engine.search this query w = (fulfilled r, w') /\
    SearchResponse.results r = Aggregate.aggregate (gh ++ sg) (SearchQuery.limit query) /\
    SearchResponse.errors r = [] /\
    forall x, In x (SearchResponse.results r) ->
              In (SearchResult.url x) (map SearchResult.url gh) -> In x gh.
Proof.
  intros Hperm Hpg Hps Habsent Hgh Hsg.
  destruct (EngineFacts.search_miss this query w (SearchFacts.looked_up_absent _ _ Habsent))
    as (w' & Hrun & _).
  assert (Hsorted : SearchQuery.providers (Types.normalizeQuery query) = [github; sourcegraph]).
  { simpl. rewrite (NormalizeFacts.sort_providers_perm_eq _ _ Hperm). reflexivity. }
  assert (Hitems : EngineFacts.settled this query w = [(fulfilled gh, pg); (fulfilled sg, ps)]).
  { unfold EngineFacts.settled, Engine.activeProviders. rewrite Hsorted. simpl.
    rewrite Hpg, Hps. simpl. rewrite Hgh, Hsg. reflexivity. }
  rewrite Hitems in Hrun.
  eexists _, w'. split; [exact Hrun | ].
  unfold EngineFacts.miss_response, EngineFacts.values_of, EngineFacts.errors_of.
  cbn [SearchResponse.results SearchResponse.errors flat_map fst snd].
  rewrite app_nil_r. split; [reflexivity | split; [reflexivity | ]].
  intros x Hx Hurl. rewrite AggregateFacts.aggregate_slice in Hx.
  apply AggregateFacts.Array_slice0_incl in Hx.
  apply (Permutation_in _ (AggregateFacts.ranking_perm _)) in Hx.
  apply AggregateFacts.unique_first in Hx as (before & after & Hsplit & Hfirst).
  apply app_eq_app in Hsplit as (l & [[Hgh' Hrest] | [Hbefore Hsg']]).
  - destruct l as [ | x' l].
    + exfalso. apply Hfirst. rewrite app_nil_r in Hgh'. rewrite <- Hgh'. exact Hurl.
    + injection Hrest as <- _. rewrite Hgh'. apply in_or_app. right. left. reflexivity.
  - exfalso. apply Hfirst. rewrite Hbefore, map_app. apply in_or_app. left. exact Hurl.
Qed.


(** X25: the engine [buildEngine] makes without a GitHub token has no
    [github] adapter, and [search] passes over a requested provider that
    has none without a word: a request for [github] alone is answered,
    on a miss, with no results and no errors, no adapter is invoked, no
    metrics row is written, and the empty response is stored in the
    cache like any other. *)
Theorem search_without_github_token
        `{JS.Host} (TypeError_message : Value -> string -> string)
        (String_slice_0_minus_1 : string -> string)
        (get_code : GitHub.Request -> nat -> GitHub.Outcome)
        (get_stars : string -> nat -> option float)
        (post : Sourcegraph.Request -> nat -> Sourcegraph.Outcome)
        (cfg : Config.t) (query : SearchQuery.t) (w : World.t) :
  Config.githubToken cfg = None \/ Config.githubToken cfg = Some "" ->
  Forall (fun name => name = github) (SearchQuery.providers query) ->
  World.cache w !! Engine.hashQuery (Types.normalizeQuery query) = None ->
  let this := EngineFactory.buildEngine TypeError_message String_slice_0_minus_1
                get_code get_stars post cfg in
  exists r w',
    Engine.search this query w = (fulfilled r, w') /\
    SearchResponse.results r = [] /\
    SearchResponse.total r = 0 /\
    SearchResponse.errors r = [] /\
    World.calls w' = World.calls w /\
    World.metrics w' = World.metrics w /\
    (World.faults w (World.ticks w + 3) = false ->
     exists row,
       World.cache w' !! Engine.hashQuery (Types.normalizeQuery query) = Some row /\
       CacheRow.value row = r).
Proof.
  intros Htoken Hgithub Habsent this.
  pose proof (SearchFacts.looked_up_absent _ _ Habsent) as Hmiss.
  assert (Hnone : SearchEngine.providers this github = None).
  { unfold this, EngineFactory.buildEngine. simpl.
    destruct Htoken as [-> | ->]; reflexivity. }
  assert (Hactive : Engine.activeProviders this (Types.normalizeQuery query) = []).
  { unfold Engine.activeProviders.
    assert (Hall : Forall (fun name => name = github)
                          (SearchQuery.providers (Types.normalizeQuery query))).
    { apply List.Forall_forall. intros name Hname. simpl in Hname.
      apply (proj1 (SortFacts.Array_sort_In _ _ _)) in Hname.
      rewrite List.Forall_forall in Hgithub. auto. }
    induction Hall as [ | name names -> _ IH]; [reflexivity | ].
    cbn [flat_map]. rewrite Hnone. exact IH. }
  assert (Hitems : EngineFacts.settled this query w = []).
  { unfold EngineFacts.settled. rewrite Hactive. reflexivity. }
  destruct (EngineFacts.search_miss this query w Hmiss)
    as (w' & Hrun & _ & _ & Hcalls & _ & Hcache).
  pose proof (SearchFacts.search_miss_metrics this query w Hmiss) as Hm.
  rewrite Hrun in Hm. cbn [snd] in Hm.
  rewrite Hitems in Hm, Hrun, Hcache. rewrite Hactive in Hrun, Hcache, Hcalls.
  cbn [SearchFacts.provider_rows map] in Hm, Hcalls. rewrite app_nil_r in Hcalls, Hm.
  assert (Hnil : forall limit, Aggregate.aggregate [] limit = []).
  { intros limit. unfold Aggregate.aggregate, JS.Array_slice0. simpl.
    destruct (limit <? 0); rewrite firstn_nil; reflexivity. }
  eexists _, w'. split; [exact Hrun | ].
  unfold EngineFacts.miss_response, EngineFacts.values_of, EngineFacts.errors_of.
  cbn [SearchResponse.results SearchResponse.total SearchResponse.errors flat_map].
  rewrite Hnil. repeat split; try assumption.
  intros Hf.
  replace (World.ticks w + 3 + 2 * List.length (@nil Provider.t))%nat
    with (World.ticks w + 3)%nat in Hcache by (simpl; lia).
  rewrite Hf in Hcache. eexists. rewrite Hcache.
  split; [apply lookup_insert_eq | ].
  cbn [CacheRow.value]. unfold EngineFacts.miss_response, EngineFacts.values_of,
    EngineFacts.errors_of. cbn [flat_map]. rewrite Hnil. reflexivity.
Qed.


(** ** Sample data for the adapters, the tables and the factory *)

(** ** GitHub's adapter *)

Module GitHubFacts.

Lemma Set_values_from_In (l : list string) : forall (seen : gset string) (x : string),
  In x (JS.Set_values_from seen l) <-> In x l /\ x ∉ seen.
Proof.
  induction l as [ | y l IH]; intros seen x; simpl; [tauto | ].
  destruct (decide (y ∈ seen)) as [Hseen | Hnew].
  - rewrite IH. split.
    + intros [Hin Hx]. auto.
    + intros [[-> | Hin] Hx]; [contradiction | auto].
  - simpl. rewrite IH. split.
    + intros [-> | [Hin Hx]]; [auto | ]. split; [auto | set_solver].
    + intros [[-> | Hin] Hx]; [auto | ].
      destruct (decide (x = y)) as [-> | Hne]; [auto | ]. right. split; [exact Hin | set_solver].
Qed.

Lemma Set_values_In (l : list string) (x : string) : In x (JS.Set_values l) <-> In x l.
Proof.
  unfold JS.Set_values. rewrite Set_values_from_In. split; [tauto | ].
  intros Hin. split; [exact Hin | set_solver].
Qed.

Section Stars.
Variable get_stars : string -> nat -> option float.
Variable n : nat.

Lemma fold_stars_lookup (repos : list string) (name : string) :
  forall acc : gmap string float,
    fold_left (fun starMap repo =>
                 match get_stars repo n with
                 | Some stars => <[ repo := stars ]> starMap
                 | None => starMap
                 end) repos acc !! name
    = if in_dec string_dec name repos
      then match get_stars name n with Some stars => Some stars | None => acc !! name end
      else acc !! name.
Proof.
  induction repos as [ | repo repos IH]; intros acc; [reflexivity | ].
  cbn [fold_left]. rewrite IH.
  assert (Hacc : forall (m : gmap string float),
             m = match get_stars repo n with
                 | Some stars => <[ repo := stars ]> acc
                 | None => acc
                 end ->
             m !! name = if string_dec repo name
                         then match get_stars name n with
                              | Some stars => Some stars
                              | None => acc !! name
                              end
                         else acc !! name).
  { intros m ->. destruct (string_dec repo name) as [-> | Hne].
    - destruct (get_stars name n); [apply lookup_insert_eq | reflexivity].
    - destruct (get_stars repo n); [apply lookup_insert_ne; exact Hne | reflexivity]. }
  rewrite (Hacc _ eq_refl).
  destruct (in_dec string_dec name repos) as [Hin | Hnot];
    destruct (in_dec string_dec name (repo :: repos)) as [Hin' | Hnot'];
    destruct (string_dec repo name) as [Heq | Hne];
    try reflexivity;
    try (exfalso; apply Hnot'; simpl; auto; fail);
    try (destruct Hin' as [Heq' | Hin']; contradiction);
    destruct (get_stars name n); reflexivity.
Qed.

Lemma fetchStarCounts_lookup (names : list string) (name : string) :
  In name names ->
  GitHub.fetchStarCounts get_stars n (JS.Set_values names) !! name = get_stars name n.
Proof.
  intros Hin. unfold GitHub.fetchStarCounts. rewrite fold_stars_lookup.
  destruct (in_dec string_dec name (JS.Set_values names)) as [ | Hnot].
  - rewrite lookup_empty. destruct (get_stars name n); reflexivity.
  - exfalso. apply Hnot, Set_values_In, Hin.
Qed.
End Stars.

End GitHubFacts.

Module SampleData.

(** A [LIKE] for patterns without wildcards and without letters. *)
Definition sqlite : Sqlite :=
  {| like := fun key pattern => String.eqb key pattern;
     page_count := fun _ => 8;
     page_size := fun _ => 4096 |}.

Definition row_2024 : CacheRow.t :=
  {| CacheRow.value := SampleWorld.response;
     CacheRow.created_at := 1700000000;
     CacheRow.expires_at := 1700003600 |}.

Definition row_expired : CacheRow.t :=
  {| CacheRow.value := SampleWorld.response;
     CacheRow.created_at := 1600000000;
     CacheRow.expires_at := 1600003600 |}.

(** A cache of two rows, one of them expired. *)
Definition world_two_rows : World.t :=
  World.set_cache (<[ "1" := row_2024 ]> (<[ "2" := row_expired ]> ∅)) SampleWorld.world.

Definition metric (provider : ProviderName) (elapsed : option Z) (error : option string)
  : MetricRow.t :=
  {| MetricRow.ts := 1700000000;
     MetricRow.provider := provider;
     MetricRow.query := Some "foo";
     MetricRow.cache_hit := 0;
     MetricRow.results := None;
     MetricRow.elapsed_ms := elapsed;
     MetricRow.error := error |}.

Definition world_metrics : World.t :=
  World.set_metrics
    [metric github (Some 120) None; metric github (Some 80) None;
     metric github None (Some "Rate limited"); metric github (Some 300) None]
    SampleWorld.world.

Definition failed : MetricRecord.t :=
  {| MetricRecord.provider := sourcegraph;
     MetricRecord.query := Some "foo";
     MetricRecord.cacheHit := false;
     MetricRecord.results := None;
     MetricRecord.elapsedMs := None;
     MetricRecord.error := Some "Auth failed" |}.

(** The query of [SampleWorld] under its key, live. *)
Definition world_hit : World.t :=
  World.set_cache
    (<[ Engine.hashQuery (Types.normalizeQuery SampleWorld.query) := row_2024 ]> ∅)
    SampleWorld.world.

Definition query_no_cache : SearchQuery.t :=
  {| SearchQuery.q := "foo";
     SearchQuery.providers := [github];
     SearchQuery.filters := [];
     SearchQuery.limit := 10;
     SearchQuery.cacheTTL := Some 0 |}.

Definition also_good : Provider.t :=
  {| Provider.name := sourcegraph;
     Provider.search := fun _ _ => fulfilled [Samples.A'; Samples.D] |}.

Definition engine_two : SearchEngine.t :=
  {| SearchEngine.providers :=
       fun name => match name with
                   | github => Some SampleWorld.good
                   | sourcegraph => Some also_good
                   end;
     SearchEngine.defaultTTL := 3600 |}.

Definition rate_limited : Value :=
  VObject [("response", VObject [("statusCode", VNumber 429 "429")] "[object Object]")]
          "HTTPError: Response code 429 (Too Many Requests)".

Definition request_error : Value :=
  VObject [("name", VOther "RequestError"); ("response", VUndefined)]
          "RequestError: connect ETIMEDOUT".

Definition TypeError_message (target : Value) (property : string) : string :=
  String.append "Cannot read properties of "
    (String.append (Value.String_ target)
       (String.append " (reading '" (String.append property "')"))).

Definition match_of (path : string) (lines : list Z) : Sourcegraph.FileMatch :=
  {| Sourcegraph.repository_name := "github.com/torvalds/linux";
     Sourcegraph.repository_stars := 1000;
     Sourcegraph.file_path := path;
     Sourcegraph.file_url := String.append "/github.com/torvalds/linux/-/blob/" path;
     Sourcegraph.file_canonicalURL := String.append "/github.com/torvalds/linux@abc/-/blob/" path;
     Sourcegraph.lineMatches :=
       map (fun n => {| Sourcegraph.lineNumber := n; Sourcegraph.preview := "x" |}) lines |}.

Definition answered : list Sourcegraph.Result :=
  [Sourcegraph.IsFileMatch (match_of "net/core/dev.c" [7; 9]);
   Sourcegraph.NotFileMatch "CommitSearchResult";
   Sourcegraph.IsFileMatch (match_of "Makefile" [])].

(** On ASCII strings [slice(0, -1)] drops the last byte. *)
Definition drop_last (s : string) : string := substring 0 (String.length s - 1) s.

Definition item_of (full_name path : string) (text : option (list GitHub.TextMatch))
  : GitHub.CodeItem :=
  {| GitHub.name := path;
     GitHub.path := path;
     GitHub.html_url :=
       String.append "https://github.com/"
         (String.append full_name (String.append "/blob/main/" path));
     GitHub.repository_full_name := full_name;
     GitHub.text_matches := text |}.

Definition items : list GitHub.CodeItem :=
  [item_of "owner/repo" "templates/nftables.conf.j2"
     (Some [ {| GitHub.fragment := "tcp dport 22 ct state new";
                GitHub.matches := [(0, 10)] |} ]);
   item_of "other/project" "Makefile" None;
   item_of "owner/repo" "README.md" (Some [])].

(** The star request for [owner/repo] succeeds, every other fails. *)
Definition star_counts (repo : string) (n : nat) : option float :=
  if String.eqb repo "owner/repo" then Some 500%float else None.

(** A host whose logarithm is exact at 1, as ECMAScript requires. *)
Definition host_log : JS.Host :=
  {| JS.Math_log := fun x => if PrimFloat.eqb x 1 then 0%float else Samples.sample_log x |}.

Definition config_without_token : Config.t :=
  {| Config.githubToken := None;
     Config.sourcegraphToken := None;
     Config.sourcegraphUrl := "https://sourcegraph.com";
     Config.cachePath := "/home/user/.cache/supergrep/cache.db";
     Config.defaultCacheTTL := 3600;
     Config.defaultLimit := 20;
     Config.logLevel := "info";
     Config.logFile := None;
     Config.otelEndpoint := None |}.

End SampleData.

Lemma sourcegraph_failure_reported_witness :
  (forall request : Sourcegraph.Request,
      (fun _ _ => Sourcegraph.Threw SampleData.rate_limited) request 0%nat
      = Sourcegraph.Threw SampleData.rate_limited) /\
  exists reason,
    Sourcegraph.search SampleData.TypeError_message "https://sourcegraph.com" None
      (fun _ _ => Sourcegraph.Threw SampleData.rate_limited) SampleWorld.query 0
    = rejected reason /\
    ProviderError.code (Engine.toProviderError SampleWorld.bad reason) = RATE_LIMIT.
Proof.
  split; [reflexivity | ].
  destruct (sourcegraph_failure_reported SampleData.TypeError_message
              "https://sourcegraph.com" None
              (fun _ _ => Sourcegraph.Threw SampleData.rate_limited)
              SampleWorld.query 0 SampleData.rate_limited (fun _ => eq_refl))
    as (reason & Hrun & _).
  exists reason. split; [exact Hrun | ].
  vm_compute in Hrun. injection Hrun as <-. reflexivity.
Defined.

Lemma sourcegraph_results_bounded_witness :
  (forall request : Sourcegraph.Request,
      (fun _ _ => Sourcegraph.Responded SampleData.answered) request 0%nat
      = Sourcegraph.Responded SampleData.answered) /\
  0 <= SearchQuery.limit SampleWorld.query /\
  exists found,
    Sourcegraph.search SampleData.TypeError_message "https://sourcegraph.com" None
      (fun _ _ => Sourcegraph.Responded SampleData.answered) SampleWorld.query 0
    = fulfilled found /\
    map SearchResult.path found = ["net/core/dev.c"; "Makefile"].
Proof.
  split; [reflexivity | ]. split; [simpl; lia | ].
  destruct (sourcegraph_results_bounded SampleData.TypeError_message
              "https://sourcegraph.com" None
              (fun _ _ => Sourcegraph.Responded SampleData.answered)
              SampleWorld.query 0 SampleData.answered (fun _ => eq_refl)
              ltac:(simpl; lia))
    as (found & Hrun & _ & _ & Hpaths).
  exists found. split; [exact Hrun | ]. rewrite Hpaths. reflexivity.
Defined.

Lemma cache_clear_all_witness :
  (@None string = None \/ @None string = Some "") /\
  World.faults SampleData.world_two_rows (World.ticks SampleData.world_two_rows) = false /\
  fst (@SqliteCacheRepository.clear SampleData.sqlite None SampleData.world_two_rows)
  = fulfilled 2.
Proof.
  split; [left; reflexivity | ]. split; [reflexivity | ].
  destruct (@cache_clear_all SampleData.sqlite None SampleData.world_two_rows
              (or_introl eq_refl) eq_refl) as (w' & Hrun & _).
  rewrite Hrun. vm_compute. reflexivity.
Defined.

Lemma cache_clear_pattern_witness :
  "2" <> "" /\
  World.faults SampleData.world_two_rows (World.ticks SampleData.world_two_rows) = false /\
  exists w',
    @SqliteCacheRepository.clear SampleData.sqlite (Some "2") SampleData.world_two_rows
    = (fulfilled 1, w') /\
    World.cache w' !! "1" = Some SampleData.row_2024 /\
    World.cache w' !! "2" = None.
Proof.
  assert (Hp : "2" <> "") by discriminate.
  split; [exact Hp | ]. split; [reflexivity | ].
  destruct (@cache_clear_pattern SampleData.sqlite "2" SampleData.world_two_rows Hp eq_refl)
    as (deleted & w' & Hrun & Hlookup & _).
  exists w'. split; [ | split].
  - rewrite Hrun. f_equal. vm_compute in Hrun. injection Hrun as <- _. reflexivity.
  - rewrite Hlookup. reflexivity.
  - rewrite Hlookup. reflexivity.
Defined.

Lemma cache_stats_counts_live_witness :
  World.faults SampleData.world_two_rows (World.ticks SampleData.world_two_rows) = false /\
  World.faults SampleData.world_two_rows (S (World.ticks SampleData.world_two_rows)) = false /\
  exists st,
    fst (@SqliteCacheRepository.stats SampleData.sqlite SampleData.world_two_rows)
    = fulfilled st /\
    CacheStats.entries st = 1 /\
    CacheStats.oldestEntry st = Some (JS.DateOf 1700000000000).
Proof.
  split; [reflexivity | ]. split; [reflexivity | ].
  destruct (@cache_stats_counts_live SampleData.sqlite SampleData.world_two_rows
              eq_refl eq_refl) as (st & w' & Hrun & _).
  exists st. rewrite Hrun. split; [reflexivity | ].
  vm_compute in Hrun. injection Hrun as <- _. split; reflexivity.
Defined.

Lemma cache_stats_after_set_and_clear_witness :
  healthy SampleWorld.world /\
  World.clock SampleWorld.world (S (World.ticks SampleWorld.world)) / 1000
  < World.clock SampleWorld.world (World.ticks SampleWorld.world) / 1000 + 60 /\
  exists st,
    fst (@SqliteCacheRepository.stats SampleData.sqlite
           (snd (SqliteCacheRepository.set "key" SampleWorld.response 60 SampleWorld.world)))
    = fulfilled st /\
    1 <= CacheStats.entries st.
Proof.
  assert (Hlive : World.clock SampleWorld.world (S (World.ticks SampleWorld.world)) / 1000
                  < World.clock SampleWorld.world (World.ticks SampleWorld.world) / 1000 + 60)
    by (vm_compute; reflexivity).
  split; [exact SampleWorld.world_healthy | ]. split; [exact Hlive | ].
  destruct (@cache_stats_after_set_and_clear SampleData.sqlite SampleWorld.world "key"
              SampleWorld.response 60 SampleWorld.world_healthy Hlive)
    as [(st & Hrun & Hentries & _) _].
  exists st. split; [exact Hrun | exact Hentries].
Defined.

Lemma metrics_percentiles_ordered_witness :
  Z.of_nat (List.length (World.metrics SampleData.world_metrics)) < 2 ^ 32 /\
  exists sts,
    fst (Metrics.stats None SampleData.world_metrics) = fulfilled sts /\
    Forall (fun st => ProviderStats.p50 st <= ProviderStats.p95 st <= ProviderStats.p99 st)
           sts /\
    map ProviderStats.p50 sts = [120].
Proof.
  assert (Hlen : Z.of_nat (List.length (World.metrics SampleData.world_metrics)) < 2 ^ 32)
    by (vm_compute; reflexivity).
  split; [exact Hlen | ].
  destruct (Metrics.stats None SampleData.world_metrics) as [[sts | e] w'] eqn:Hrun;
    [ | vm_compute in Hrun; discriminate Hrun].
  exists sts. split; [reflexivity | ]. split.
  - apply List.Forall_forall. intros st Hst.
    apply (metrics_percentiles_ordered None SampleData.world_metrics sts Hlen);
      [rewrite Hrun; reflexivity | exact Hst].
  - vm_compute in Hrun. injection Hrun as <- _. reflexivity.
Defined.

Lemma metrics_percentiles_are_samples_witness :
  exists sts st,
    fst (Metrics.stats None SampleData.world_metrics) = fulfilled sts /\
    In st sts /\
    In (ProviderStats.p99 st) [120; 80; 300].
Proof.
  destruct (Metrics.stats None SampleData.world_metrics) as [[sts | e] w'] eqn:Hrun;
    [ | vm_compute in Hrun; discriminate Hrun].
  assert (Hsts : exists st, In st sts /\ ProviderStats.provider st = github).
  { vm_compute in Hrun. injection Hrun as <- _. eexists. split; [left | ]; reflexivity. }
  destruct Hsts as (st & Hst & Hprov).
  exists sts, st. split; [reflexivity | ]. split; [exact Hst | ].
  destruct (metrics_percentiles_are_samples None SampleData.world_metrics sts
              ltac:(rewrite Hrun; reflexivity) st Hst) as [_ Hin].
  rewrite Hprov in Hin. apply Hin. vm_compute. discriminate.
Defined.

Lemma metrics_stats_groups_witness :
  World.faults SampleData.world_metrics (World.ticks SampleData.world_metrics) = false /\
  exists sts,
    fst (Metrics.stats None SampleData.world_metrics) = fulfilled sts /\
    map ProviderStats.provider sts = [github] /\
    map ProviderStats.requests sts = [4] /\
    map ProviderStats.errors sts = [1].
Proof.
  split; [reflexivity | ].
  destruct (metrics_stats_groups None SampleData.world_metrics eq_refl)
    as (sts & w' & Hrun & _).
  exists sts. rewrite Hrun. split; [reflexivity | ].
  vm_compute in Hrun. injection Hrun as <- _. repeat split.
Defined.

Lemma metrics_record_then_stats_witness :
  healthy SampleData.world_metrics /\
  World.clock SampleData.world_metrics (S (World.ticks SampleData.world_metrics)) / 1000
  - 86400
  <= World.clock SampleData.world_metrics (World.ticks SampleData.world_metrics) / 1000 /\
  exists sts st,
    fst (Metrics.stats None (snd (SqliteMetrics.record SampleData.failed
                                    SampleData.world_metrics)))
    = fulfilled sts /\
    In st sts /\
    ProviderStats.provider st = sourcegraph /\
    ProviderStats.requests st = 1 /\
    1 <= ProviderStats.errors st.
Proof.
  assert (Hh : healthy SampleData.world_metrics) by (intros n; reflexivity).
  assert (Hwindow :
            World.clock SampleData.world_metrics (S (World.ticks SampleData.world_metrics))
            / 1000 - 86400
            <= World.clock SampleData.world_metrics (World.ticks SampleData.world_metrics)
               / 1000) by (vm_compute; discriminate).
  split; [exact Hh | ]. split; [exact Hwindow | ].
  destruct (metrics_record_then_stats SampleData.world_metrics SampleData.failed None
              Hh Hwindow) as (sts & st & Hrun & Hst & Hprov & Hreq & Herr).
  exists sts, st. split; [exact Hrun | ]. split; [exact Hst | ].
  split; [exact Hprov | ]. split; [rewrite Hreq; reflexivity | ].
  apply Herr. discriminate.
Defined.

Lemma search_miss_response_shape_witness :
  World.cache SampleWorld.world
    !! Engine.hashQuery (Types.normalizeQuery SampleWorld.query) = None /\
  exists r w',
    @Engine.search Samples.host SampleWorld.engine SampleWorld.query SampleWorld.world
    = (fulfilled r, w') /\
    SearchResponse.total r = Z.of_nat (List.length (SearchResponse.results r)) /\
    SearchResponse.total r <= 10.
Proof.
  assert (Habsent : World.cache SampleWorld.world
                      !! Engine.hashQuery (Types.normalizeQuery SampleWorld.query) = None)
    by apply lookup_empty.
  split; [exact Habsent | ].
  destruct (@search_miss_response_shape Samples.host SampleWorld.engine SampleWorld.query
              SampleWorld.world Habsent)
    as (r & w' & Hrun & _ & _ & Htotal & _ & Hlimit & _).
  exists r, w'. split; [exact Hrun | ]. split; [exact Htotal | ].
  apply Hlimit. simpl. lia.
Defined.

Lemma search_miss_records_providers_witness :
  healthy SampleWorld.world /\
  World.cache SampleWorld.world
    !! Engine.hashQuery (Types.normalizeQuery SampleWorld.query) = None /\
  exists r w',
    @Engine.search Samples.host SampleWorld.engine SampleWorld.query SampleWorld.world
    = (fulfilled r, w') /\
    map MetricRow.provider (World.metrics w') = [github; sourcegraph].
Proof.
  assert (Habsent : World.cache SampleWorld.world
                      !! Engine.hashQuery (Types.normalizeQuery SampleWorld.query) = None)
    by apply lookup_empty.
  split; [exact SampleWorld.world_healthy | ]. split; [exact Habsent | ].
  destruct (@search_miss_records_providers Samples.host SampleWorld.engine
              SampleWorld.query SampleWorld.world SampleWorld.world_healthy Habsent)
    as (r & w' & rows & Hrun & Hmetrics & Hproviders & _).
  exists r, w'. split; [exact Hrun | ].
  rewrite Hmetrics. simpl. rewrite Hproviders. reflexivity.
Defined.

Lemma cache_hit_booked_on_first_provider_witness :
  healthy SampleData.world_hit /\
  SearchQuery.providers SampleWorld.query <> [] /\
  exists r w' booked,
    @Engine.search Samples.host SampleWorld.engine SampleWorld.query SampleData.world_hit
    = (fulfilled r, w') /\
    World.metrics w' = [booked] /\
    MetricRow.provider booked = github /\
    MetricRow.cache_hit booked = 1.
Proof.
  assert (Hh : healthy SampleData.world_hit) by (intros n; reflexivity).
  assert (Hne : SearchQuery.providers SampleWorld.query <> []) by discriminate.
  split; [exact Hh | ]. split; [exact Hne | ].
  destruct (@cache_hit_booked_on_first_provider Samples.host SampleWorld.engine
              SampleWorld.query SampleData.world_hit SampleData.row_2024 Hh Hne)
    as (r & w' & booked & Hrun & _ & _ & Hmetrics & Hprovider & Hhit & _).
  - apply lookup_insert_eq.
  - vm_compute. reflexivity.
  - exists r, w', booked. split; [exact Hrun | ]. split; [exact Hmetrics | ].
    split; [rewrite Hprovider; reflexivity | exact Hhit].
Defined.

Lemma search_ignores_provider_order_witness :
  Permutation [github; sourcegraph] (SearchQuery.providers SampleWorld.query) /\
  @Engine.search Samples.host SampleWorld.engine
     (with_providers [github; sourcegraph] SampleWorld.query) SampleWorld.world
  = @Engine.search Samples.host SampleWorld.engine SampleWorld.query SampleWorld.world.
Proof.
  assert (Hp : Permutation [github; sourcegraph] (SearchQuery.providers SampleWorld.query))
    by apply perm_swap.
  split; [exact Hp | ].
  exact (@search_ignores_provider_order Samples.host SampleWorld.engine SampleWorld.query
           [github; sourcegraph] SampleWorld.world Hp).
Defined.

Lemma search_ttl_zero_not_served_witness :
  healthy SampleWorld.world /\ monotone SampleWorld.world /\
  EngineFacts.ttl_of SampleWorld.engine SampleData.query_no_cache <= 0 /\
  exists r1 w1 r2 w2,
    @Engine.search Samples.host SampleWorld.engine SampleData.query_no_cache
      SampleWorld.world = (fulfilled r1, w1) /\
    @Engine.search Samples.host SampleWorld.engine SampleData.query_no_cache w1
    = (fulfilled r2, w2) /\
    SearchResponse.cached r2 = false.
Proof.
  assert (Httl : EngineFacts.ttl_of SampleWorld.engine SampleData.query_no_cache <= 0)
    by (vm_compute; discriminate).
  split; [exact SampleWorld.world_healthy | ]. split; [exact SampleWorld.world_monotone | ].
  split; [exact Httl | ].
  destruct (@search_ttl_zero_not_served Samples.host SampleWorld.engine
              SampleData.query_no_cache SampleWorld.world
              SampleWorld.world_healthy SampleWorld.world_monotone
              (lookup_empty _) Httl)
    as (r1 & w1 & r2 & w2 & Hrun1 & Hrun2 & Hcached & _).
  exists r1, w1, r2, w2. auto.
Defined.

Lemma search_prefers_github_copy_witness :
  Permutation (SearchQuery.providers SampleWorld.query) [github; sourcegraph] /\
  exists r w',
    @Engine.search Samples.host SampleData.engine_two SampleWorld.query SampleWorld.world
    = (fulfilled r, w') /\
    (In Samples.A (SearchResponse.results r) \/ ~ In Samples.A' (SearchResponse.results r)).
Proof.
  assert (Hp : Permutation (SearchQuery.providers SampleWorld.query) [github; sourcegraph])
    by apply perm_swap.
  split; [exact Hp | ].
  destruct (@search_prefers_github_copy Samples.host SampleData.engine_two SampleWorld.query
              SampleWorld.world SampleWorld.good SampleData.also_good
              [Samples.A; Samples.B] [Samples.A'; Samples.D] Hp eq_refl eq_refl
              (lookup_empty _) eq_refl eq_refl)
    as (r & w' & Hrun & _ & _ & Hcopy).
  exists r, w'. split; [exact Hrun | ]. right. intros Hin.
  specialize (Hcopy Samples.A' Hin ltac:(left; reflexivity)).
  destruct Hcopy as [Heq | [Heq | []]]; discriminate Heq.
Defined.

Lemma search_without_github_token_witness :
  (Config.githubToken SampleData.config_without_token = None \/
   Config.githubToken SampleData.config_without_token = Some "") /\
  Forall (fun name => name = github) (SearchQuery.providers SampleData.query_no_cache) /\
  exists r w',
    @Engine.search Samples.host
       (EngineFactory.buildEngine SampleData.TypeError_message SampleData.drop_last
          (fun _ _ => GitHub.Responded SampleData.items) SampleData.star_counts
          (fun _ _ => Sourcegraph.Responded SampleData.answered)
          SampleData.config_without_token)
       SampleData.query_no_cache SampleWorld.world
    = (fulfilled r, w') /\
    SearchResponse.results r = [] /\
    SearchResponse.errors r = [].
Proof.
  assert (Hall : Forall (fun name => name = github)
                        (SearchQuery.providers SampleData.query_no_cache))
    by (repeat constructor).
  split; [left; reflexivity | ]. split; [exact Hall | ].
  destruct (@search_without_github_token Samples.host SampleData.TypeError_message
              SampleData.drop_last
              (fun _ _ => GitHub.Responded SampleData.items) SampleData.star_counts
              (fun _ _ => Sourcegraph.Responded SampleData.answered)
              SampleData.config_without_token SampleData.query_no_cache SampleWorld.world
              (or_introl eq_refl) Hall (lookup_empty _))
    as (r & w' & Hrun & Hresults & _ & Herrors & _).
  exists r, w'. auto.
Defined.

(** X26: an answered search of the GitHub adapter returns one result
    per item of the answer, in the answer's order and whatever the
    limit of the query.  Each is marked [github], spans the lines from 1
    to some line not before it, and is scored 1 or 0.5; its stars are
    the count the request for the item's repository brought, and 0 when
    that request failed. *)
Theorem github_results_follow_items
        (String_slice_0_minus_1 : string -> string) (token : string)
        (get_code : GitHub.Request -> nat -> GitHub.Outcome)
        (get_stars : string -> nat -> option float)
        (query : SearchQuery.t) (n : nat) (items : list GitHub.CodeItem) :
  (forall request, get_code request n = GitHub.Responded items) ->
  exists found,
    GitHub.search String_slice_0_minus_1 token get_code get_stars query n
    = fulfilled found /\
    map SearchResult.url found = map GitHub.html_url items /\
    Forall (fun r => SearchResult.provider r = github /\
                     (SearchResult.score r = 1%float \/
                      SearchResult.score r = 0x1p-1%float) /\
                     fst (SearchResult.lines r) = 1 /\
                     1 <= snd (SearchResult.lines r)) found /\
    Forall2 (fun item r =>
               SearchResult.stars r
               = match get_stars (GitHub.repository_full_name item) n with
                 | Some stars => stars
                 | None => 0%float
                 end) items found.
Proof.
  intros Hcode. unfold GitHub.search. rewrite Hcode.
  eexists. split; [reflexivity | ]. split; [ | split].
  - rewrite map_map. reflexivity.
  - apply List.Forall_forall. intros r Hr.
    apply in_map_iff in Hr as (item & <- & _).
    unfold GitHub.normalize. cbn [SearchResult.provider SearchResult.score SearchResult.lines
                                  fst snd].
    split; [reflexivity | ]. split; [ | split; [reflexivity | lia]].
    destruct (GitHub.text_matches item) as [[ | m ms] | ]; auto.
    destruct (0 <? _); auto.
  - set (names := map GitHub.repository_full_name items).
    assert (Hall : Forall (fun item => In (GitHub.repository_full_name item) names) items).
    { apply List.Forall_forall. intros item Hitem. apply in_map. exact Hitem. }
    clearbody names. clear Hcode.
    induction Hall as [ | item rest Hitem _ IH]; cbn [map]; [constructor | ].
    constructor; [ | exact IH].
    unfold GitHub.normalize. cbn [SearchResult.stars].
    rewrite GitHubFacts.fetchStarCounts_lookup by exact Hitem. reflexivity.
Qed.

Lemma github_results_follow_items_witness :
  (forall request : GitHub.Request,
      (fun _ _ => GitHub.Responded SampleData.items) request 0%nat
      = GitHub.Responded SampleData.items) /\
  exists found,
    GitHub.search SampleData.drop_last "ghp_test"
      (fun _ _ => GitHub.Responded SampleData.items) SampleData.star_counts
      SampleWorld.query 0
    = fulfilled found /\
    map SearchResult.stars found = [500%float; 0%float; 500%float] /\
    map SearchResult.lines found = [(1, 1); (1, 1); (1, 1)].
Proof.
  split; [reflexivity | ].
  destruct (github_results_follow_items SampleData.drop_last "ghp_test"
              (fun _ _ => GitHub.Responded SampleData.items) SampleData.star_counts
              SampleWorld.query 0 SampleData.items (fun _ => eq_refl))
    as (found & Hrun & _).
  exists found. split; [exact Hrun | ].
  vm_compute in Hrun. injection Hrun as <-. split; reflexivity.
Defined.

(** X27: a GitHub result whose star request failed has 0 stars, and
    its rank [score * Math.log(stars + 1)] is 0 on a host whose
    [Math.log(1)] is [+0], whatever its score. *)
Theorem github_failed_star_lookup_ranks_zero
        `{JS.Host} (String_slice_0_minus_1 : string -> string) (token : string)
        (get_code : GitHub.Request -> nat -> GitHub.Outcome)
        (get_stars : string -> nat -> option float)
        (query : SearchQuery.t) (n : nat) (items : list GitHub.CodeItem)
        (item : GitHub.CodeItem) :
  JS.Math_log 1%float = 0%float ->
  (forall request, get_code request n = GitHub.Responded items) ->
  In item items ->
  get_stars (GitHub.repository_full_name item) n = None ->
  exists found r,
    GitHub.search String_slice_0_minus_1 token get_code get_stars query n
    = fulfilled found /\
    In r found /\
    SearchResult.url r = GitHub.html_url item /\
    SearchResult.stars r = 0%float /\
    Aggregate.rank r = 0%float.
Proof.
  intros Hlog Hcode Hitem Hfailed. unfold GitHub.search. rewrite Hcode.
  eexists _, _. split; [reflexivity | ].
  split; [apply in_map, Hitem | ]. split; [reflexivity | ].
  assert (Hstars : SearchResult.stars
                     (GitHub.normalize String_slice_0_minus_1 item
                        (GitHub.fetchStarCounts get_stars n
                           (JS.Set_values (map GitHub.repository_full_name items))))
                   = 0%float).
  { unfold GitHub.normalize. cbn [SearchResult.stars].
    rewrite GitHubFacts.fetchStarCounts_lookup by (apply in_map; exact Hitem).
    rewrite Hfailed. reflexivity. }
  split; [exact Hstars | ].
  unfold Aggregate.rank. rewrite Hstars.
  change (PrimFloat.add 0 1) with 1%float. rewrite Hlog.
  unfold GitHub.normalize. cbn [SearchResult.score].
  destruct (match GitHub.text_matches item with
            | Some (m :: _) => Some m
            | _ => None
            end) as [m | ]; [destruct (0 <? _) | ]; reflexivity.
Qed.

Lemma github_failed_star_lookup_ranks_zero_witness :
  @JS.Math_log SampleData.host_log 1%float = 0%float /\
  In (SampleData.item_of "other/project" "Makefile" None) SampleData.items /\
  SampleData.star_counts "other/project" 0 = None /\
  exists found r,
    GitHub.search SampleData.drop_last "ghp_test"
      (fun _ _ => GitHub.Responded SampleData.items) SampleData.star_counts
      SampleWorld.query 0
    = fulfilled found /\
    In r found /\
    @Aggregate.rank SampleData.host_log r = 0%float.
Proof.
  assert (Hin : In (SampleData.item_of "other/project" "Makefile" None) SampleData.items)
    by (right; left; reflexivity).
  split; [reflexivity | ]. split; [exact Hin | ]. split; [reflexivity | ].
  destruct (@github_failed_star_lookup_ranks_zero SampleData.host_log
              SampleData.drop_last "ghp_test"
              (fun _ _ => GitHub.Responded SampleData.items) SampleData.star_counts
              SampleWorld.query 0 SampleData.items
              (SampleData.item_of "other/project" "Makefile" None)
              eq_refl (fun _ => eq_refl) Hin eq_refl)
    as (found & r & Hrun & Hr & _ & _ & Hrank).
  exists found, r. auto.
Defined.
